(** * The library scanner of my-media-manager, embedded in Rocq

    Shallow embedding of [backend/services/library_scanner.py] (the scan
    engine, the progress record, the registry of scans, the duplicate
    reconciler, the path classifier), of the two lookup functions of
    [backend/services/firestore_service.py] that the reconciler calls, and
    of the verification endpoint of [backend/api/library_operations.py].

    Conventions of the embedding:
    - a Python [str] is a Rocq [string]; a character is a code point below 256;
    - a Python dict used as a record ([Dict[str, Any]]) is the record [Item]
      of the keys the scanner reads, each optional because every read goes
      through [.get]; a dict used as a lookup table is a [gmap];
    - an exception is a value of [exn]; code under [try] lives in the error
      monad [result]; the progress object, which Python mutates in place, is
      passed from step to step;
    - counters are [nat], sizes and time stamps are [Z] (whole seconds); the
      one place where the scanner computes with a Python [float], the
      percentage of a progress record, is modelled in IEEE 754 binary64
      with the [spec_float] of the Standard Library. *)

From Stdlib Require Import ZArith Ascii String List Lia Bool Floats.SpecFloat.
From stdpp Require Import base option list strings gmap.

(** ** Python values *)

(** The values stored under the keys that the reconciler compares. *)
Inductive scalar :=
  | SNone
  | SInt (n : Z)
  | SStr (s : string).

(** The value stored under ['metadata']: normally a dict of scalars, but the
    inventory is caller-supplied JSON, so it may be any scalar (JSON null
    included). *)
Inductive pyval :=
  | VScalar (a : scalar)
  | VDict (d : gmap string scalar).

#[global] Instance scalar_eq_dec : EqDecision scalar.
Proof. solve_decision. Defined.

#[global] Instance pyval_eq_dec : EqDecision pyval.
Proof. solve_decision. Defined.

(** A [Dict[str, Any]] item record: a discovered item, a caller-supplied
    existing item or a Firestore document.  [other_keys] counts the keys
    the scanner never reads (['name'], ['extension'], ...): they matter only
    for the truth value of the dict. *)
Record Item := mkItem {
  item_type : option string;      (* 'type' *)
  path : option string;           (* 'path' *)
  libraryPath : option string;    (* 'libraryPath' *)
  userId : option string;         (* 'userId' *)
  media_type : option scalar;     (* 'media_type' *)
  metadata : option pyval;        (* 'metadata' *)
  other_keys : nat
}.

#[global] Instance Item_eq_dec : EqDecision Item.
Proof. solve_decision. Defined.

Definition empty_dict : Item := mkItem None None None None None None 0.

(** [bool(d)] of a dict: it has at least one key. *)
Definition dict_truthy (d : Item) : bool :=
  bool_decide (is_Some (item_type d)) || bool_decide (is_Some (path d))
  || bool_decide (is_Some (libraryPath d)) || bool_decide (is_Some (userId d))
  || bool_decide (is_Some (media_type d)) || bool_decide (is_Some (metadata d))
  || negb (Nat.eqb (other_keys d) 0).

(** [bool(s)] of a string. *)
Definition str_truthy (s : string) : bool := negb (String.eqb s "").

(** A Python object met where the code expects an item dict: iterating a
    dict yields its keys, which are strings. *)
Inductive pyobj :=
  | OStr (s : string)
  | ODict (d : Item).

Definition obj_truthy (o : pyobj) : bool :=
  match o with
  | OStr s => str_truthy s
  | ODict d => dict_truthy d
  end.

(** ** Exceptions *)

Inductive exn :=
  | AttributeError (msg : string)
  | FileOperationError (msg : string)
  | ScanOperationError (msg : string).

(** [str(e)] *)
Definition exn_str (e : exn) : string :=
  match e with
  | AttributeError msg | FileOperationError msg | ScanOperationError msg => msg
  end.

Inductive result (A : Type) :=
  | Ok (a : A)
  | Raise (e : exn).
Arguments Ok {A} a.
Arguments Raise {A} e.

#[global] Instance result_ret : MRet result := λ A a, Ok a.
#[global] Instance result_bind : MBind result := λ A B f m,
  match m with
  | Ok a => f a
  | Raise e => Raise e
  end.

(** A [for] loop whose body may raise. *)
Fixpoint for_each {A S : Type} (body : S → A → result S) (l : list A) (s : S)
    : result S :=
  match l with
  | [] => Ok s
  | x :: l' => s' ← body s x; for_each body l' s'
  end.

Definition no_attribute (ty : string) : exn :=
  AttributeError ("'" +:+ ty +:+ "' object has no attribute 'get'").

Definition scalar_type_name (a : scalar) : string :=
  match a with
  | SNone => "NoneType"
  | SInt _ => "int"
  | SStr _ => "str"
  end.

(** [o.get('metadata', {})] *)
Definition obj_get_metadata (o : pyobj) : result pyval :=
  match o with
  | ODict d => Ok (default (VDict ∅) (metadata d))
  | OStr _ => Raise (no_attribute "str")
  end.

(** [o.get('media_type')] *)
Definition obj_get_media_type (o : pyobj) : result scalar :=
  match o with
  | ODict d => Ok (default SNone (media_type d))
  | OStr _ => Raise (no_attribute "str")
  end.

(** [o.get(key, '')] for the string-valued keys ['libraryPath'] and
    ['path']. *)
Definition obj_get_str (o : pyobj) (key : Item → option string) : result string :=
  match o with
  | ODict d => Ok (default "" (key d))
  | OStr _ => Raise (no_attribute "str")
  end.

(** [v.get(key, dflt)] on the value found under ['metadata']. *)
Definition val_get (v : pyval) (key : string) (dflt : scalar) : result scalar :=
  match v with
  | VDict d => Ok (default dflt (d !! key))
  | VScalar a => Raise (no_attribute (scalar_type_name a))
  end.

(** ** Duplicate reconciler *)

Record FieldDiff := mkFieldDiff {
  field : string;
  newValue : scalar;
  existingValue : scalar
}.

Record DiffEntry := mkDiffEntry {
  diff_path : string;                 (* "path" *)
  diff_type : string;                 (* "type" *)
  diff_differences : list FieldDiff   (* "differences" *)
}.

Record DuplicateReport := mkReport {
  duplicatesFound : nat;
  newItems : nat;
  differences : list DiffEntry;
  error : option string               (* "error", only in the fallback report *)
}.

#[global] Instance FieldDiff_eq_dec : EqDecision FieldDiff.
Proof. solve_decision. Defined.
#[global] Instance DiffEntry_eq_dec : EqDecision DiffEntry.
Proof. solve_decision. Defined.
#[global] Instance DuplicateReport_eq_dec : EqDecision DuplicateReport.
Proof. solve_decision. Defined.

(** [f"{library}:{path}"] *)
Definition composite_key (library p : string) : string :=
  library +:+ ":" +:+ p.

(** [_compare_item_data]: the three compared fields, in source order. *)
Definition _compare_item_data (new_item : Item) (existing_item : pyobj)
    : result (list FieldDiff) :=
  let differences := [] in
  let new_metadata := default (VDict ∅) (metadata new_item) in
  existing_metadata ← obj_get_metadata existing_item;
  new_size ← val_get new_metadata "size" (SInt 0);
  existing_size ← val_get existing_metadata "size" (SInt 0);
  let differences :=
    if decide (new_size ≠ existing_size)
    then differences ++ [mkFieldDiff "size" new_size existing_size]
    else differences in
  new_mtime ← val_get new_metadata "modified_time" SNone;
  existing_mtime ← val_get existing_metadata "modified_time" SNone;
  let differences :=
    if decide (new_mtime ≠ existing_mtime)
    then differences ++ [mkFieldDiff "modified_time" new_mtime existing_mtime]
    else differences in
  let new_media_type := default SNone (media_type new_item) in
  existing_media_type ← obj_get_media_type existing_item;
  let differences :=
    if decide (new_media_type ≠ existing_media_type)
    then differences ++ [mkFieldDiff "media_type" new_media_type existing_media_type]
    else differences in
  mret differences.

(** The three accumulators of the reconciliation loop. *)
Record Tally := mkTally {
  new_items : nat;
  duplicates_found : nat;
  tally_differences : list DiffEntry
}.

Inductive Lookup :=
  | Skipped                        (* neither 'file' nor 'directory': [continue] *)
  | Found (existing : option pyobj).

(** The table lookup at the head of the loop body. *)
Definition lookup_existing (library_path : string)
    (existing_file_keys existing_dir_keys : gmap string pyobj) (item : Item)
    : Lookup :=
  let item_path := default "" (path item) in
  let item_type := default "" (item_type item) in
  let item_key := composite_key library_path item_path in
  if decide (item_type = "file") then Found (existing_file_keys !! item_key)
  else if decide (item_type = "directory") then Found (existing_dir_keys !! item_key)
  else Skipped.

(** [if existing_item:] — [None] and falsy objects take the else branch. *)
Definition matched (l : Lookup) : option pyobj :=
  match l with
  | Found (Some o) => if obj_truthy o then Some o else None
  | _ => None
  end.

(** One iteration of [for item in scan_results]; the loop text is the same
    in [_check_duplicates_with_existing] and in [_check_duplicates]. *)
Definition reconcile_item (library_path : string)
    (existing_file_keys existing_dir_keys : gmap string pyobj)
    (t : Tally) (item : Item) : result Tally :=
  let item_path := default "" (path item) in
  let item_type := default "" (item_type item) in
  match lookup_existing library_path existing_file_keys existing_dir_keys item with
  | Skipped => Ok t
  | Found existing_item =>
      match matched (Found existing_item) with
      | Some existing_item =>
          let duplicates_found := S (duplicates_found t) in
          differences_found ← _compare_item_data item existing_item;
          let differences :=
            match differences_found with
            | [] => tally_differences t
            | _ :: _ =>
                tally_differences t ++ [mkDiffEntry item_path item_type differences_found]
            end in
          Ok (mkTally (new_items t) duplicates_found differences)
      | None =>
          Ok (mkTally (S (new_items t)) (duplicates_found t) (tally_differences t))
      end
  end.

Definition reconcile_loop (library_path : string)
    (existing_file_keys existing_dir_keys : gmap string pyobj)
    (scan_results : list Item) : result Tally :=
  for_each (reconcile_item library_path existing_file_keys existing_dir_keys)
    scan_results (mkTally 0 0 []).

Definition report_of (t : Tally) : DuplicateReport :=
  mkReport (duplicates_found t) (new_items t) (tally_differences t) None.

(** The report returned by the [except] clause of both reconcilers. *)
Definition fallback_report (scan_results : list Item) (e : exn) : DuplicateReport :=
  mkReport 0 (length scan_results) [] (Some (exn_str e)).

(** The key-building loops of [_check_duplicates_with_existing]: a later
    item overwrites an earlier one with the same key. *)
Definition index_items (items : list Item) : gmap string pyobj :=
  foldl (λ keys item,
           <[composite_key (default "" (libraryPath item)) (default "" (path item))
             := ODict item]> keys)
        ∅ items.

(** [existing_files or []] *)
Definition or_empty (l : option (list Item)) : list Item := default [] l.

(** [_check_duplicates_with_existing] (offline mode). *)
Definition _check_duplicates_with_existing (scan_results : list Item)
    (user_id library_path : string)
    (existing_files existing_directories : option (list Item)) : DuplicateReport :=
  let existing_file_keys := index_items (or_empty existing_files) in
  let existing_dir_keys := index_items (or_empty existing_directories) in
  match reconcile_loop library_path existing_file_keys existing_dir_keys scan_results with
  | Ok t => report_of t
  | Raise e => fallback_report scan_results e
  end.

(** ** Firestore service (the inventory lookup) *)

(** The service as the scanner sees it: whether the Admin SDK was
    initialised, and the documents of the two collections.  [None] stands
    for a query that raises. *)
Record FirestoreService := mkFirestore {
  _initialized : bool;
  mediaFiles : option (list Item);
  mediaDirectories : option (list Item)
}.

(** [ref.where('userId', '==', user_id)], applied only for a truthy id. *)
Definition where_user (user_id : string) (docs : list Item) : list Item :=
  if str_truthy user_id
  then filter (λ data, userId data = Some user_id) docs
  else docs.

(** The loop that fills [file_paths]: documents with an empty path are
    dropped, a later document overwrites an earlier one with the same path. *)
Definition index_by_path (docs : list Item) : gmap string Item :=
  foldl (λ file_paths data,
           let file_path := default "" (path data) in
           if str_truthy file_path then <[file_path := data]> file_paths
           else file_paths)
        ∅ docs.

Definition existing_paths (initialized : bool) (collection : option (list Item))
    (user_id : string) : gmap string Item :=
  if negb initialized then ∅
  else match collection with
       | Some docs => index_by_path (where_user user_id docs)
       | None => ∅                      (* except Exception: return {} *)
       end.

Definition get_existing_file_paths (fs : FirestoreService) (user_id : string)
    : gmap string Item :=
  existing_paths (_initialized fs) (mediaFiles fs) user_id.

Definition get_existing_directory_paths (fs : FirestoreService) (user_id : string)
    : gmap string Item :=
  existing_paths (_initialized fs) (mediaDirectories fs) user_id.

(** Iterating a dict yields its keys. *)
Definition dict_iter (d : gmap string Item) : list pyobj :=
  OStr <$> (map_to_list d).*1.

(** The key-building loops of [_check_duplicates]: [for file_path in
    existing_files] runs over the keys of the dict that Firestore returned,
    and calls [.get] on each. *)
Definition index_keys (existing : gmap string Item) : result (gmap string pyobj) :=
  for_each (λ keys file_path,
              library ← obj_get_str file_path libraryPath;
              p ← obj_get_str file_path path;
              Ok (<[composite_key library p := file_path]> keys))
           (dict_iter existing) ∅.

(** [_check_duplicates] (online mode).  The class defines the method twice;
    the second definition, which is the one embedded here, replaces the
    first. *)
Definition _check_duplicates (fs : FirestoreService) (scan_results : list Item)
    (user_id library_path : string) : DuplicateReport :=
  let existing_files := get_existing_file_paths fs user_id in
  let existing_dirs := get_existing_directory_paths fs user_id in
  match
    existing_file_keys ← index_keys existing_files;
    existing_dir_keys ← index_keys existing_dirs;
    reconcile_loop library_path existing_file_keys existing_dir_keys scan_results
  with
  | Ok t => report_of t
  | Raise e => fallback_report scan_results e
  end.

(** ** Strings, paths and patterns *)

Definition code (c : ascii) : nat := nat_of_ascii c.

Definition in_range (lo hi : nat) (c : ascii) : bool :=
  (lo <=? code c) && (code c <=? hi).

(** [c.isdigit()], the class [\d], for code points below 256. *)
Definition is_digit (c : ascii) : bool := in_range 48 57 c.

(** [c.isspace()] for code points below 256. *)
Definition is_space (c : ascii) : bool :=
  in_range 9 13 c || in_range 28 32 c || (code c =? 133) || (code c =? 160).

(** [c.lower()] for code points below 256. *)
Definition lower_char (c : ascii) : ascii :=
  if in_range 65 90 c || (in_range 192 222 c && negb (code c =? 215))
  then ascii_of_nat (code c + 32)
  else c.

Fixpoint lower (s : string) : string :=
  match s with
  | EmptyString => EmptyString
  | String c s' => String (lower_char c) (lower s')
  end.

(** [c.upper()] for code points below 256; the upper case of 181 and 255
    lies above 255 and is neither S nor E, so they are left alone. *)
Definition upper_char (c : ascii) : string :=
  if code c =? 223 then "SS"
  else if in_range 97 122 c || (in_range 224 254 c && negb (code c =? 247))
  then String (ascii_of_nat (code c - 32)) EmptyString
  else String c EmptyString.

Fixpoint upper (s : string) : string :=
  match s with
  | EmptyString => EmptyString
  | String c s' => upper_char c +:+ upper s'
  end.

(** [c in s] for a one-character [c]. *)
Fixpoint contains (c : ascii) (s : string) : bool :=
  match s with
  | EmptyString => false
  | String c' s' => bool_decide (c = c') || contains c s'
  end.

(** [s.startswith(p)] *)
Fixpoint startswith (p s : string) : bool :=
  match p, s with
  | EmptyString, _ => true
  | String a p', String b s' => bool_decide (a = b) && startswith p' s'
  | String _ _, EmptyString => false
  end.

(** [s.endswith(p)] *)
Definition endswith (p s : string) : bool :=
  startswith (String.rev p) (String.rev s).

(** [s.count(c)] for a one-character [c]. *)
Fixpoint count_char (c : ascii) (s : string) : nat :=
  match s with
  | EmptyString => 0
  | String c' s' => (if bool_decide (c = c') then 1 else 0) + count_char c s'
  end.

(** [s[:n]] and [s[n:]] for [n >= 0]. *)
Fixpoint take_str (n : nat) (s : string) : string :=
  match n, s with
  | S n', String c s' => String c (take_str n' s')
  | _, _ => EmptyString
  end.

Fixpoint drop_str (n : nat) (s : string) : string :=
  match n, s with
  | S n', String _ s' => drop_str n' s'
  | _, _ => s
  end.

(** [s.rfind(c)]: the last index of [c]; [None] is Python's [-1]. *)
Fixpoint rfind (c : ascii) (s : string) : option nat :=
  match s with
  | EmptyString => None
  | String c' s' =>
      match rfind c s' with
      | Some i => Some (S i)
      | None => if bool_decide (c = c') then Some 0 else None
      end
  end.

(** [s.lstrip()], [s.rstrip()], [s.strip()] *)
Fixpoint lstrip (s : string) : string :=
  match s with
  | String c s' => if is_space c then lstrip s' else s
  | EmptyString => EmptyString
  end.

Definition rstrip (s : string) : string := String.rev (lstrip (String.rev s)).

Definition strip (s : string) : string := rstrip (lstrip s).

(** [os.sep] and [os.extsep] of a POSIX host. *)
Definition os_sep : ascii := "/"%char.
Definition extsep : ascii := "."%char.

(** [os.path.join(a, b)] (posixpath, two arguments). *)
Definition path_join (a b : string) : string :=
  if startswith "/" b then b
  else if bool_decide (a = "") || endswith "/" a then a +:+ b
  else a +:+ "/" +:+ b.

(** [os.path.basename(p)] *)
Definition basename (p : string) : string :=
  match rfind os_sep p with
  | Some i => drop_str (S i) p
  | None => p
  end.

(** The [while] loop of [splitext] finds no character other than a dot. *)
Fixpoint all_dots (s : string) : bool :=
  match s with
  | EmptyString => true
  | String c s' => bool_decide (c = extsep) && all_dots s'
  end.

(** [os.path.splitext(p)]: the extension starts at the last dot after the
    last separator, unless only dots precede it in the file name. *)
Definition splitext (p : string) : string * string :=
  match rfind extsep p with
  | None => (p, "")                    (* dotIndex = -1 *)
  | Some dotIndex =>
      let filenameIndex := match rfind os_sep p with Some i => S i | None => 0 end in
      if (filenameIndex <=? dotIndex)
         && negb (all_dots (take_str (dotIndex - filenameIndex) (drop_str filenameIndex p)))
      then (take_str dotIndex p, drop_str dotIndex p)
      else (p, "")
  end.

(** *** The two patterns of the classifier *)

(** The longest run of digits at the head of [s], and what follows it. *)
Fixpoint span_digits (s : string) : string * string :=
  match s with
  | String c s' =>
      if is_digit c
      then let '(ds, rest) := span_digits s' in (String c ds, rest)
      else (EmptyString, s)
  | EmptyString => (EmptyString, EmptyString)
  end.

(** [\((\d{4})\)] anchored at the head of [s]; the result is group 1. *)
Definition match_year (s : string) : option string :=
  match s with
  | String "(" (String a (String b (String c (String d (String ")" _))))) =>
      if is_digit a && is_digit b && is_digit c && is_digit d
      then Some (String a (String b (String c (String d EmptyString))))
      else None
  | _ => None
  end.

(** [S(\d+)E(\d+)] under [re.IGNORECASE], anchored at the head of [s]; the
    result is groups 1 and 2.  A greedy [\d+] followed by a letter can only
    stop at the end of the run of digits. *)
Definition match_episode (s : string) : option (string * string) :=
  match s with
  | String c s1 =>
      if bool_decide (c = "S"%char) || bool_decide (c = "s"%char)
      then
        match span_digits s1 with
        | (String d ds, String e s2) =>
            if bool_decide (e = "E"%char) || bool_decide (e = "e"%char)
            then
              match span_digits s2 with
              | (String d' ds', _) => Some (String d ds, String d' ds')
              | (EmptyString, _) => None
              end
            else None
        | _ => None
        end
      else None
  | EmptyString => None
  end.

(** [re.search]: the leftmost position at which the anchored matcher
    succeeds, with its groups. *)
Fixpoint re_search {G : Type} (m : string → option G) (s : string) (start : nat)
    : option (nat * G) :=
  match m s with
  | Some g => Some (start, g)
  | None =>
      match s with
      | String _ s' => re_search m s' (S start)
      | EmptyString => None
      end
  end.

(** [int(s)] of a string of decimal digits. *)
Definition int_of_digits (s : string) : nat :=
  let fix go (acc : nat) (s : string) : nat :=
    match s with
    | String c s' => go (10 * acc + (code c - 48)) s'
    | EmptyString => acc
    end in
  go 0 s.

(** ** Path classifier *)

Record Settings := mkSettings {
  max_scan_depth : nat;
  supported_video_extensions : list string;
  supported_audio_extensions : list string;
  supported_subtitle_extensions : list string;
  max_concurrent_scans : nat
}.

(** The defaults of [config/settings.py]. *)
Definition default_settings : Settings := {|
  max_scan_depth := 10;
  supported_video_extensions :=
    [".mp4"; ".mkv"; ".avi"; ".mov"; ".wmv"; ".m4v"; ".flv"; ".webm"];
  supported_audio_extensions := [".mp3"; ".flac"; ".wav"; ".aac"; ".ogg"];
  supported_subtitle_extensions := [".srt"; ".vtt"; ".ass"; ".ssa"; ".sub"; ".idx"];
  max_concurrent_scans := 2
|}.

Definition _is_media_file (settings : Settings) (filename : string) : bool :=
  let extension := lower (splitext filename).2 in
  bool_decide (extension ∈ supported_video_extensions settings
                           ++ supported_audio_extensions settings
                           ++ supported_subtitle_extensions settings).

Definition _is_video_file (settings : Settings) (filename : string) : bool :=
  let extension := lower (splitext filename).2 in
  bool_decide (extension ∈ supported_video_extensions settings).

Definition _determine_file_media_type (file_path : string) : string :=
  let filename := basename file_path in
  if contains "S" (upper filename) && contains "E" (upper filename)
     && bool_decide (is_Some (re_search match_episode filename 0))
  then "episode"
  else if contains "(" filename && contains ")" filename
          && bool_decide (is_Some (re_search match_year filename 0))
  then "movie"
  else "unknown".

(** [_determine_directory_type]; [listing] is the list of the regular files
    of the directory. *)
Definition _determine_directory_type (settings : Settings) (dir_name : string)
    (listing : list string) : string :=
  if startswith "season" (lower dir_name) then "season"
  else if contains "(" dir_name && contains ")" dir_name then
    if existsb (_is_video_file settings) listing then "movie" else "series"
  else "unknown".

Record ParsedInfo := mkParsed {
  title : string;
  year : option nat;
  season : option nat;
  episode : option nat
}.

(** [_parse_filename] *)
Definition _parse_filename (filename : string) : ParsedInfo :=
  let name_without_ext := (splitext filename).1 in
  let year_match := re_search match_year name_without_ext 0 in
  let episode_match := re_search match_episode name_without_ext 0 in
  let title :=
    match year_match, episode_match with
    | Some (start, _), _ => strip (take_str start name_without_ext)
    | None, Some (start, _) => strip (take_str start name_without_ext)
    | None, None => name_without_ext
    end in
  {| title := title;
     year := (λ m, int_of_digits m.2) <$> year_match;
     season := (λ m, int_of_digits m.2.1) <$> episode_match;
     episode := (λ m, int_of_digits m.2.2) <$> episode_match |}.

(** ** The file system seen by a scan *)

(** What [os.stat] reports for an entry. *)
Record Stat := mkStat {
  st_size : Z;
  st_ctime : Z;
  st_mtime : Z;
  st_atime : Z;
  filemode : string
}.

(** A directory: its regular files and its sub-directories, in the order in
    which the operating system lists them.  Every entry carries what
    [os.stat] reports for it, [None] when the entry cannot be examined (it
    vanished, or access is denied).  Symbolic links and unreadable
    directories are not modelled. *)
#[warnings="-register-all"]
Inductive tree :=
  | Node (files : list (string * option Stat))
         (subdirs : list (string * option Stat * tree)).

Definition tree_files (t : tree) : list (string * option Stat) :=
  match t with Node files _ => files end.

Definition tree_subdirs (t : tree) : list (string * option Stat * tree) :=
  match t with Node _ subdirs => subdirs end.

(** What the loop body can learn about a sub-directory from its path:
    [os.stat] of it and the regular files that [os.listdir] shows. *)
Record DirInfo := mkDirInfo {
  dir_name : string;
  dir_stat : option Stat;
  dir_listing : list string
}.

Definition dir_info (d : string * option Stat * tree) : DirInfo :=
  mkDirInfo d.1.1 d.1.2 (tree_files d.2).*1.

(** [FileSystemManager.get_file_metadata(file_path, calculate_checksum=False)];
    the keys ['size_mb'], ['is_directory'] and ['is_file'] hold a float and
    two booleans and are left out. *)
Definition get_file_metadata (file_path : string) (st : option Stat)
    : result (gmap string scalar) :=
  match st with
  | None =>
      Raise (FileOperationError
               ("Metadata extraction failed: File does not exist: " +:+ file_path))
  | Some st =>
      Ok (<["path" := SStr file_path]>
          (<["name" := SStr (basename file_path)]>
          (<["extension" := SStr (splitext file_path).2]>
          (<["size" := SInt (st_size st)]>
          (<["created" := SInt (st_ctime st)]>
          (<["modified" := SInt (st_mtime st)]>
          (<["accessed" := SInt (st_atime st)]>
          (<["permissions" := SStr (filemode st)]> ∅))))))))
  end.

(** [os.walk(top)], top-down, as a loop: [body root dirs files w] is one
    iteration of the [for] statement; it returns the state, the list [dirs]
    as the body left it (the walk only descends into the names still in it)
    and whether the body executed [break]. *)
Section OsWalk.
Context {W : Type}.
Variable body : string → list DirInfo → list (string * option Stat) → W
                → W * list string * bool.

Fixpoint os_walk (top : string) (t : tree) (w : W) : W * bool :=
  match t with
  | Node files subdirs =>
      let '(w, dirs, stop) := body top (dir_info <$> subdirs) files w in
      if (stop : bool) then (w, true)
      else
        (fix descend (dirs : list string) (w : W) : W * bool :=
           match dirs with
           | [] => (w, false)
           | d :: dirs' =>
               let walk_child :=
                 (fix find (l : list (string * option Stat * tree))
                    : option (W → W * bool) :=
                    match l with
                    | [] => None
                    | (name, _, child) :: l' =>
                        if decide (name = d)
                        then Some (os_walk (path_join top d) child)
                        else find l'
                    end) subdirs in
               match walk_child with
               | Some walk =>
                   let '(w, stop) := walk w in
                   if (stop : bool) then (w, true) else descend dirs' w
               | None => descend dirs' w
               end
           end) dirs w
  end.
End OsWalk.

(** ** Progress record *)

Inductive Status := Scanning | Completed | Failed | Cancelled.

#[global] Instance Status_eq_dec : EqDecision Status.
Proof. solve_decision. Defined.

(** The string stored in the [status] field. *)
Definition status_str (s : Status) : string :=
  match s with
  | Scanning => "scanning"
  | Completed => "completed"
  | Failed => "error"
  | Cancelled => "cancelled"
  end.

Record ScanError := mkError {
  error_type : string;            (* 'type' *)
  message : string;
  error_path : option string;     (* 'path' *)
  timestamp : Z
}.

Record ScanProgress := mkProgress {
  scan_id : string;
  total_items : nat;
  processed_items : nat;
  current_path : string;
  status : Status;
  errors : list ScanError;
  start_time : Z;
  end_time : option Z;
  files_found : nat;
  directories_found : nat;
  scan_results : list Item;
  duplicate_report : option DuplicateReport
}.

#[global] Instance ScanError_eq_dec : EqDecision ScanError.
Proof. solve_decision. Defined.
#[global] Instance ScanProgress_eq_dec : EqDecision ScanProgress.
Proof. solve_decision. Defined.

(** Field assignments. *)
Definition set_total_items (n : nat) (p : ScanProgress) : ScanProgress :=
  mkProgress (scan_id p) n (processed_items p) (current_path p) (status p)
    (errors p) (start_time p) (end_time p) (files_found p) (directories_found p)
    (scan_results p) (duplicate_report p).

Definition set_processed_items (n : nat) (p : ScanProgress) : ScanProgress :=
  mkProgress (scan_id p) (total_items p) n (current_path p) (status p)
    (errors p) (start_time p) (end_time p) (files_found p) (directories_found p)
    (scan_results p) (duplicate_report p).

Definition set_current_path (s : string) (p : ScanProgress) : ScanProgress :=
  mkProgress (scan_id p) (total_items p) (processed_items p) s (status p)
    (errors p) (start_time p) (end_time p) (files_found p) (directories_found p)
    (scan_results p) (duplicate_report p).

Definition set_status (s : Status) (p : ScanProgress) : ScanProgress :=
  mkProgress (scan_id p) (total_items p) (processed_items p) (current_path p) s
    (errors p) (start_time p) (end_time p) (files_found p) (directories_found p)
    (scan_results p) (duplicate_report p).

Definition set_errors (l : list ScanError) (p : ScanProgress) : ScanProgress :=
  mkProgress (scan_id p) (total_items p) (processed_items p) (current_path p)
    (status p) l (start_time p) (end_time p) (files_found p) (directories_found p)
    (scan_results p) (duplicate_report p).

Definition set_end_time (t : option Z) (p : ScanProgress) : ScanProgress :=
  mkProgress (scan_id p) (total_items p) (processed_items p) (current_path p)
    (status p) (errors p) (start_time p) t (files_found p) (directories_found p)
    (scan_results p) (duplicate_report p).

Definition set_found (nfiles ndirs : nat) (p : ScanProgress) : ScanProgress :=
  mkProgress (scan_id p) (total_items p) (processed_items p) (current_path p)
    (status p) (errors p) (start_time p) (end_time p) nfiles ndirs
    (scan_results p) (duplicate_report p).

Definition set_scan_results (l : list Item) (p : ScanProgress) : ScanProgress :=
  mkProgress (scan_id p) (total_items p) (processed_items p) (current_path p)
    (status p) (errors p) (start_time p) (end_time p) (files_found p)
    (directories_found p) l (duplicate_report p).

Definition set_duplicate_report (r : option DuplicateReport) (p : ScanProgress)
    : ScanProgress :=
  mkProgress (scan_id p) (total_items p) (processed_items p) (current_path p)
    (status p) (errors p) (start_time p) (end_time p) (files_found p)
    (directories_found p) (scan_results p) r.

(** The object that [start_scan] creates; [__post_init__] replaces the two
    [None] lists by empty lists. *)
Definition new_progress (scan_id library_path : string) (now : Z) : ScanProgress :=
  mkProgress scan_id 0 0 library_path Scanning [] now None 0 0 [] None.

(** [terminal]: a status from which a scan cannot resume. *)
Definition terminal (s : Status) : bool :=
  match s with
  | Scanning => false
  | Completed | Failed | Cancelled => true
  end.

(** ** Scan engine *)

(** [_add_scan_error] *)
Definition _add_scan_error (error_type message path : string) (now : Z)
    (progress : ScanProgress) : ScanProgress :=
  set_errors (errors progress ++ [mkError error_type message (Some path) now]) progress.

(** The filter applied to [dirs] at the head of both loop bodies. *)
Definition keep_dir (d : string) : bool :=
  negb (startswith "." d) && negb (bool_decide (d ∈ ["@eaDir"])).

(** [root[len(path):].count(os.sep)] *)
Definition depth_of (path root : string) : nat :=
  count_char os_sep (drop_str (String.length path) root).

(** [if depth >= settings.max_scan_depth: dirs.clear()] *)
Definition prune (settings : Settings) (path root : string) (dirs : list string)
    : list string :=
  if max_scan_depth settings <=? depth_of path root then [] else dirs.

(** The loop body of [_count_items_sync]. *)
Definition count_body (settings : Settings) (path : string)
    (root : string) (dirs : list DirInfo) (files : list (string * option Stat))
    (total : nat) : nat * list string * bool :=
  let dirs := filter (λ d, keep_dir d) (dir_name <$> dirs) in
  let total := total + length dirs in
  let total := total + length (filter (λ f, _is_media_file settings f) files.*1) in
  (total, prune settings path root dirs, false).

(** [_count_items_sync]; nothing in the model of [os.walk] raises, so the
    [except] clause, which returns the count reached so far, is not
    entered. *)
Definition _count_items_sync (settings : Settings) (path : string) (fs : tree) : nat :=
  (os_walk (count_body settings path) path fs 0).1.

(** [_process_directory]: any exception inside is caught and turned into
    [None]. *)
Definition _process_directory (settings : Settings) (dir_path : string)
    (st : option Stat) (listing : list string) : option Item :=
  match get_file_metadata dir_path st with
  | Ok dir_metadata =>
      let dir_name := basename dir_path in
      let media_type := _determine_directory_type settings dir_name listing in
      Some {| item_type := Some "directory";
              path := Some dir_path;
              libraryPath := None;
              userId := None;
              media_type := Some (SStr media_type);
              metadata := Some (VDict dir_metadata);
              other_keys := 1 (* 'name' *) |}
  | Raise _ => None
  end.

(** [_process_file]: the technical metadata and the parsed file name go
    under the keys ['media_metadata'] and ['parsed_info'], which the
    reconciler never reads; with ['name'] and ['extension'] they are the four
    other keys. *)
Definition _process_file (file_path : string) (st : option Stat)
    (extract_metadata : bool) : option Item :=
  match get_file_metadata file_path st with
  | Ok file_metadata =>
      Some {| item_type := Some "file";
              path := Some file_path;
              libraryPath := None;
              userId := None;
              media_type := Some (SStr (_determine_file_media_type file_path));
              metadata := Some (VDict file_metadata);
              other_keys := 4 |}
  | Raise _ => None
  end.

(** The effect of [stop_scan] on the progress object of the scan. *)
Definition cancel (now : Z) (progress : ScanProgress) : ScanProgress * bool :=
  if decide (status progress = Scanning)
  then (set_end_time (Some now) (set_status Cancelled progress), true)
  else (progress, false).

(** [stop_scan] on the registry of scans. *)
Definition stop_scan (running_scans : gmap string ScanProgress) (scan_id : string)
    (now : Z) : gmap string ScanProgress * bool :=
  match running_scans !! scan_id with
  | None => (running_scans, false)
  | Some progress =>
      let '(progress, stopped) := cancel now progress in
      (<[scan_id := progress]> running_scans, stopped)
  end.

(** The caller of the API runs in another thread.  A [StopRequest] is a
    [stop_scan] of that thread which lands between two entries of the
    processing pass: [Some (n, t)] says that it takes effect at time [t],
    after the entry that brought [processed_items] to [n] was handed to the
    progress callback (or before the first entry, when the pass starts with
    [n]) and before the walk reads the status again; [None] says that the
    thread never calls [stop_scan] during the walk.  A [stop_scan] issued
    from the progress callback is of this kind.  A [stop_scan] that lands
    while an entry is in flight, after the walk has read the status for
    that entry and before [_notify_progress], is not a [StopRequest]: the
    walk finishes that entry, counts it, and hands the callback a snapshot
    whose status is already 'cancelled'. *)
Definition StopRequest : Type := option (nat * Z).

(** The [stop_scan] that lands between two entries when the counter
    reads [n]. *)
Definition between_entries (n : nat) (now : Z) : StopRequest := Some (n, now).

(** The state of the processing pass: the shared progress object, the local
    list [results], and the snapshots of the progress object handed to
    [_notify_progress], oldest first. *)
Record Walk := mkWalk {
  progress : ScanProgress;
  results : list Item;
  notified : list ScanProgress
}.

(** [if progress.status == "cancelled"]: the walk reads the status.  A
    [stop_scan] that landed since the entry before is seen here, so it is
    applied here, when the counter has the value that the request names. *)
Definition poll (stop : StopRequest) (w : Walk) : Walk * bool :=
  let progress :=
    match stop with
    | Some (n, now) =>
        if decide (processed_items (progress w) = n)
        then (cancel now (progress w)).1
        else progress w
    | None => progress w
    end in
  (mkWalk progress (results w) (notified w),
   bool_decide (status progress = Cancelled)).

(** [results.append(info)] under [if info:] *)
Definition append_result (info : option Item) (w : Walk) : Walk :=
  match info with
  | Some info =>
      if dict_truthy info
      then mkWalk (progress w) (results w ++ [info]) (notified w)
      else w
  | None => w
  end.

(** [progress.processed_items += 1; self._notify_progress(scan_id, progress)] *)
Definition count_processed (w : Walk) : Walk :=
  let progress := set_processed_items (S (processed_items (progress w))) (progress w) in
  mkWalk progress (results w) (notified w ++ [progress]).

(** [for dir_name in dirs: ...]; [_process_directory] catches its own
    exceptions, so the [except] clause of the loop is not entered. *)
Fixpoint process_dirs (settings : Settings) (stop : StopRequest) (root : string)
    (dirs : list DirInfo) (w : Walk) : Walk :=
  match dirs with
  | [] => w
  | d :: dirs' =>
      let '(w, cancelled) := poll stop w in
      if cancelled then w
      else
        let dir_path := path_join root (dir_name d) in
        let dir_info := _process_directory settings dir_path (dir_stat d) (dir_listing d) in
        let w := append_result dir_info w in
        let w := count_processed w in
        process_dirs settings stop root dirs' w
  end.

(** [for file_name in files: ...] *)
Fixpoint process_files (settings : Settings) (stop : StopRequest)
    (extract_metadata : bool) (root : string)
    (files : list (string * option Stat)) (w : Walk) : Walk :=
  match files with
  | [] => w
  | (file_name, st) :: files' =>
      let '(w, cancelled) := poll stop w in
      if cancelled then w
      else if negb (_is_media_file settings file_name)
      then process_files settings stop extract_metadata root files' w
      else
        let file_path := path_join root file_name in
        let file_info := _process_file file_path st extract_metadata in
        let w := append_result file_info w in
        let w := count_processed w in
        process_files settings stop extract_metadata root files' w
  end.

(** The loop body of [_scan_directory_sync]. *)
Definition scan_body (settings : Settings) (stop : StopRequest)
    (extract_metadata : bool) (directory_path : string)
    (root : string) (dirs : list DirInfo) (files : list (string * option Stat))
    (w : Walk) : Walk * list string * bool :=
  let '(w, cancelled) := poll stop w in
  if cancelled then (w, dir_name <$> dirs, true)
  else
    let dirs := filter (λ d, keep_dir (dir_name d)) dirs in
    let w := mkWalk (set_current_path root (progress w)) (results w) (notified w) in
    let w := process_dirs settings stop root dirs w in
    let w := process_files settings stop extract_metadata root files w in
    (w, prune settings directory_path root (dir_name <$> dirs), false).

(** [_scan_directory_sync]: returns the progress object as the walk left it,
    the list [results] and the snapshots notified on the way. *)
Definition _scan_directory_sync (settings : Settings) (stop : StopRequest)
    (directory_path : string) (fs : tree) (extract_metadata : bool)
    (progress : ScanProgress) : Walk :=
  (os_walk (scan_body settings stop extract_metadata directory_path)
           directory_path fs (mkWalk progress [] [])).1.

(** What lies outside the scanner during one scan: the configuration, the
    Firestore service, the directory tree as the counting pass and as the
    processing pass find it, the other thread's [stop_scan], and the value
    of [time.time()] when the task finishes. *)
Record World := mkWorld {
  settings : Settings;
  firestore : FirestoreService;
  fs_count : tree;
  fs_scan : tree;
  stop : StopRequest;
  finish_time : Z
}.

(** [len([r for r in results if r.get('type') == ty])] *)
Definition count_type (ty : string) (results : list Item) : nat :=
  length (filter (λ r, item_type r = Some ty) results).

(** The set [duplicate_paths] of [_run_scan_async]: the paths of the
    differences entries, then the paths of the scan results that Firestore
    knows under the same kind. *)
Definition duplicate_paths_of (fs : FirestoreService) (user_id : string)
    (duplicate_report : DuplicateReport) (scan_results : list Item) : gset string :=
  let duplicate_paths :=
    foldl (λ (paths : gset string) diff_item, paths ∪ {[diff_path diff_item]})
          ∅ (differences duplicate_report) in
  let existing_files := get_existing_file_paths fs user_id in
  let existing_dirs := get_existing_directory_paths fs user_id in
  foldl (λ (paths : gset string) result,
           let result_path := default "" (path result) in
           if bool_decide (item_type result = Some "file")
              && bool_decide (is_Some (existing_files !! result_path))
           then paths ∪ {[result_path]}
           else if bool_decide (item_type result = Some "directory")
                   && bool_decide (is_Some (existing_dirs !! result_path))
           then paths ∪ {[result_path]}
           else paths)
        duplicate_paths scan_results.

(** The [try] statement around duplicate checking.  [duplicate_report] is
    the outcome of the call to the reconciler: the report, or the exception
    that it let escape. *)
Definition duplicate_stage (fs : FirestoreService) (user_id : string)
    (scan_results : list Item) (duplicate_report : result DuplicateReport)
    (now : Z) (progress : ScanProgress) : ScanProgress :=
  match duplicate_report with
  | Ok duplicate_report =>
      let progress := set_duplicate_report (Some duplicate_report) progress in
      if 0 <? duplicatesFound duplicate_report then
        let duplicate_paths := duplicate_paths_of fs user_id duplicate_report scan_results in
        let kept :=
          filter (λ result, default "" (path result) ∉ duplicate_paths) scan_results in
        let progress := set_scan_results kept progress in
        set_found (count_type "file" kept) (count_type "directory" kept) progress
      else progress
  | Raise e =>
      set_errors (errors progress
                  ++ [mkError "duplicate_check_error" (exn_str e) None now])
                 progress
  end.

(** The call to the reconciler chosen by [_run_scan_async]: offline when
    either list was supplied, online otherwise.  Both reconcilers catch
    every exception themselves. *)
Definition reconcile (fs : FirestoreService) (scan_results : list Item)
    (user_id library_path : string)
    (existing_files existing_directories : option (list Item))
    : result DuplicateReport :=
  if bool_decide (is_Some existing_files) || bool_decide (is_Some existing_directories)
  then Ok (_check_duplicates_with_existing scan_results user_id library_path
             existing_files existing_directories)
  else Ok (_check_duplicates fs scan_results user_id library_path).

(** [check_duplicates and user_id] *)
Definition wants_duplicate_check (check_duplicates : bool) (user_id : option string)
    : option string :=
  match user_id with
  | Some uid => if check_duplicates && str_truthy uid then Some uid else None
  | None => None
  end.

(** The first half of [_run_scan_async]: the counting pass and the
    processing pass. *)
Definition scan_passes (w : World) (library_path : string) (extract_metadata : bool)
    (progress : ScanProgress) : Walk :=
  let total_items := _count_items_sync (settings w) library_path (fs_count w) in
  let progress := set_total_items total_items progress in
  _scan_directory_sync (settings w) (stop w) library_path (fs_scan w)
    extract_metadata progress.

(** The second half of [_run_scan_async]: what follows the return of
    [_scan_directory_async]. *)
Definition finish_scan (w : World) (library_path : string) (check_duplicates : bool)
    (user_id : option string)
    (existing_files existing_directories : option (list Item))
    (walk : Walk) : ScanProgress :=
  let scan_results := results walk in
  let progress := set_scan_results scan_results (progress walk) in
  let progress :=
    set_found (count_type "file" scan_results) (count_type "directory" scan_results)
              progress in
  let progress :=
    match wants_duplicate_check check_duplicates user_id with
    | Some user_id =>
        duplicate_stage (firestore w) user_id scan_results
          (reconcile (firestore w) scan_results user_id library_path
             existing_files existing_directories)
          (finish_time w) progress
    | None => progress
    end in
  let progress := set_status Completed progress in
  set_end_time (Some (finish_time w)) progress.

(** [_run_scan_async].  Neither pass lets an exception escape, so the outer
    [except] clause, which sets the status to ["error"], is not entered. *)
Definition _run_scan_async (w : World) (library_path : string)
    (extract_metadata check_duplicates : bool) (user_id : option string)
    (existing_files existing_directories : option (list Item))
    (progress : ScanProgress) : ScanProgress :=
  finish_scan w library_path check_duplicates user_id existing_files
    existing_directories
    (scan_passes w library_path extract_metadata progress).

(** The states of the progress object that a poller or the callback can
    see during [_run_scan_async], oldest first: the new object, the object
    once [total_items] is set, every snapshot notified by the processing
    pass, the object when the pass returns, and the final object. *)
Definition observable_states (w : World) (library_path : string)
    (extract_metadata check_duplicates : bool) (user_id : option string)
    (existing_files existing_directories : option (list Item))
    (p0 : ScanProgress) : list ScanProgress :=
  let walk := scan_passes w library_path extract_metadata p0 in
  [p0;
   set_total_items (_count_items_sync (settings w) library_path (fs_count w)) p0]
  ++ notified walk
  ++ [progress walk;
      finish_scan w library_path check_duplicates user_id existing_files
        existing_directories walk].

(** [start_scan]: [validate_path_security] always answers [True]; the
    identifier drawn by [uuid4] and the clock are arguments. *)
Definition start_scan (settings : Settings)
    (running_scans : gmap string ScanProgress) (scan_id library_path : string)
    (now : Z) : result (gmap string ScanProgress) :=
  let active_scans :=
    filter (λ s, status s = Scanning) (map_to_list running_scans).*2 in
  if max_concurrent_scans settings <=? length active_scans
  then Raise (ScanOperationError "Maximum concurrent scans reached")
  else Ok (<[scan_id := new_progress scan_id library_path now]> running_scans).

(** ** The percentage of a progress record *)

(** [round_half_even n d] is the integer nearest to [n / d] for a positive
    [d], ties going to the even one. *)
Definition round_half_even (n d : Z) : Z :=
  let q := (n / d)%Z in
  let r := (n mod d)%Z in
  if (2 * r <? d)%Z then q
  else if (d <? 2 * r)%Z then (q + 1)%Z
  else if Z.even q then q else (q + 1)%Z.

(** A Python [float] is an IEEE 754 binary64 number: a [spec_float] of
    precision 53 whose exponents stay below 1024. *)
Definition binary64_prec : Z := 53.
Definition binary64_emax : Z := 1024.

(** The [float] nearest to the rational [n / d], ties to even, with the
    sign [sx], for [0 ≤ n] and [0 < d].  This is the true division [n / d]
    of two Python integers, which is correctly rounded, and also the value
    of a decimal literal: 14.37 is [float_of_ratio false 1437 100].  The
    quotient is taken with at least 64 bits, more than a [float] holds, and
    the remainder tells [binary_round_aux] on which side of the half-way
    point the discarded part lies. *)
Definition float_of_ratio (sx : bool) (n d : Z) : spec_float :=
  if (n =? 0)%Z then S754_zero sx
  else
    let k := Z.max 0 (64 + Z.log2 d - Z.log2 n) in
    let q := (n * 2 ^ k / d)%Z in
    let r := ((n * 2 ^ k) mod d)%Z in
    binary_round_aux binary64_prec binary64_emax sx q (- k)
      (if (r =? 0)%Z then loc_Exact else loc_Inexact (2 * r ?= d)%Z).

(** [round(x, ndigits)] on a [float], for [0 ≤ ndigits]: the exact value of
    [x] is rounded to [ndigits] decimals, ties to even, and the decimal
    number obtained is read back as the nearest [float].  Zeros, infinities
    and NaN are returned as they are. *)
Definition round_float (x : spec_float) (ndigits : nat) : spec_float :=
  match x with
  | S754_finite sx m e =>
      let scale := (10 ^ Z.of_nat ndigits)%Z in
      let scaled :=
        if (0 <=? e)%Z then (Z.pos m * 2 ^ e * scale)%Z
        else round_half_even (Z.pos m * scale) (2 ^ (- e)) in
      float_of_ratio sx scaled scale
  | _ => x
  end.

(** [ScanProgress.percentage]:
    [if self.total_items == 0: return 0] and then
    [return round((self.processed_items / self.total_items) * 100, 2)]: a
    true division of two integers, a [float] product with 100, and [round]
    to two decimals.  The integer 0 of the first branch is the zero of
    [float].  Counters too large for a [float] (above 2^1024), at which
    Python's division raises OverflowError, are not modelled. *)
Definition percentage (progress : ScanProgress) : spec_float :=
  if total_items progress =? 0 then S754_zero false
  else
    round_float
      (SFmul binary64_prec binary64_emax
         (float_of_ratio false (Z.of_nat (processed_items progress))
                               (Z.of_nat (total_items progress)))
         (float_of_ratio false 100 1))
      2.

(** ** Vocabulary of the specification *)

(** The classification of a discovered item by the reconciliation loop. *)
Definition is_duplicate (library_path : string)
    (existing_file_keys existing_dir_keys : gmap string pyobj) (item : Item) : bool :=
  bool_decide (is_Some (matched (lookup_existing library_path existing_file_keys
                                   existing_dir_keys item))).

Definition is_new (library_path : string)
    (existing_file_keys existing_dir_keys : gmap string pyobj) (item : Item) : bool :=
  match lookup_existing library_path existing_file_keys existing_dir_keys item with
  | Skipped => false
  | Found existing => negb (bool_decide (is_Some (matched (Found existing))))
  end.

(** The composite key stored with an existing item. *)
Definition stored_key (e : Item) : string :=
  composite_key (default "" (libraryPath e)) (default "" (path e)).

(** Some existing item of the kind of [item] has the composite key that the
    current scan gives to [item]. *)
Definition key_matches (library_path : string)
    (existing_files existing_directories : list Item) (item : Item) : Prop :=
  ∃ e, ((item_type item = Some "file" ∧ e ∈ existing_files)
        ∨ (item_type item = Some "directory" ∧ e ∈ existing_directories))
       ∧ stored_key e = composite_key library_path (default "" (path item)).

(** The value under ['metadata'] is absent or a dict, as the data model
    has it. *)
Definition metadata_dict (i : Item) : option (gmap string scalar) :=
  match metadata i with
  | None => Some ∅
  | Some (VDict d) => Some d
  | Some (VScalar _) => None
  end.

Definition well_formed (i : Item) : Prop := is_Some (metadata_dict i).

(** The three values of a record that [_compare_item_data] reads:
    [metadata.get('size', 0)], [metadata.get('modified_time')] and
    [get('media_type')]. *)
Definition size_of (i : Item) : scalar :=
  default (SInt 0) (default ∅ (metadata_dict i) !! "size").

Definition modified_time_of (i : Item) : scalar :=
  default SNone (default ∅ (metadata_dict i) !! "modified_time").

Definition media_type_of (i : Item) : scalar := default SNone (media_type i).

(** The modification time of a record: [get_file_metadata] stores
    [st_mtime] under ['modified'], and that is the key under which the
    operations of [backend/api/media_operations.py] read it.  It is not the
    key that [modified_time_of] reads. *)
Definition modified_of (i : Item) : scalar :=
  default SNone (default ∅ (metadata_dict i) !! "modified").

(** The list that [_compare_item_data] returns on records whose metadata
    is a dict: one entry per value read that differs, in the order 'size',
    'modified_time', 'media_type'. *)
Definition field_diffs (new_item existing : Item) : list FieldDiff :=
  (if decide (size_of new_item = size_of existing) then []
   else [mkFieldDiff "size" (size_of new_item) (size_of existing)])
  ++ (if decide (modified_time_of new_item = modified_time_of existing) then []
      else [mkFieldDiff "modified_time" (modified_time_of new_item)
              (modified_time_of existing)])
  ++ (if decide (media_type_of new_item = media_type_of existing) then []
      else [mkFieldDiff "media_type" (media_type_of new_item)
              (media_type_of existing)]).

(** A year marker [\(\d{4}\)] starts at index [i] of [s]. *)
Definition year_marker_at (s : string) (i : nat) : Prop :=
  ∃ a b c d rest,
    drop_str i s = String "(" (String a (String b (String c (String d (String ")" rest)))))
    ∧ is_digit a = true ∧ is_digit b = true ∧ is_digit c = true ∧ is_digit d = true.

Fixpoint all_digits (s : string) : bool :=
  match s with
  | EmptyString => true
  | String c s' => is_digit c && all_digits s'
  end.

(** An episode marker [S\d+E\d+], in either letter case, starts at index
    [i] of [s]. *)
Definition episode_marker_at (s : string) (i : nat) : Prop :=
  ∃ c ds1 e ds2 rest,
    drop_str i s = String c (ds1 +:+ String e (ds2 +:+ rest))
    ∧ (c = "S"%char ∨ c = "s"%char) ∧ (e = "E"%char ∨ e = "e"%char)
    ∧ ds1 ≠ "" ∧ all_digits ds1 = true ∧ ds2 ≠ "" ∧ all_digits ds2 = true.

(** [i] is the first index with the property. *)
Definition first_at (P : nat → Prop) (i : nat) : Prop :=
  P i ∧ ∀ j, j < i → ¬ P j.

(** The title as the specification words it: the stripped prefix before
    the first marker of either kind. *)
Definition marker_at (s : string) (i : nat) : Prop :=
  year_marker_at s i ∨ episode_marker_at s i.

(** The differences entry that a duplicate with the field diff [ds]
    contributes: none when the diff is empty. *)
Definition entry_of (item : Item) (ds : list FieldDiff) : list DiffEntry :=
  match ds with
  | [] => []
  | _ :: _ => [mkDiffEntry (default "" (path item)) (default "" (item_type item)) ds]
  end.

(** The differences entry of one discovered item, as specified. *)
Definition expected_entry (library_path : string)
    (existing_file_keys existing_dir_keys : gmap string pyobj) (item : Item)
    : list DiffEntry :=
  match matched (lookup_existing library_path existing_file_keys existing_dir_keys item) with
  | Some (ODict e) => entry_of item (field_diffs item e)
  | _ => []
  end.

(** The report as specified: the duplicates counted, the new items counted,
    one differences entry per duplicate whose diff is not empty. *)
Definition expected_report (library_path : string)
    (existing_file_keys existing_dir_keys : gmap string pyobj)
    (scan_results : list Item) : DuplicateReport :=
  mkReport
    (length (filter (λ item, is_duplicate library_path existing_file_keys
                               existing_dir_keys item = true) scan_results))
    (length (filter (λ item, is_new library_path existing_file_keys
                               existing_dir_keys item = true) scan_results))
    (scan_results ≫= expected_entry library_path existing_file_keys existing_dir_keys)
    None.

(** Tables whose values are well-formed dicts. *)
Definition table_well_formed (keys : gmap string pyobj) : Prop :=
  ∀ k o, keys !! k = Some o → ∃ e, o = ODict e ∧ well_formed e.

(** The records of the scenarios of the specification, built by hand as
    [test_duplicate_prevention.py] builds them: a discovered file and a
    stored file with the given size, media category, and modification time
    under ['modified_time'].  The records that a scan builds are those of
    [_process_file] and [_process_directory]. *)
Definition found_file (p : string) (size mtime : Z) (category : string) : Item :=
  {| item_type := Some "file"; path := Some p; libraryPath := None; userId := None;
     media_type := Some (SStr category);
     metadata := Some (VDict {[ "size" := SInt size; "modified_time" := SInt mtime ]});
     other_keys := 0 |}.

Definition stored_file (library p : string) (size mtime : Z) (category : string) : Item :=
  {| item_type := None; path := Some p; libraryPath := Some library; userId := None;
     media_type := Some (SStr category);
     metadata := Some (VDict {[ "size" := SInt size; "modified_time" := SInt mtime ]});
     other_keys := 0 |}.

(** The same record as a Firestore document of the given user. *)
Definition owned_by (user_id : string) (i : Item) : Item :=
  {| item_type := item_type i; path := path i; libraryPath := libraryPath i;
     userId := Some user_id; media_type := media_type i; metadata := metadata i;
     other_keys := other_keys i |}.

(** The two inner loops of [os_walk], named: the sub-directory called [d],
    and the descent into the names left in [dirs]. *)
Definition find_child (subdirs : list (string * option Stat * tree)) (d : string)
    : option tree :=
  (list_find (λ entry, entry.1.1 = d) subdirs) ≫= λ r, Some r.2.2.

Section Descend.
Context {W : Type}.
Variable body : string → list DirInfo → list (string * option Stat) → W
                → W * list string * bool.

Fixpoint descend (top : string) (subdirs : list (string * option Stat * tree))
    (dirs : list string) (w : W) : W * bool :=
  match dirs with
  | [] => (w, false)
  | d :: dirs' =>
      match find_child subdirs d with
      | Some child =>
          let '(w, stop) := os_walk body (path_join top d) child w in
          if (stop : bool) then (w, true) else descend top subdirs dirs' w
      | None => descend top subdirs dirs' w
      end
  end.
End Descend.

(** The processing pass went from [w] to [w'] and handled at most [k]
    entries: the counter moved forward by at most [k], the total was left
    alone, and every snapshot notified on the way shows that total and a
    counter within the same bound. *)
Definition advanced (k : nat) (w w' : Walk) : Prop :=
  processed_items (progress w) ≤ processed_items (progress w')
  ∧ processed_items (progress w') ≤ processed_items (progress w) + k
  ∧ total_items (progress w') = total_items (progress w)
  ∧ ∃ new, notified w' = notified w ++ new
           ∧ Forall (λ p, total_items p = total_items (progress w)
                          ∧ processed_items p ≤ processed_items (progress w) + k) new.

(** The pass handled exactly [k] entries and was not cancelled. *)
Definition completed_entries (k : nat) (w w' : Walk) : Prop :=
  status (progress w') = Scanning
  ∧ processed_items (progress w') = processed_items (progress w) + k
  ∧ length (notified w') = length (notified w) + k.

(** The number of entries of one directory that both passes count. *)
Definition entries_here (settings : Settings) (dirs : list DirInfo)
    (files : list (string * option Stat)) : nat :=
  length (filter (λ d, keep_dir (dir_name d)) dirs)
  + length (filter (λ f, _is_media_file settings f) files.*1).

(** What the two passes have in common on a tree: the counting pass,
    started at [n], counts [k] entries without breaking; the processing
    pass, started at [w], handles at most [k] entries, and exactly [k] when
    nobody cancels. *)
Definition passes_agree (stop : StopRequest) (n : nat) (w : Walk)
    (counted : nat * bool) (walked : Walk * bool) : Prop :=
  counted.2 = false
  ∧ n ≤ counted.1
  ∧ advanced (counted.1 - n) w walked.1
  ∧ (stop = None → status (progress w) = Scanning →
     walked.2 = false ∧ completed_entries (counted.1 - n) w walked.1).

(** A small library used to run the engine: two media files, a text file
    and a file that cannot be examined at the top, a season folder, a hidden
    folder and a movie folder with an empty sub-folder. *)
Definition sample_stat : option Stat := Some (mkStat 100 1 2 3 "-rw-r--r--").

Definition sample_tree : tree :=
  Node [("a.mp4", sample_stat); ("readme.txt", sample_stat); ("b.mkv", None)]
       [("Season 1", sample_stat, Node [("e1.mkv", sample_stat)] []);
        (".hidden", sample_stat, Node [("h.mkv", sample_stat)] []);
        ("Movie (2019)", sample_stat,
         Node [("m.mp4", sample_stat)] [("sub", sample_stat, Node [] [])])].

(** A world in which Firestore is not initialised, the tree is the same in
    both passes, and [stop_scan] arrives as [stop] says. *)
Definition sample_world (stop : StopRequest) : World :=
  mkWorld default_settings (mkFirestore false None None) sample_tree sample_tree stop 99.

(** The file of a library after its content was rewritten in place: the
    size is the same, the modification time is not. *)
Definition touched_stat : option Stat := Some (mkStat 100 1 777 3 "-rw-r--r--").

(** A world in which a second file appears in the library after the
    counting pass and before the processing pass. *)
Definition growing_world : World :=
  mkWorld default_settings (mkFirestore false None None)
    (Node [("a.mp4", sample_stat)] [])
    (Node [("a.mp4", sample_stat); ("b.mp4", sample_stat)] [])
    None 99.

(** What the processing pass never touches: every observation of the
    progress object that does not depend on the counter, the current path,
    the status and the end time. *)
Definition untouched_by_walk {A : Type} (f : ScanProgress → A) : Prop :=
  (∀ n p, f (set_processed_items n p) = f p)
  ∧ (∀ s p, f (set_current_path s p) = f p)
  ∧ (∀ s p, f (set_status s p) = f p)
  ∧ (∀ t p, f (set_end_time t p) = f p).

(** A discovered item as a previous scan stored it: the same record, with
    the library root under ['libraryPath']. *)
Definition stored_under (library : string) (i : Item) : Item :=
  {| item_type := item_type i; path := path i; libraryPath := Some library;
     userId := userId i; media_type := media_type i; metadata := metadata i;
     other_keys := other_keys i |}.

(** The body of the [try] statement of the reconciler that [reconcile]
    calls, before its [except] clause. *)
Definition reconcile_attempt (fs : FirestoreService) (scan_results : list Item)
    (user_id library_path : string)
    (existing_files existing_directories : option (list Item)) : result Tally :=
  if bool_decide (is_Some existing_files) || bool_decide (is_Some existing_directories)
  then reconcile_loop library_path (index_items (or_empty existing_files))
         (index_items (or_empty existing_directories)) scan_results
  else
    existing_file_keys ← index_keys (get_existing_file_paths fs user_id);
    existing_dir_keys ← index_keys (get_existing_directory_paths fs user_id);
    reconcile_loop library_path existing_file_keys existing_dir_keys scan_results.

(** ** The registry of scans *)

(** [get_scan_results]: the results of a scan are handed out only while its
    status is ["completed"]. *)
Definition get_scan_results (running_scans : gmap string ScanProgress)
    (scan_id : string) : option (list Item) :=
  match running_scans !! scan_id with
  | Some progress =>
      if decide (status progress = Completed) then Some (scan_results progress)
      else None
  | None => None
  end.

(** The test of the first loop of [cleanup_completed_scans]; a time stamp of
    zero is falsy. *)
Definition removable (current_time max_age_seconds : Z) (progress : ScanProgress)
    : bool :=
  bool_decide (status progress ∈ [Completed; Cancelled; Failed])
  && match end_time progress with
     | Some end_time =>
         negb (end_time =? 0)%Z && (max_age_seconds <? current_time - end_time)%Z
     | None => false
     end.

(** [cleanup_completed_scans]: the identifiers are collected first, then
    deleted from the registry and from the table of callbacks. *)
Definition cleanup_completed_scans {C : Type}
    (running_scans : gmap string ScanProgress) (scan_callbacks : gmap string C)
    (current_time max_age_hours : Z) : gmap string ScanProgress * gmap string C :=
  let max_age_seconds := (max_age_hours * 3600)%Z in
  let to_remove :=
    (filter (λ entry, removable current_time max_age_seconds entry.2 = true)
            (map_to_list running_scans)).*1 in
  foldl (λ tables scan_id, (delete scan_id tables.1, delete scan_id tables.2))
        (running_scans, scan_callbacks) to_remove.

(** The scans that [start_scan] counts against the ceiling. *)
Definition active_scans (running_scans : gmap string ScanProgress)
    : list ScanProgress :=
  filter (λ s, status s = Scanning) (map_to_list running_scans).*2.

(** The processing pass went from [w] to [w'] one entry at a time: every
    handled entry sent one snapshot, whose counter is one above the counter
    of the snapshot before it, and appended at most one result.  Nothing is
    said of the status that a snapshot shows. *)
Definition counted_in_order (w w' : Walk) : Prop :=
  ∃ new added,
    notified w' = notified w ++ new
    ∧ results w' = results w ++ added
    ∧ length added ≤ length new
    ∧ processed_items (progress w') = processed_items (progress w) + length new
    ∧ ∀ i q, new !! i = Some q →
        processed_items q = processed_items (progress w) + S i.

(** The shape of the records that [_process_file] and [_process_directory]
    build: the type is 'file' or 'directory', the path is set and repeated
    under ['path'] in the metadata, the media type is a string, and the
    metadata is what [get_file_metadata] returned: it holds a size under
    ['size'], and nothing under ['modified_time'] (the modification time is
    under ['modified']). *)
Definition engine_item (i : Item) : Prop :=
  (item_type i = Some "file" ∨ item_type i = Some "directory")
  ∧ libraryPath i = None
  ∧ (∃ category, media_type i = Some (SStr category))
  ∧ ∃ p d, path i = Some p ∧ metadata i = Some (VDict d)
           ∧ d !! "path" = Some (SStr p)
           ∧ (∃ n, d !! "size" = Some (SInt n))
           ∧ is_Some (d !! "modified")
           ∧ d !! "modified_time" = None.

(** The results added by a step of the processing pass have that shape. *)
Definition adds_engine_items (w w' : Walk) : Prop :=
  ∃ added, results w' = results w ++ added ∧ Forall engine_item added.

(** The tree without the directories that both passes skip (a name that
    starts with a dot, or ['@eaDir']), at every level. *)
Fixpoint without_hidden (t : tree) : tree :=
  match t with
  | Node files subdirs =>
      Node files
        ((fix visible (l : list (string * option Stat * tree)) :=
            match l with
            | [] => []
            | (name, st, child) :: l' =>
                if keep_dir name then (name, st, without_hidden child) :: visible l'
                else visible l'
            end) subdirs)
  end.

(** The tree as far as a walk limited to [n] levels of descent can see it:
    the directories [n + 1] levels below the top are kept with their own
    files (which [os.listdir] shows) but without their sub-directories. *)
Fixpoint cut (n : nat) (t : tree) {struct n} : tree :=
  match t with
  | Node files subdirs =>
      Node files
        match n with
        | 0 => (λ e, (e.1, Node (tree_files e.2) [])) <$> subdirs
        | S n' => (λ e, (e.1, cut n' e.2)) <$> subdirs
        end
  end.

(** The names of the directories of a tree, at every level. *)
Fixpoint dir_names (t : tree) : list string :=
  match t with
  | Node _ subdirs =>
      (fix names (l : list (string * option Stat * tree)) : list string :=
         match l with
         | [] => []
         | (name, _, child) :: l' => name :: dir_names child ++ names l'
         end) subdirs
  end.

(** A name that a directory entry can have: not empty, no separator. *)
Definition valid_name (d : string) : Prop :=
  d ≠ "" ∧ contains os_sep d = false.

(** [top] is a directory [n] levels below [path]: [path] followed by [n]
    components. *)
Definition at_depth (path : string) (n : nat) (top : string) : Prop :=
  ∃ suffix, top = path +:+ suffix ∧ count_char os_sep suffix = n
            ∧ top ≠ "" ∧ endswith "/" top = false.

(** ** The verification endpoint *)

(** [FileSystemManager.validate_path_security]: the check is switched off
    and answers [True] for every path. *)
Definition validate_path_security (requested_path : string) : bool := true.

(** One entry of [verificationResults]. *)
Record Verification := mkVerification {
  verified_path : string;
  file_exists : bool;
  accessible : bool;
  verified_metadata : option (gmap string scalar);
  verification_error : option string
}.

(** The body of the loop of [verify_files] for one path; [stat_of] is what
    [os.stat] reports for a path, [None] when the path does not exist.  File
    integrity checks are off by default, so no checksum is computed. *)
Definition verify_file (stat_of : string → option Stat) (file_path : string)
    : Verification :=
  match
    (if validate_path_security file_path
     then
       metadata ← get_file_metadata file_path (stat_of file_path);
       Ok (mkVerification file_path true true (Some metadata) None)
     else Ok (mkVerification file_path false false None (Some "Path not allowed")))
  with
  | Ok entry => entry
  | Raise e => mkVerification file_path false false None (Some (exn_str e))
  end.

Record VerificationSummary := mkSummary {
  total : nat;
  accessible_count : nat;
  missing : nat
}.

(** [verify_files] of [api/library_operations.py]: the results and the
    summary of the response. *)
Definition verify_files (stat_of : string → option Stat) (filePaths : list string)
    : list Verification * VerificationSummary :=
  let verification_results :=
    foldl (λ verification_results file_path,
             verification_results ++ [verify_file stat_of file_path])
          [] filePaths in
  (verification_results,
   {| total := length filePaths;
      accessible_count :=
        length (filter (λ r, accessible r = true) verification_results);
      missing := length (filter (λ r, file_exists r = false) verification_results) |}).

(** A [stop_scan] that takes effect when the counter is [n], at time [now],
    stops the pass from [w] to [w'] at most once and for good: the counter
    never goes back; a pass that starts cancelled changes nothing; a pass
    that starts scanning either is still scanning and never polled the
    status with the counter at [n], or was cancelled with the counter at
    [n] and left the counter there. *)
Definition stops_once (n : nat) (now : Z) (w w' : Walk) : Prop :=
  processed_items (progress w) ≤ processed_items (progress w')
  ∧ (status (progress w) = Cancelled → w' = w)
  ∧ (status (progress w) = Scanning →
     (status (progress w') = Scanning
      ∧ ¬ (processed_items (progress w) ≤ n < processed_items (progress w')))
     ∨ (status (progress w') = Cancelled
        ∧ processed_items (progress w) ≤ n
        ∧ processed_items (progress w') = n
        ∧ end_time (progress w') = Some now)).

(** From [w] to [w'] the status only changed, if at all, to "cancelled",
    and so it is in every snapshot sent on the way. *)
Definition status_kept (w w' : Walk) : Prop :=
  (status (progress w') = status (progress w) ∨ status (progress w') = Cancelled)
  ∧ ∃ new, notified w' = notified w ++ new
           ∧ Forall (λ q, status q = status (progress w) ∨ status q = Cancelled) new.

(** * Proofs *)

(** ** Strings *)

Lemma list_ascii_of_string_app (s t : string) :
  list_ascii_of_string (s +:+ t) = list_ascii_of_string s ++ list_ascii_of_string t.
Proof. induction s as [|c s IH]; simpl; [done | by rewrite IH]. Qed.

Lemma list_ascii_of_string_inj (s t : string) :
  list_ascii_of_string s = list_ascii_of_string t → s = t.
Proof.
  intros H. rewrite <- (string_of_list_ascii_of_string s),
    <- (string_of_list_ascii_of_string t). by rewrite H.
Qed.

Lemma append_inv_tail (s1 s2 t : string) : s1 +:+ t = s2 +:+ t → s1 = s2.
Proof.
  intros H. apply list_ascii_of_string_inj.
  apply (f_equal list_ascii_of_string) in H.
  rewrite !list_ascii_of_string_app in H. by apply app_inv_tail in H.
Qed.

(** Two composite keys over the same path are equal only for the same
    library root. *)
Lemma composite_key_same_path (l1 l2 p : string) :
  composite_key l1 p = composite_key l2 p → l1 = l2.
Proof. unfold composite_key. apply append_inv_tail. Qed.

Lemma composite_key_empty (l p : string) :
  composite_key l p = composite_key "" "" → l = "" ∧ p = "".
Proof.
  unfold composite_key. destruct l as [|c l]; simpl.
  - intros H. by injection H.
  - intros H. injection H as _ H. by destruct l.
Qed.

(** ** The lookup tables of the offline reconciler *)

Lemma index_items_snoc (l : list Item) (e : Item) :
  index_items (l ++ [e]) = <[stored_key e := ODict e]> (index_items l).
Proof. unfold index_items. by rewrite foldl_app. Qed.

Lemma index_items_lookup (l : list Item) (k : string) (o : pyobj) :
  index_items l !! k = Some o → ∃ e, e ∈ l ∧ o = ODict e ∧ stored_key e = k.
Proof.
  induction l as [|e l IH] using rev_ind.
  - unfold index_items; simpl. by rewrite lookup_empty.
  - rewrite index_items_snoc. destruct (decide (stored_key e = k)) as [<-|Hne].
    + rewrite lookup_insert_eq. intros [= <-]. exists e. set_solver.
    + rewrite lookup_insert_ne by done. intros H.
      destruct (IH H) as (e' & ? & ? & ?). exists e'. set_solver.
Qed.

Lemma index_items_lookup_elem (l : list Item) (e : Item) :
  e ∈ l → ∃ e', e' ∈ l ∧ index_items l !! stored_key e = Some (ODict e')
                ∧ stored_key e' = stored_key e.
Proof.
  induction l as [|e0 l IH] using rev_ind; [set_solver|].
  rewrite index_items_snoc. intros Hin.
  destruct (decide (stored_key e0 = stored_key e)) as [Heq|Hne].
  - exists e0. rewrite <- Heq, lookup_insert_eq. set_solver.
  - rewrite lookup_insert_ne by done.
    assert (e ∈ l) as Hl by (apply elem_of_app in Hin as [?|?%list_elem_of_singleton]; [done|congruence]).
    destruct (IH Hl) as (e' & ? & ? & ?). exists e'. set_solver.
Qed.

(** A dict stored under a key other than [":"] has one of the two keys
    ['libraryPath'] and ['path'], hence is truthy. *)
Lemma stored_key_truthy (e : Item) :
  stored_key e ≠ composite_key "" "" → dict_truthy e = true.
Proof.
  unfold stored_key, dict_truthy. destruct e as [ty [p|] [l|] u mt md n]; simpl;
    try done; destruct ty, u, mt, md; simpl; try done.
Qed.

(** ** The field-level diff *)

Lemma val_get_dict (d : gmap string scalar) (key : string) (dflt : scalar) :
  val_get (VDict d) key dflt = Ok (default dflt (d !! key)).
Proof. done. Qed.

(** On records whose metadata is absent or a dict, [_compare_item_data]
    computes the diff of the specification. *)
Lemma compare_item_data_spec (new_item existing : Item) :
  well_formed new_item → well_formed existing →
  _compare_item_data new_item (ODict existing) = Ok (field_diffs new_item existing).
Proof.
  unfold well_formed, _compare_item_data, field_diffs, size_of, modified_time_of,
    media_type_of, metadata_dict, obj_get_metadata, obj_get_media_type.
  destruct (metadata new_item) as [[a|d]|], (metadata existing) as [[a'|d']|];
    simpl; intros [? ?] [? ?]; try discriminate;
    repeat (case_decide; simpl); try done; congruence.
Qed.

(** [_compare_item_data] raises exactly when one of the two metadata values
    is not a dict. *)
Lemma compare_item_data_raises (new_item existing : Item) :
  ¬ (well_formed new_item ∧ well_formed existing) →
  ∃ e, _compare_item_data new_item (ODict existing) = Raise e.
Proof.
  unfold well_formed, _compare_item_data, metadata_dict, obj_get_metadata.
  destruct (metadata new_item) as [[a|d]|], (metadata existing) as [[a'|d']|];
    simpl; intros H; eauto; exfalso; apply H; eauto.
Qed.

Lemma field_diffs_nil (new_item existing : Item) :
  field_diffs new_item existing = []
  ↔ size_of new_item = size_of existing
    ∧ modified_time_of new_item = modified_time_of existing
    ∧ media_type_of new_item = media_type_of existing.
Proof.
  unfold field_diffs. repeat case_decide; simpl; naive_solver.
Qed.

Lemma field_diffs_fields (new_item existing : Item) (d : FieldDiff) :
  d ∈ field_diffs new_item existing →
  field d = "size" ∨ field d = "modified_time" ∨ field d = "media_type".
Proof.
  unfold field_diffs. repeat case_decide; simpl; set_solver.
Qed.

(** ** The reconciliation loop *)


(** ** The reconciliation loop *)

Lemma for_each_app {A S : Type} (body : S → A → result S) (l1 l2 : list A) (s : S) :
  for_each body (l1 ++ l2) s = s' ← for_each body l1 s; for_each body l2 s'.
Proof.
  revert s. induction l1 as [|x l1 IH]; intros s; simpl; [done|].
  destruct (body s x); simpl; [apply IH | done].
Qed.

Lemma is_duplicate_new_exclusive (lib : string) (fk dk : gmap string pyobj) (item : Item) :
  is_duplicate lib fk dk item = true → is_new lib fk dk item = false.
Proof.
  unfold is_duplicate, is_new.
  destruct (lookup_existing lib fk dk item) as [|o]; simpl; [done|].
  intros H. by rewrite H.
Qed.

(** One iteration that does not raise adds one to exactly one tally, or to
    none for an item that is neither a file nor a directory; what it appends
    to the differences names the item. *)
Lemma reconcile_item_ok (lib : string) (fk dk : gmap string pyobj)
    (t t' : Tally) (item : Item) :
  reconcile_item lib fk dk t item = Ok t' →
  duplicates_found t' = duplicates_found t + Nat.b2n (is_duplicate lib fk dk item)
  ∧ new_items t' = new_items t + Nat.b2n (is_new lib fk dk item)
  ∧ ∃ ds, tally_differences t' = tally_differences t ++ ds
          ∧ ∀ d, d ∈ ds → is_duplicate lib fk dk item = true
                          ∧ diff_path d = default "" (path item)
                          ∧ diff_differences d ≠ [].
Proof.
  unfold reconcile_item, is_duplicate, is_new.
  destruct (lookup_existing lib fk dk item) as [|o].
  - intros [= <-]. simpl. rewrite !Nat.add_0_r. split_and!; [done..|].
    exists []. rewrite app_nil_r. set_solver.
  - destruct (matched (Found o)) as [existing|] eqn:Hm; simpl.
    + destruct (_compare_item_data item existing) as [ds|e]; simpl; [|done].
      intros [= <-]. simpl. rewrite Nat.add_0_r, Nat.add_1_r. split_and!; [done..|].
      destruct ds as [|d ds].
      * exists []. rewrite app_nil_r. set_solver.
      * eexists. split; [done|]. intros d' ->%list_elem_of_singleton. done.
    + intros [= <-]. simpl. rewrite Nat.add_0_r, Nat.add_1_r. split_and!; [done..|].
      exists []. rewrite app_nil_r. set_solver.
Qed.

Lemma reconcile_loop_ok (lib : string) (fk dk : gmap string pyobj)
    (items : list Item) (t t' : Tally) :
  for_each (reconcile_item lib fk dk) items t = Ok t' →
  duplicates_found t'
    = duplicates_found t + length (filter (λ i, is_duplicate lib fk dk i = true) items)
  ∧ new_items t'
    = new_items t + length (filter (λ i, is_new lib fk dk i = true) items)
  ∧ ∃ ds, tally_differences t' = tally_differences t ++ ds
          ∧ ∀ d, d ∈ ds → ∃ item, item ∈ items
                                  ∧ is_duplicate lib fk dk item = true
                                  ∧ diff_path d = default "" (path item).
Proof.
  revert t. induction items as [|item items IH]; intros t; simpl.
  - intros [= <-]. rewrite !Nat.add_0_r. split_and!; [done..|].
    exists []. rewrite app_nil_r. set_solver.
  - destruct (reconcile_item lib fk dk t item) as [t1|e] eqn:H1; simpl; [|done].
    intros H2. apply reconcile_item_ok in H1 as (Hd1 & Hn1 & ds1 & Hds1 & Hin1).
    apply IH in H2 as (Hd2 & Hn2 & ds2 & Hds2 & Hin2).
    rewrite !filter_cons.
    split_and!.
    + rewrite Hd2, Hd1. destruct (is_duplicate lib fk dk item); simpl;
        repeat case_decide; simpl; try done; lia.
    + rewrite Hn2, Hn1. destruct (is_new lib fk dk item); simpl;
        repeat case_decide; simpl; try done; lia.
    + exists (ds1 ++ ds2). rewrite Hds2, Hds1, app_assoc. split; [done|].
      intros d [Hd|Hd]%elem_of_app.
      * exists item. destruct (Hin1 d Hd) as (? & ? & _). set_solver.
      * destruct (Hin2 d Hd) as (i & ? & ? & ?). exists i. set_solver.
Qed.

Lemma lookup_existing_file (lib : string) (fk dk : gmap string pyobj) (item : Item) :
  item_type item = Some "file" →
  lookup_existing lib fk dk item
  = Found (fk !! composite_key lib (default "" (path item))).
Proof. unfold lookup_existing. by intros ->. Qed.

Lemma lookup_existing_directory (lib : string) (fk dk : gmap string pyobj) (item : Item) :
  item_type item = Some "directory" →
  lookup_existing lib fk dk item
  = Found (dk !! composite_key lib (default "" (path item))).
Proof.
  unfold lookup_existing. by intros ->.
Qed.

(** A matched object was found in the table of the kind of the item, under
    the composite key of the item. *)
Lemma matched_inv (lib : string) (fk dk : gmap string pyobj) (item : Item) (o : pyobj) :
  matched (lookup_existing lib fk dk item) = Some o →
  obj_truthy o = true
  ∧ ((item_type item = Some "file"
      ∧ fk !! composite_key lib (default "" (path item)) = Some o)
     ∨ (item_type item = Some "directory"
        ∧ dk !! composite_key lib (default "" (path item)) = Some o)).
Proof.
  unfold lookup_existing.
  destruct (item_type item) as [ty|] eqn:Hty; simpl.
  - repeat case_decide; simpl; subst; try done.
    + destruct (fk !! _) as [o'|] eqn:Hk; [|done].
      destruct (obj_truthy o') eqn:Ht; [|done]. intros [= <-]. eauto.
    + destruct (dk !! _) as [o'|] eqn:Hk; [|done].
      destruct (obj_truthy o') eqn:Ht; [|done]. intros [= <-]. eauto.
  - done.
Qed.

Lemma is_duplicate_key_matches (lib : string) (ef ed : list Item) (item : Item) :
  is_duplicate lib (index_items ef) (index_items ed) item = true →
  key_matches lib ef ed item.
Proof.
  unfold is_duplicate. intros [o Ho]%bool_decide_eq_true.
  apply matched_inv in Ho as [_ [[Hty Hk]|[Hty Hk]]];
    apply index_items_lookup in Hk as (e & He & _ & Hkey); exists e; eauto.
Qed.

Lemma key_matches_is_duplicate (lib : string) (ef ed : list Item) (item : Item) :
  default "" (path item) ≠ "" →
  key_matches lib ef ed item →
  is_duplicate lib (index_items ef) (index_items ed) item = true.
Proof.
  intros Hp (e & Hkind & Hkey). unfold is_duplicate. apply bool_decide_eq_true.
  assert (∀ l, e ∈ l →
            ∃ o, index_items l !! composite_key lib (default "" (path item)) = Some o
                 ∧ obj_truthy o = true) as Hfind.
  { intros l (e' & _ & Hl & Hk')%index_items_lookup_elem.
    exists (ODict e'). rewrite <- Hkey. split; [done|]. simpl.
    apply stored_key_truthy. rewrite Hk', Hkey.
    intros H%composite_key_empty. naive_solver. }
  destruct Hkind as [[Hty He]|[Hty He]]; destruct (Hfind _ He) as (o & Hk & Ht).
  - rewrite lookup_existing_file by done. simpl. rewrite Hk, Ht. eauto.
  - rewrite lookup_existing_directory by done. simpl. rewrite Hk, Ht. eauto.
Qed.

(** The partner that makes an item a duplicate has the composite key of the
    item; if it has the path of the item, it has the library root of the
    current scan. *)
Lemma matched_same_path_same_root (lib : string) (ef ed : list Item) (item e : Item) :
  matched (lookup_existing lib (index_items ef) (index_items ed) item) = Some (ODict e) →
  stored_key e = composite_key lib (default "" (path item))
  ∧ (default "" (path e) = default "" (path item) → default "" (libraryPath e) = lib).
Proof.
  intros [_ [[_ Hk]|[_ Hk]]]%matched_inv;
    apply index_items_lookup in Hk as (e' & _ & [= <-] & Hkey);
    (split; [done|]); intros Hp; unfold stored_key in Hkey; rewrite Hp in Hkey;
    by apply composite_key_same_path in Hkey.
Qed.

(** Existing items that share the path of the item but lie under another
    library root never make it a duplicate. *)
Lemma other_root_not_duplicate (lib : string) (ef ed : list Item) (item : Item) :
  (∀ e, e ∈ ef ++ ed → default "" (path e) = default "" (path item)
                       ∧ default "" (libraryPath e) ≠ lib) →
  is_duplicate lib (index_items ef) (index_items ed) item = false.
Proof.
  intros H. destruct (is_duplicate _ _ _ item) eqn:Hd; [|done].
  apply is_duplicate_key_matches in Hd as (e & Hkind & Hkey).
  assert (e ∈ ef ++ ed) as He by (apply elem_of_app; naive_solver).
  destruct (H e He) as [Hp Hl]. exfalso. apply Hl.
  unfold stored_key in Hkey. rewrite Hp in Hkey.
  by apply composite_key_same_path in Hkey.
Qed.

Lemma matched_table (lib : string) (fk dk : gmap string pyobj) (item : Item) (o : pyobj) :
  matched (lookup_existing lib fk dk item) = Some o →
  ∃ k, fk !! k = Some o ∨ dk !! k = Some o.
Proof. intros [_ [[_ ?]|[_ ?]]]%matched_inv; eauto. Qed.

Lemma reconcile_item_wf (lib : string) (fk dk : gmap string pyobj) (t : Tally)
    (item : Item) :
  well_formed item → table_well_formed fk → table_well_formed dk →
  reconcile_item lib fk dk t item
  = Ok (mkTally (new_items t + Nat.b2n (is_new lib fk dk item))
                (duplicates_found t + Nat.b2n (is_duplicate lib fk dk item))
                (tally_differences t ++ expected_entry lib fk dk item)).
Proof.
  intros Hi Hf Hd. unfold reconcile_item, is_new, is_duplicate, expected_entry.
  destruct (lookup_existing lib fk dk item) as [|o] eqn:Hl.
  - destruct t. simpl. by rewrite !Nat.add_0_r, app_nil_r.
  - destruct (matched (Found o)) as [existing|] eqn:Hm.
    + assert (∃ e, existing = ODict e ∧ well_formed e) as (e & -> & He).
      { rewrite <- Hl in Hm. apply matched_table in Hm as [k [Hk|Hk]]; eauto. }
      rewrite compare_item_data_spec by done. simpl.
      rewrite Nat.add_0_r, Nat.add_1_r. f_equal. f_equal.
      unfold entry_of. destruct (field_diffs item e); [by rewrite app_nil_r|done].
    + simpl. by rewrite Nat.add_0_r, Nat.add_1_r, app_nil_r.
Qed.

Lemma reconcile_loop_wf (lib : string) (fk dk : gmap string pyobj)
    (items : list Item) (t : Tally) :
  Forall well_formed items → table_well_formed fk → table_well_formed dk →
  for_each (reconcile_item lib fk dk) items t
  = Ok (mkTally
          (new_items t + length (filter (λ i, is_new lib fk dk i = true) items))
          (duplicates_found t
           + length (filter (λ i, is_duplicate lib fk dk i = true) items))
          (tally_differences t ++ (items ≫= expected_entry lib fk dk))).
Proof.
  intros Hi Hf Hd. revert t. induction Hi as [|item items Hitem _ IH]; intros t; simpl.
  - destruct t. simpl. by rewrite !Nat.add_0_r, app_nil_r.
  - rewrite reconcile_item_wf by done. simpl. rewrite IH. simpl.
    rewrite !filter_cons, <- !app_assoc. f_equal. f_equal.
    + destruct (is_new lib fk dk item); simpl; repeat case_decide; simpl; try done; lia.
    + destruct (is_duplicate lib fk dk item); simpl; repeat case_decide; simpl;
        try done; lia.
Qed.

Lemma index_items_well_formed (l : list Item) :
  Forall well_formed l → table_well_formed (index_items l).
Proof.
  intros Hl k o (e & He & -> & _)%index_items_lookup. exists e. split; [done|].
  by apply (proj1 (Forall_forall _ _) Hl).
Qed.

(** On well-formed records the offline reconciler returns the report of
    the specification. *)
Lemma check_duplicates_with_existing_wf (scan_results : list Item)
    (user_id library_path : string)
    (existing_files existing_directories : option (list Item)) :
  Forall well_formed scan_results →
  Forall well_formed (or_empty existing_files) →
  Forall well_formed (or_empty existing_directories) →
  _check_duplicates_with_existing scan_results user_id library_path
    existing_files existing_directories
  = expected_report library_path (index_items (or_empty existing_files))
      (index_items (or_empty existing_directories)) scan_results.
Proof.
  intros Hs Hf Hd. unfold _check_duplicates_with_existing, reconcile_loop.
  rewrite reconcile_loop_wf by eauto using index_items_well_formed. done.
Qed.

(** The counts of any report of the offline reconciler. *)
Lemma check_duplicates_with_existing_counts (scan_results : list Item)
    (user_id library_path : string)
    (existing_files existing_directories : option (list Item)) :
  let duplicate :=
    is_duplicate library_path (index_items (or_empty existing_files))
      (index_items (or_empty existing_directories)) in
  let report :=
    _check_duplicates_with_existing scan_results user_id library_path
      existing_files existing_directories in
  duplicatesFound report ≤ length (filter (λ i, duplicate i = true) scan_results)
  ∧ ∀ d, d ∈ differences report →
         ∃ item, item ∈ scan_results ∧ duplicate item = true
                 ∧ diff_path d = default "" (path item).
Proof.
  simpl. unfold _check_duplicates_with_existing, reconcile_loop.
  destruct (for_each _ scan_results _) as [t|e] eqn:Hloop; simpl.
  - apply reconcile_loop_ok in Hloop as (Hd & _ & ds & Hds & Hin). simpl in *.
    rewrite Hd, Hds. split; [done|]. exact Hin.
  - split; [lia|]. intros d Hd. by apply elem_of_nil in Hd.
Qed.

(** C1. Composite-key invariant of reconciliation.  In the scenario of the
    specification (scanning /lib-b, the path /movies/x.mp4 known under
    /lib-a only) no duplicate is found and one new item is counted.  For
    every list of discovered items and every inventory: the report counts
    as duplicates, and names in its differences, only items that the loop
    matched; an item is matched only when an existing item of its kind has
    the composite key built from the library root of the current scan and
    the path of the item; the partner of a matched item, when it has the
    path of the item, has the library root of the scan; and existing items
    with the path of the item under other library roots never make it a
    duplicate. *)
Theorem composite_key_invariant :
  (let report :=
     _check_duplicates_with_existing [found_file "/movies/x.mp4" 100 5 "movie"]
       "user" "/lib-b" (Some [stored_file "/lib-a" "/movies/x.mp4" 100 5 "movie"])
       (Some []) in
   duplicatesFound report = 0 ∧ newItems report = 1)
  ∧ ∀ (scan_results : list Item) (user_id library_path : string)
      (existing_files existing_directories : option (list Item)),
    let ef := or_empty existing_files in
    let ed := or_empty existing_directories in
    let duplicate := is_duplicate library_path (index_items ef) (index_items ed) in
    let report :=
      _check_duplicates_with_existing scan_results user_id library_path
        existing_files existing_directories in
    duplicatesFound report ≤ length (filter (λ i, duplicate i = true) scan_results)
    ∧ (∀ d, d ∈ differences report →
            ∃ item, item ∈ scan_results ∧ duplicate item = true
                    ∧ diff_path d = default "" (path item))
    ∧ (∀ item, duplicate item = true → key_matches library_path ef ed item)
    ∧ (∀ item e,
         matched (lookup_existing library_path (index_items ef) (index_items ed) item)
         = Some (ODict e) →
         default "" (path e) = default "" (path item) →
         default "" (libraryPath e) = library_path)
    ∧ (∀ item,
         (∀ e, e ∈ ef ++ ed → default "" (path e) = default "" (path item)
                              ∧ default "" (libraryPath e) ≠ library_path) →
         duplicate item = false).
Proof.
  split; [by vm_compute|].
  intros scan_results user_id library_path existing_files existing_directories.
  simpl. split_and!.
  - apply check_duplicates_with_existing_counts.
  - apply check_duplicates_with_existing_counts.
  - intros item. apply is_duplicate_key_matches.
  - intros item e Hm. by apply matched_same_path_same_root in Hm as [_ ?].
  - intros item. apply other_root_not_duplicate.
Qed.

Lemma composite_key_invariant_witness :
  is_duplicate "/lib-a"
    (index_items [stored_file "/lib-a" "/movies/x.mp4" 100 5 "movie"])
    (index_items []) (found_file "/movies/x.mp4" 100 5 "movie") = true
  ∧ key_matches "/lib-a" [stored_file "/lib-a" "/movies/x.mp4" 100 5 "movie"] []
      (found_file "/movies/x.mp4" 100 5 "movie").
Proof.
  split; [by vm_compute|].
  apply (proj2 composite_key_invariant [found_file "/movies/x.mp4" 100 5 "movie"]
           "user" "/lib-a"
           (Some [stored_file "/lib-a" "/movies/x.mp4" 100 5 "movie"]) (Some [])).
  by vm_compute.
Defined.

(** A single discovered file against an inventory whose only file has its
    composite key. *)
Lemma singleton_duplicate_report (item e : Item) (user_id library_path : string)
    (existing_directories : option (list Item)) :
  well_formed item → well_formed e →
  Forall well_formed (or_empty existing_directories) →
  item_type item = Some "file" →
  default "" (path item) ≠ "" →
  stored_key e = composite_key library_path (default "" (path item)) →
  _check_duplicates_with_existing [item] user_id library_path (Some [e])
    existing_directories
  = mkReport 1 0 (entry_of item (field_diffs item e)) None.
Proof.
  intros Hi He Hd Hty Hp Hkey.
  rewrite check_duplicates_with_existing_wf; [|by repeat constructor..|done].
  assert (lookup_existing library_path (index_items [e])
            (index_items (or_empty existing_directories)) item
          = Found (Some (ODict e))) as Hl.
  { rewrite lookup_existing_file by done. rewrite <- Hkey.
    unfold index_items. simpl. by rewrite lookup_insert_eq. }
  assert (dict_truthy e = true) as Ht.
  { apply stored_key_truthy. rewrite Hkey. intros H%composite_key_empty. naive_solver. }
  unfold expected_report, is_duplicate, is_new, expected_entry. simpl.
  rewrite !filter_cons, !filter_nil. rewrite Hl. simpl. rewrite Ht. simpl.
  by rewrite app_nil_r.
Qed.

(** The reconciler on records whose metadata is absent or a dict and
    whose discovered items have a path; without these premises the
    reconciler may end in its fallback report.  (1) an item is classified as a
    duplicate exactly when an existing item of its kind has its composite
    key, and the iteration for it adds one to the duplicates and nothing to
    the new items; the report counts the duplicates and has one differences
    entry per duplicate whose diff is not empty; the diff of a duplicate and
    its partner has one record per differing field among size, modified time
    and media type as [_compare_item_data] reads them, and no other.  (2) A
    single duplicate whose three values agree gives
    duplicatesFound 1 and no differences.  (3) A single duplicate that
    differs only in size gives duplicatesFound 1 and one differences entry
    whose only record has the field "size". *)
Lemma reconcile_well_formed_records :
  (∀ (scan_results : list Item) (user_id library_path : string)
     (existing_files existing_directories : option (list Item)),
     let ef := or_empty existing_files in
     let ed := or_empty existing_directories in
     let report :=
       _check_duplicates_with_existing scan_results user_id library_path
         existing_files existing_directories in
     Forall well_formed scan_results → Forall well_formed ef → Forall well_formed ed →
     Forall (λ item, default "" (path item) ≠ "") scan_results →
     (∀ item, item ∈ scan_results →
        (is_duplicate library_path (index_items ef) (index_items ed) item = true
         ↔ key_matches library_path ef ed item))
     ∧ (∀ item t, item ∈ scan_results → key_matches library_path ef ed item →
          ∃ t', reconcile_item library_path (index_items ef) (index_items ed) t item
                = Ok t'
                ∧ duplicates_found t' = S (duplicates_found t)
                ∧ new_items t' = new_items t)
     ∧ duplicatesFound report
       = length (filter (λ i, is_duplicate library_path (index_items ef)
                                (index_items ed) i = true) scan_results)
     ∧ differences report
       = scan_results ≫= expected_entry library_path (index_items ef) (index_items ed)
     ∧ (∀ item e, item ∈ scan_results →
          matched (lookup_existing library_path (index_items ef) (index_items ed) item)
          = Some (ODict e) →
          _compare_item_data item (ODict e) = Ok (field_diffs item e)
          ∧ (∀ d, d ∈ field_diffs item e →
               field d = "size" ∨ field d = "modified_time" ∨ field d = "media_type")
          ∧ (field_diffs item e = []
             ↔ size_of item = size_of e
               ∧ modified_time_of item = modified_time_of e
               ∧ media_type_of item = media_type_of e)))
  ∧ (∀ (item e : Item) (user_id library_path : string),
       well_formed item → well_formed e → item_type item = Some "file" →
       default "" (path item) ≠ "" →
       stored_key e = composite_key library_path (default "" (path item)) →
       size_of item = size_of e → modified_time_of item = modified_time_of e →
       media_type_of item = media_type_of e →
       _check_duplicates_with_existing [item] user_id library_path (Some [e]) (Some [])
       = mkReport 1 0 [] None)
  ∧ (∀ (item e : Item) (user_id library_path : string),
       well_formed item → well_formed e → item_type item = Some "file" →
       default "" (path item) ≠ "" →
       stored_key e = composite_key library_path (default "" (path item)) →
       size_of item ≠ size_of e → modified_time_of item = modified_time_of e →
       media_type_of item = media_type_of e →
       _check_duplicates_with_existing [item] user_id library_path (Some [e]) (Some [])
       = mkReport 1 0
           [mkDiffEntry (default "" (path item)) "file"
              [mkFieldDiff "size" (size_of item) (size_of e)]]
           None).
Proof.
  split_and!.
  - intros scan_results user_id library_path existing_files existing_directories.
    simpl. intros Hs Hf Hd Hp.
    assert (∀ item, item ∈ scan_results →
              key_matches library_path (or_empty existing_files)
                (or_empty existing_directories) item →
              is_duplicate library_path (index_items (or_empty existing_files))
                (index_items (or_empty existing_directories)) item = true) as Hdup.
    { intros item Hin. apply key_matches_is_duplicate.
      by apply (proj1 (Forall_forall _ _) Hp). }
    rewrite check_duplicates_with_existing_wf by done. split_and!.
    + intros item Hin. split; [apply is_duplicate_key_matches | by apply Hdup].
    + intros item t Hin Hk. eexists. split.
      * apply reconcile_item_wf; [|by apply index_items_well_formed..].
        by apply (proj1 (Forall_forall _ _) Hs).
      * simpl. rewrite (Hdup item Hin Hk).
        rewrite (is_duplicate_new_exclusive _ _ _ _ (Hdup item Hin Hk)). simpl. lia.
    + done.
    + done.
    + intros item e Hin Hm. split_and!.
      * apply compare_item_data_spec; [by apply (proj1 (Forall_forall _ _) Hs)|].
        apply matched_table in Hm as [k [Hk|Hk]];
          apply index_items_well_formed in Hk as (e' & [= <-] & ?); done.
      * apply field_diffs_fields.
      * apply field_diffs_nil.
  - intros item e user_id library_path Hi He Hty Hp Hkey H1 H2 H3.
    rewrite singleton_duplicate_report by (done || by constructor).
    by rewrite (proj2 (field_diffs_nil item e)).
  - intros item e user_id library_path Hi He Hty Hp Hkey H1 H2 H3.
    rewrite singleton_duplicate_report by (done || by constructor).
    unfold field_diffs. rewrite decide_False by done.
    rewrite !decide_True by done. simpl. by rewrite Hty.
Qed.

(** C6.  The claim has the diff compare the modification time, and an
    exact duplicate be one whose size, modification time and media category
    agree.  [_compare_item_data] reads the modification time under
    ['modified_time'], whereas [get_file_metadata], which builds the
    metadata of every discovered item, stores it under ['modified'].  Here
    the file a.mp4 of the library /media is scanned, stored, rewritten in
    place (same size, modification time 2 then 777) and scanned again with
    the stored record as the inventory: the two records differ in their
    modification time, yet [_compare_item_data] returns no difference, the
    reconciler reports one duplicate without a differences entry, and so
    does the whole scan. *)
Theorem modification_time_is_not_compared :
  ∃ stored found : Item,
    _process_file "/media/a.mp4" sample_stat false = Some stored
    ∧ _process_file "/media/a.mp4" touched_stat false = Some found
    ∧ modified_of stored = SInt 2
    ∧ modified_of found = SInt 777
    ∧ size_of found = size_of stored
    ∧ media_type_of found = media_type_of stored
    ∧ _compare_item_data found (ODict (stored_under "/media" stored)) = Ok []
    ∧ _check_duplicates_with_existing [found] "user" "/media"
        (Some [stored_under "/media" stored]) None
      = mkReport 1 0 [] None
    ∧ duplicate_report
        (_run_scan_async
           (mkWorld default_settings (mkFirestore false None None)
              (Node [("a.mp4", touched_stat)] []) (Node [("a.mp4", touched_stat)] [])
              None 99)
           "/media" false true (Some "user")
           (Some [stored_under "/media" stored]) None
           (new_progress "scan-1" "/media" 0))
      = Some (mkReport 1 0 [] None).
Proof.
  eexists _, _. split; [reflexivity|]. split; [reflexivity|].
  split_and!; by vm_compute.
Qed.

(** The same file truncated instead: the size is read under the key that
    [get_file_metadata] writes, and the difference is reported. *)
Lemma size_change_is_compared :
  ∃ stored found : Item,
    _process_file "/media/a.mp4" sample_stat false = Some stored
    ∧ _process_file "/media/a.mp4" (Some (mkStat 70 1 2 3 "-rw-r--r--")) false
      = Some found
    ∧ _check_duplicates_with_existing [found] "user" "/media"
        (Some [stored_under "/media" stored]) None
      = mkReport 1 0
          [mkDiffEntry "/media/a.mp4" "file"
             [mkFieldDiff "size" (SInt 70) (SInt 100)]]
          None.
Proof.
  eexists _, _. split; [reflexivity|]. split; [reflexivity|]. by vm_compute.
Qed.

(** ** The online reconciler *)

Lemma index_keys_empty : index_keys ∅ = Ok ∅.
Proof. unfold index_keys, dict_iter. by rewrite map_to_list_empty. Qed.

(** The key-building loop raises at its first iteration: the loop variable
    is a key of the dict, a string. *)
Lemma index_keys_raises (existing : gmap string Item) :
  existing ≠ ∅ → index_keys existing = Raise (no_attribute "str").
Proof.
  intros Hne. unfold index_keys, dict_iter.
  destruct (map_to_list existing) as [|[k v] l] eqn:Hl.
  - by apply map_to_list_empty_iff in Hl.
  - done.
Qed.

Lemma index_keys_ok (existing : gmap string Item) (keys : gmap string pyobj) :
  index_keys existing = Ok keys → existing = ∅ ∧ keys = ∅.
Proof.
  destruct (decide (existing = ∅)) as [->|Hne].
  - rewrite index_keys_empty. by intros [= <-].
  - by rewrite index_keys_raises.
Qed.

Lemma is_duplicate_empty (lib : string) (item : Item) :
  is_duplicate lib ∅ ∅ item = false.
Proof.
  unfold is_duplicate, lookup_existing.
  repeat case_decide; simpl; rewrite ?lookup_empty; done.
Qed.

(** As soon as Firestore knows one file or one directory of the user, the
    online reconciler answers with the fallback report. *)
Lemma check_duplicates_fallback (fs : FirestoreService) (scan_results : list Item)
    (user_id library_path : string) :
  get_existing_file_paths fs user_id ≠ ∅
  ∨ get_existing_directory_paths fs user_id ≠ ∅ →
  _check_duplicates fs scan_results user_id library_path
  = fallback_report scan_results (no_attribute "str").
Proof.
  unfold _check_duplicates. intros [Hf|Hd].
  - rewrite (index_keys_raises _ Hf). reflexivity.
  - destruct (decide (get_existing_file_paths fs user_id = ∅)) as [->|Hf].
    + rewrite index_keys_empty. rewrite (index_keys_raises _ Hd). reflexivity.
    + rewrite (index_keys_raises _ Hf). reflexivity.
Qed.

(** The online reconciler never reports a duplicate. *)
Lemma check_duplicates_no_duplicates (fs : FirestoreService) (scan_results : list Item)
    (user_id library_path : string) :
  duplicatesFound (_check_duplicates fs scan_results user_id library_path) = 0.
Proof.
  destruct (decide (get_existing_file_paths fs user_id = ∅)) as [Hf|Hf];
    [destruct (decide (get_existing_directory_paths fs user_id = ∅)) as [Hd|Hd]|].
  - unfold _check_duplicates. rewrite Hf, Hd, index_keys_empty. simpl.
    unfold reconcile_loop.
    destruct (for_each _ scan_results _) as [t|e] eqn:Hloop; simpl; [|done].
    apply reconcile_loop_ok in Hloop as (-> & _). simpl.
    induction scan_results as [|i l IH]; [done|].
    rewrite filter_cons, is_duplicate_empty. by rewrite decide_False.
  - by rewrite check_duplicates_fallback by eauto.
  - by rewrite check_duplicates_fallback by eauto.
Qed.

(** C2 (the code departs from the claim).  The inventory holds one file of
    the user, /m/a.mp4 under /lib-a, and the scan of /lib-a finds that very
    file.  Offline, with the inventory supplied by the caller, the report
    has one duplicate; online, with the same inventory read through
    [get_existing_file_paths], the key-building loop raises and the report
    is the fallback: no duplicate, one new item, an error message. *)
Theorem online_mode_diverges :
  let doc := owned_by "user" (stored_file "/lib-a" "/m/a.mp4" 100 5 "movie") in
  let fs := mkFirestore true (Some [doc]) (Some []) in
  let scan_results := [found_file "/m/a.mp4" 100 5 "movie"] in
  get_existing_file_paths fs "user" = {[ "/m/a.mp4" := doc ]}
  ∧ _check_duplicates_with_existing scan_results "user" "/lib-a" (Some [doc]) (Some [])
    = mkReport 1 0 [] None
  ∧ _check_duplicates fs scan_results "user" "/lib-a"
    = mkReport 0 1 [] (Some "'str' object has no attribute 'get'").
Proof. by vm_compute. Qed.

(** ** Patterns and file names *)

Lemma drop_str_0 (s : string) : drop_str 0 s = s.
Proof. by destruct s. Qed.

Lemma drop_str_S (n : nat) (c : ascii) (s : string) :
  drop_str (S n) (String c s) = drop_str n s.
Proof. done. Qed.

Lemma drop_str_empty (n : nat) : drop_str n "" = "".
Proof. by destruct n. Qed.

(** The anchored year matcher accepts exactly the strings that begin with
    a year marker. *)
Lemma match_year_spec (s : string) :
  is_Some (match_year s)
  ↔ ∃ a b c d rest,
      s = String "(" (String a (String b (String c (String d (String ")" rest)))))
      ∧ is_digit a = true ∧ is_digit b = true ∧ is_digit c = true ∧ is_digit d = true.
Proof.
  split.
  - intros [g Hg]. unfold match_year in Hg.
    repeat (match type of Hg with
            | (if ?x then _ else _) = _ => destruct x eqn:?; try discriminate
            | match ?x with _ => _ end = _ => destruct x; try discriminate
            end).
    repeat match goal with
           | H : _ && _ = true |- _ => apply andb_true_iff in H as [? ?]
           end.
    do 5 eexists. split; [reflexivity|]. done.
  - intros (a & b & c & d & rest & -> & Ha & Hb & Hc & Hd).
    unfold match_year. rewrite Ha, Hb, Hc, Hd. simpl. eauto.
Qed.

Lemma span_digits_spec (s ds rest : string) :
  span_digits s = (ds, rest) →
  s = ds +:+ rest ∧ all_digits ds = true
  ∧ match rest with String c _ => is_digit c = false | EmptyString => True end.
Proof.
  revert ds rest. induction s as [|c s IH]; intros ds rest; simpl.
  - by intros [= <- <-].
  - destruct (is_digit c) eqn:Hc.
    + destruct (span_digits s) as [ds' rest'] eqn:Hs. intros [= <- <-].
      destruct (IH ds' rest' eq_refl) as (-> & Hd & Hr). simpl. by rewrite Hc, Hd.
    + intros [= <- <-]. simpl. by rewrite Hc.
Qed.

(** A run of digits followed by something that is not a digit is the
    longest run. *)
Lemma span_digits_run (ds rest : string) :
  all_digits ds = true →
  match rest with String c _ => is_digit c = false | EmptyString => True end →
  span_digits (ds +:+ rest) = (ds, rest).
Proof.
  intros Hd Hr. induction ds as [|c ds IH]; simpl in *.
  - destruct rest as [|c rest]; [done|]. simpl. by rewrite Hr.
  - apply andb_true_iff in Hd as [Hc Hd]. by rewrite Hc, IH.
Qed.

(** The longest run of digits at the head of [ds +:+ rest] begins with
    [ds]. *)
Lemma span_digits_prefix (ds rest : string) :
  all_digits ds = true →
  ∃ ds' rest', span_digits (ds +:+ rest) = (ds +:+ ds', rest').
Proof.
  intros Hd. induction ds as [|c ds IH]; simpl in *.
  - destruct (span_digits rest) as [ds' rest'] eqn:Hs. by exists ds', rest'.
  - apply andb_true_iff in Hd as [Hc Hd]. rewrite Hc.
    destruct (IH Hd) as (ds' & rest' & ->). by exists ds', rest'.
Qed.

Lemma letter_not_digit (e : ascii) :
  e = "E"%char ∨ e = "e"%char → is_digit e = false.
Proof. by intros [-> | ->]. Qed.

(** The anchored episode matcher accepts exactly the strings that begin
    with an episode marker. *)
Lemma match_episode_spec (s : string) :
  is_Some (match_episode s)
  ↔ ∃ c ds1 e ds2 rest,
      s = String c (ds1 +:+ String e (ds2 +:+ rest))
      ∧ (c = "S"%char ∨ c = "s"%char) ∧ (e = "E"%char ∨ e = "e"%char)
      ∧ ds1 ≠ "" ∧ all_digits ds1 = true ∧ ds2 ≠ "" ∧ all_digits ds2 = true.
Proof.
  split.
  - intros [g Hg]. unfold match_episode in Hg.
    destruct s as [|c s1]; [done|].
    destruct (bool_decide (c = "S"%char) || bool_decide (c = "s"%char)) eqn:Hc; [|done].
    destruct (span_digits s1) as [ds1 r1] eqn:H1.
    destruct ds1 as [|d ds]; [done|]. destruct r1 as [|e s2]; [done|].
    destruct (bool_decide (e = "E"%char) || bool_decide (e = "e"%char)) eqn:He; [|done].
    destruct (span_digits s2) as [ds2 r2] eqn:H2.
    destruct ds2 as [|d' ds']; [done|].
    apply span_digits_spec in H1 as (-> & Hd1 & _).
    apply span_digits_spec in H2 as (-> & Hd2 & _).
    exists c, (String d ds), e, (String d' ds'), r2.
    apply orb_true_iff in Hc as [Hc%bool_decide_eq_true|Hc%bool_decide_eq_true];
      apply orb_true_iff in He as [He%bool_decide_eq_true|He%bool_decide_eq_true];
      split_and!; auto; done.
  - intros (c & ds1 & e & ds2 & rest & -> & Hc & He & Hn1 & Hd1 & Hn2 & Hd2).
    unfold match_episode.
    assert (bool_decide (c = "S"%char) || bool_decide (c = "s"%char) = true) as ->.
    { destruct Hc as [-> | ->]; done. }
    rewrite span_digits_run; [|done|by apply letter_not_digit].
    destruct ds1 as [|d ds]; [done|].
    assert (bool_decide (e = "E"%char) || bool_decide (e = "e"%char) = true) as ->.
    { destruct He as [-> | ->]; done. }
    destruct (span_digits_prefix ds2 rest Hd2) as (ds' & rest' & ->).
    destruct ds2 as [|d' ds2]; [done|]. simpl. eauto.
Qed.

(** [re_search] returns the leftmost position at which the anchored
    matcher succeeds. *)
Lemma re_search_some {G : Type} (m : string → option G) (s : string)
    (start i : nat) (g : G) :
  re_search m s start = Some (i, g) →
  ∃ k, i = start + k ∧ m (drop_str k s) = Some g
       ∧ ∀ j, j < k → m (drop_str j s) = None.
Proof.
  revert start. induction s as [|c s IH]; intros start; simpl.
  - destruct (m "") as [g'|] eqn:Hm; [|done]. intros [= <- <-].
    exists 0. split_and!; [lia|done|lia].
  - destruct (m (String c s)) as [g'|] eqn:Hm.
    + intros [= <- <-]. exists 0. split_and!; [lia|done|lia].
    + intros (k & -> & Hk & Hlt)%IH. exists (S k). split_and!; [lia|done|].
      intros [|j] Hj; [done|]. apply Hlt. lia.
Qed.

Lemma re_search_none {G : Type} (m : string → option G) (s : string) (start : nat) :
  re_search m s start = None → ∀ j, m (drop_str j s) = None.
Proof.
  revert start. induction s as [|c s IH]; intros start; simpl.
  - destruct (m "") eqn:Hm; [done|]. intros _ j. by rewrite drop_str_empty.
  - destruct (m (String c s)) eqn:Hm; [done|]. intros H [|j]; [done|].
    simpl. by apply (IH (S start)).
Qed.

Lemma year_marker_at_match (s : string) (i : nat) :
  year_marker_at s i ↔ is_Some (match_year (drop_str i s)).
Proof. unfold year_marker_at. by rewrite match_year_spec. Qed.

Lemma episode_marker_at_match (s : string) (i : nat) :
  episode_marker_at s i ↔ is_Some (match_episode (drop_str i s)).
Proof. unfold episode_marker_at. by rewrite match_episode_spec. Qed.

Lemma first_at_unique (P : nat → Prop) (i j : nat) :
  first_at P i → first_at P j → i = j.
Proof.
  intros [Hi Hlti] [Hj Hltj].
  destruct (Nat.lt_trichotomy i j) as [H|[H|H]]; [|done|].
  - by destruct (Hltj i H).
  - by destruct (Hlti j H).
Qed.

(** What [re.search] finds, in the words of the specification. *)
Lemma re_search_year (s : string) :
  match re_search match_year s 0 with
  | Some (i, _) => first_at (year_marker_at s) i
  | None => ∀ i, ¬ year_marker_at s i
  end.
Proof.
  destruct (re_search match_year s 0) as [[i g]|] eqn:Hs.
  - apply re_search_some in Hs as (k & -> & Hk & Hlt). simpl. split.
    + apply year_marker_at_match. eauto.
    + intros j Hj [g' Hg']%year_marker_at_match. rewrite Hlt in Hg' by done. done.
  - intros i [g Hg]%year_marker_at_match.
    by rewrite (re_search_none _ _ _ Hs) in Hg.
Qed.

Lemma re_search_episode (s : string) :
  match re_search match_episode s 0 with
  | Some (i, _) => first_at (episode_marker_at s) i
  | None => ∀ i, ¬ episode_marker_at s i
  end.
Proof.
  destruct (re_search match_episode s 0) as [[i g]|] eqn:Hs.
  - apply re_search_some in Hs as (k & -> & Hk & Hlt). simpl. split.
    + apply episode_marker_at_match. eauto.
    + intros j Hj [g' Hg']%episode_marker_at_match. rewrite Hlt in Hg' by done. done.
  - intros i [g Hg]%episode_marker_at_match.
    by rewrite (re_search_none _ _ _ Hs) in Hg.
Qed.

(** Decide a marker at a concrete position by running the matchers. *)
Ltac no_marker H :=
  first [ apply year_marker_at_match in H | apply episode_marker_at_match in H ];
  vm_compute in H; by apply is_Some_None in H.

Ltac has_marker :=
  first [ apply year_marker_at_match | apply episode_marker_at_match ];
  vm_compute; eauto.

(** The branches of [_parse_filename] as they are written: the title is
    the stripped prefix of the extension-stripped name before the first year
    marker when the name has a year marker; otherwise the stripped prefix
    before the first episode marker when it has one; otherwise the whole
    extension-stripped name.  One of the three cases always applies. *)
Lemma title_cut_at_year_first (filename : string) :
  let name := (splitext filename).1 in
  let parsed := _parse_filename filename in
  (∀ i, first_at (year_marker_at name) i → title parsed = strip (take_str i name))
  ∧ ((∀ i, ¬ year_marker_at name i) →
     ∀ j, first_at (episode_marker_at name) j → title parsed = strip (take_str j name))
  ∧ ((∀ i, ¬ marker_at name i) → title parsed = name)
  ∧ ((∃ i, first_at (year_marker_at name) i)
     ∨ ((∀ i, ¬ year_marker_at name i) ∧ ∃ j, first_at (episode_marker_at name) j)
     ∨ (∀ i, ¬ marker_at name i)).
Proof.
  simpl. unfold _parse_filename. simpl.
  pose proof (re_search_year (splitext filename).1) as Hy.
  pose proof (re_search_episode (splitext filename).1) as He.
  destruct (re_search match_year _ 0) as [[iy gy]|];
    destruct (re_search match_episode _ 0) as [[ie ge]|]; simpl; split_and!.
  all: try (intros i Hi; by rewrite (first_at_unique _ _ _ Hi Hy)).
  all: try (intros Hno; by destruct (Hno iy (proj1 Hy))).
  all: try (intros Hno; destruct (Hno iy); left; apply Hy).
  all: try (intros Hno; destruct (Hno ie); right; apply He).
  all: try (intros i [Hi _]; by destruct (Hy i)).
  all: try (intros _ j Hj; by rewrite (first_at_unique _ _ _ Hj He)).
  all: try (intros _ j [Hj _]; by destruct (He j)).
  all: try done.
  all: eauto 6.
  right. right. intros i [H|H]; [by apply (Hy i)|by apply (He i)].
Qed.

(** C9.  The claim cuts the title at whichever marker comes first, as the
    comment in [_parse_filename] says ("everything before year or episode
    info").  In "Show S01E02 (2019).mkv" the first marker is the episode
    marker at index 5 and the year marker follows at index 12; the prefix
    before the first marker is "Show", but [_parse_filename] tests the year
    first and cuts there, so the title keeps the episode marker.  The
    sibling [_determine_file_media_type] tests the episode marker first and
    classifies the same name as an episode. *)
Theorem title_keeps_episode_marker :
  let filename := "Show S01E02 (2019).mkv" in
  let name := (splitext filename).1 in
  let parsed := _parse_filename filename in
  name = "Show S01E02 (2019)"
  ∧ first_at (marker_at name) 5
  ∧ episode_marker_at name 5
  ∧ first_at (year_marker_at name) 12
  ∧ strip (take_str 5 name) = "Show"
  ∧ title parsed = "Show S01E02"
  ∧ title parsed ≠ strip (take_str 5 name)
  ∧ season parsed = Some 1 ∧ episode parsed = Some 2 ∧ year parsed = Some 2019
  ∧ _determine_file_media_type "/media/Show S01E02 (2019).mkv" = "episode".
Proof.
  cbv zeta.
  change (splitext "Show S01E02 (2019).mkv").1 with "Show S01E02 (2019)".
  split_and!.
  - reflexivity.
  - split; [right; has_marker|].
    intros j Hj [Hm|Hm]; do 5 (destruct j as [|j]; [no_marker Hm|]); lia.
  - has_marker.
  - split; [has_marker|].
    intros j Hj Hm. do 12 (destruct j as [|j]; [no_marker Hm|]). lia.
  - by vm_compute.
  - by vm_compute.
  - by vm_compute.
  - by vm_compute.
  - by vm_compute.
  - by vm_compute.
  - by vm_compute.
Qed.

(** ** The walk *)

(** Induction on directory trees: the property holds of a directory when
    it holds of all its sub-directories. *)
Lemma tree_induction (P : tree → Prop) :
  (∀ files subdirs, Forall (λ entry, P entry.2) subdirs → P (Node files subdirs)) →
  ∀ t, P t.
Proof.
  intros H. fix IH 1. intros [files subdirs]. apply H.
  induction subdirs as [|[[name st] child] subdirs IHs]; constructor.
  - apply IH.
  - apply IHs.
Qed.

Lemma find_child_elem (subdirs : list (string * option Stat * tree)) (d : string)
    (child : tree) :
  find_child subdirs d = Some child → ∃ entry, entry ∈ subdirs ∧ entry.2 = child.
Proof.
  unfold find_child. destruct (list_find _ subdirs) as [[i entry]|] eqn:Hf; [|done].
  simpl. intros [= <-]. apply list_find_Some in Hf as (Hi & _ & _).
  exists entry. split; [|done]. by eapply list_elem_of_lookup_2.
Qed.

(** [os_walk] on a directory: one iteration of the loop, then the descent
    into the names that the body left in [dirs]. *)
Lemma os_walk_unfold {W : Type}
    (body : string → list DirInfo → list (string * option Stat) → W
            → W * list string * bool)
    (top : string) (files : list (string * option Stat))
    (subdirs : list (string * option Stat * tree)) (w : W) :
  os_walk body top (Node files subdirs) w
  = let '(w, dirs, stop) := body top (dir_info <$> subdirs) files w in
    if (stop : bool) then (w, true) else descend body top subdirs dirs w.
Proof.
  simpl. destruct (body top (dir_info <$> subdirs) files w) as [[w1 dirs] stop].
  destruct stop; [done|]. revert w1.
  induction dirs as [|d dirs IH]; intros w1; [done|]. simpl.
  assert ((fix find (l : list (string * option Stat * tree)) : option (W → W * bool) :=
             match l with
             | [] => None
             | (name, _, child) :: l' =>
                 if decide (name = d) then Some (os_walk body (path_join top d) child)
                 else find l'
             end) subdirs
          = os_walk body (path_join top d) <$> find_child subdirs d) as ->.
  { clear. unfold find_child. induction subdirs as [|[[name st] child] l IHl]; [done|].
    simpl. case_decide; simpl; [done|]. rewrite IHl.
    by destruct (list_find _ l) as [[i entry]|]. }
  destruct (find_child subdirs d) as [child|]; simpl; [|apply IH].
  destruct (os_walk body (path_join top d) child w1) as [w2 stop].
  destruct stop; [done|apply IH].
Qed.

Lemma advanced_refl (w : Walk) : advanced 0 w w.
Proof.
  unfold advanced. split_and!; [lia..|done|].
  exists []. by rewrite app_nil_r.
Qed.

Lemma advanced_weaken (k k' : nat) (w w' : Walk) :
  k ≤ k' → advanced k w w' → advanced k' w w'.
Proof.
  intros Hk (H1 & H2 & H3 & new & H4 & H5). split_and!; [lia..|done|].
  exists new. split; [done|]. eapply Forall_impl; [exact H5|].
  intros p [? ?]. split; [done|lia].
Qed.

Lemma advanced_trans (k1 k2 : nat) (w w1 w2 : Walk) :
  advanced k1 w w1 → advanced k2 w1 w2 → advanced (k1 + k2) w w2.
Proof.
  intros (H1 & H2 & H3 & new1 & H4 & H5) (G1 & G2 & G3 & new2 & G4 & G5).
  split_and!; [lia..|congruence|].
  exists (new1 ++ new2). split; [by rewrite G4, H4, app_assoc|].
  apply Forall_app. split.
  - eapply Forall_impl; [exact H5|]. intros p [? ?]. split; [done|lia].
  - eapply Forall_impl; [exact G5|]. intros p [? ?]. split; [congruence|lia].
Qed.

Lemma completed_entries_refl (w : Walk) :
  status (progress w) = Scanning → completed_entries 0 w w.
Proof. unfold completed_entries. intros. split_and!; [done|lia..]. Qed.

Lemma completed_entries_trans (k1 k2 : nat) (w w1 w2 : Walk) :
  completed_entries k1 w w1 → completed_entries k2 w1 w2 →
  completed_entries (k1 + k2) w w2.
Proof. unfold completed_entries. intros (? & ? & ?) (? & ? & ?). split_and!; [done|lia..]. Qed.

(** Reading the status lets the other thread cancel, and nothing else. *)
Lemma poll_advanced (stop : StopRequest) (w : Walk) :
  advanced 0 w (poll stop w).1.
Proof.
  destruct w as [p r n0].
  unfold poll, cancel. destruct stop as [[n now]|]; simpl; [|apply advanced_refl].
  repeat case_decide; simpl; unfold advanced; simpl;
    (split_and!; [lia..|done|]); exists []; by rewrite app_nil_r.
Qed.

Lemma poll_none (w : Walk) :
  status (progress w) = Scanning → poll None w = (w, false).
Proof.
  intros H. unfold poll. destruct w as [p r n]. simpl in *.
  by rewrite H.
Qed.

Lemma append_result_progress (info : option Item) (w : Walk) :
  progress (append_result info w) = progress w
  ∧ notified (append_result info w) = notified w.
Proof. unfold append_result. destruct info as [i|]; [destruct (dict_truthy i)|]; done. Qed.

(** One processed entry. *)
Lemma count_processed_advanced (info : option Item) (w : Walk) :
  advanced 1 w (count_processed (append_result info w)).
Proof.
  destruct (append_result_progress info w) as [Hp Hn].
  unfold advanced, count_processed. simpl. rewrite Hp, Hn. simpl.
  split_and!; [lia..|done|].
  eexists. split; [done|]. repeat constructor; simpl; lia.
Qed.

Lemma count_processed_completed (info : option Item) (w : Walk) :
  status (progress w) = Scanning →
  completed_entries 1 w (count_processed (append_result info w)).
Proof.
  intros Hs. destruct (append_result_progress info w) as [Hp Hn].
  unfold completed_entries, count_processed. simpl. rewrite Hp, Hn, length_app. simpl.
  split_and!; [done|lia..].
Qed.

Lemma process_dirs_cons (settings : Settings) (stop : StopRequest) (root : string)
    (d : DirInfo) (dirs : list DirInfo) (w : Walk) :
  process_dirs settings stop root (d :: dirs) w
  = if (poll stop w).2 then (poll stop w).1
    else process_dirs settings stop root dirs
           (count_processed
              (append_result
                 (_process_directory settings (path_join root (dir_name d))
                    (dir_stat d) (dir_listing d))
                 (poll stop w).1)).
Proof. simpl. by destruct (poll stop w) as [w1 []]. Qed.

Lemma process_files_cons (settings : Settings) (stop : StopRequest)
    (extract_metadata : bool) (root f : string) (st : option Stat)
    (files : list (string * option Stat)) (w : Walk) :
  process_files settings stop extract_metadata root ((f, st) :: files) w
  = if (poll stop w).2 then (poll stop w).1
    else if negb (_is_media_file settings f)
    then process_files settings stop extract_metadata root files (poll stop w).1
    else process_files settings stop extract_metadata root files
           (count_processed
              (append_result (_process_file (path_join root f) st extract_metadata)
                 (poll stop w).1)).
Proof. simpl. by destruct (poll stop w) as [w1 []]. Qed.

(** The loop over the sub-directories of one directory. *)
Lemma process_dirs_advanced (settings : Settings) (stop : StopRequest) (root : string)
    (dirs : list DirInfo) (w : Walk) :
  advanced (length dirs) w (process_dirs settings stop root dirs w).
Proof.
  revert w. induction dirs as [|d dirs IH]; intros w; [apply advanced_refl|].
  rewrite process_dirs_cons.
  pose proof (poll_advanced stop w) as Hpoll.
  destruct (poll stop w) as [w1 cancelled]. simpl in *.
  destruct cancelled.
  - eapply advanced_weaken; [|exact Hpoll]. lia.
  - eapply (advanced_trans 0 (S (length dirs))); [exact Hpoll|].
    eapply (advanced_trans 1 (length dirs)); [apply count_processed_advanced|apply IH].
Qed.

Lemma process_dirs_completed (settings : Settings) (root : string)
    (dirs : list DirInfo) (w : Walk) :
  status (progress w) = Scanning →
  completed_entries (length dirs) w (process_dirs settings None root dirs w).
Proof.
  revert w. induction dirs as [|d dirs IH]; intros w Hs;
    [by apply completed_entries_refl|].
  rewrite process_dirs_cons, poll_none by done. simpl.
  eapply (completed_entries_trans 1 (length dirs));
    [by apply count_processed_completed|].
  apply IH. by apply count_processed_completed.
Qed.

(** The loop over the files of one directory. *)
Lemma process_files_advanced (settings : Settings) (stop : StopRequest)
    (extract_metadata : bool) (root : string) (files : list (string * option Stat))
    (w : Walk) :
  advanced (length (filter (λ f, _is_media_file settings f) files.*1)) w
    (process_files settings stop extract_metadata root files w).
Proof.
  revert w. induction files as [|[f st] files IH]; intros w;
    [apply advanced_refl|].
  rewrite process_files_cons.
  pose proof (poll_advanced stop w) as Hpoll.
  destruct (poll stop w) as [w1 cancelled]. simpl in *.
  rewrite filter_cons. simpl.
  destruct cancelled.
  - eapply advanced_weaken; [|exact Hpoll]. lia.
  - destruct (_is_media_file settings f) eqn:Hm; simpl.
    +       eapply (advanced_trans 0 (S _)); [exact Hpoll|].
      eapply (advanced_trans 1 _); [apply count_processed_advanced|apply IH].
    +       eapply (advanced_trans 0 _); [exact Hpoll|apply IH].
Qed.

Lemma process_files_completed (settings : Settings)
    (extract_metadata : bool) (root : string) (files : list (string * option Stat))
    (w : Walk) :
  status (progress w) = Scanning →
  completed_entries (length (filter (λ f, _is_media_file settings f) files.*1)) w
    (process_files settings None extract_metadata root files w).
Proof.
  revert w. induction files as [|[f st] files IH]; intros w Hs;
    [by apply completed_entries_refl|].
  rewrite process_files_cons, poll_none by done. simpl. rewrite filter_cons. simpl.
  destruct (_is_media_file settings f) eqn:Hm; simpl.
  -     eapply (completed_entries_trans 1 _); [by apply count_processed_completed|].
    apply IH. by apply count_processed_completed.
  - by apply IH.
Qed.

Lemma kept_names (dirs : list DirInfo) :
  filter (λ d, keep_dir d) (dir_name <$> dirs)
  = dir_name <$> filter (λ d, keep_dir (dir_name d)) dirs.
Proof.
  induction dirs as [|d dirs IH]; [done|].
  rewrite fmap_cons, !filter_cons, IH. by case_decide.
Qed.

(** One iteration of the counting loop. *)
Lemma count_body_eq (settings : Settings) (path root : string) (dirs : list DirInfo)
    (files : list (string * option Stat)) (n : nat) :
  count_body settings path root dirs files n
  = (n + entries_here settings dirs files,
     prune settings path root
       (dir_name <$> filter (λ d, keep_dir (dir_name d)) dirs),
     false).
Proof.
  unfold count_body, entries_here. rewrite kept_names, length_fmap.
  by rewrite Nat.add_assoc.
Qed.

(** One iteration of the processing loop. *)
Lemma scan_body_eq (settings : Settings) (stop : StopRequest) (extract_metadata : bool)
    (path root : string) (dirs : list DirInfo) (files : list (string * option Stat))
    (w : Walk) :
  scan_body settings stop extract_metadata path root dirs files w
  = if (poll stop w).2 then ((poll stop w).1, dir_name <$> dirs, true)
    else
      (process_files settings stop extract_metadata root files
         (process_dirs settings stop root
            (filter (λ d, keep_dir (dir_name d)) dirs)
            (mkWalk (set_current_path root (progress (poll stop w).1))
               (results (poll stop w).1) (notified (poll stop w).1))),
       prune settings path root
         (dir_name <$> filter (λ d, keep_dir (dir_name d)) dirs),
       false).
Proof. unfold scan_body. by destruct (poll stop w) as [w1 []]. Qed.

Lemma set_current_path_advanced (root : string) (w : Walk) :
  advanced 0 w (mkWalk (set_current_path root (progress w)) (results w) (notified w)).
Proof.
  unfold advanced. simpl. split_and!; [lia..|done|].
  exists []. by rewrite app_nil_r.
Qed.

Lemma scan_body_advanced (settings : Settings) (stop : StopRequest)
    (extract_metadata : bool) (path root : string) (dirs : list DirInfo)
    (files : list (string * option Stat)) (w : Walk) :
  advanced (entries_here settings dirs files) w
    (scan_body settings stop extract_metadata path root dirs files w).1.1.
Proof.
  rewrite scan_body_eq. pose proof (poll_advanced stop w) as Hpoll.
  destruct (poll stop w) as [w1 cancelled]. simpl in *. destruct cancelled; simpl.
  - eapply advanced_weaken; [|exact Hpoll]. lia.
  - eapply (advanced_trans 0 _); [exact Hpoll|].
    eapply (advanced_trans 0 _); [apply set_current_path_advanced|].
    eapply advanced_trans; [apply process_dirs_advanced|apply process_files_advanced].
Qed.

Lemma scan_body_completed (settings : Settings) (extract_metadata : bool)
    (path root : string) (dirs : list DirInfo) (files : list (string * option Stat))
    (w : Walk) :
  status (progress w) = Scanning →
  ∃ w', scan_body settings None extract_metadata path root dirs files w
        = (w', prune settings path root
                 (dir_name <$> filter (λ d, keep_dir (dir_name d)) dirs), false)
        ∧ completed_entries (entries_here settings dirs files) w w'.
Proof.
  intros Hs. rewrite scan_body_eq, poll_none by done. simpl.
  eexists. split; [done|].
  assert (completed_entries 0 w
            (mkWalk (set_current_path root (progress w)) (results w) (notified w)))
    as H0 by (unfold completed_entries; simpl; split_and!; [done|lia..]).
  eapply (completed_entries_trans 0 _); [exact H0|].
  eapply completed_entries_trans.
  - apply process_dirs_completed. by destruct H0.
  - apply process_files_completed.
    by destruct (process_dirs_completed settings root
                   (filter (λ d, keep_dir (dir_name d)) dirs) _ (proj1 H0)).
Qed.

Section Passes.
Variables (settings : Settings) (stop : StopRequest) (extract_metadata : bool)
          (path : string).

Let counting := os_walk (count_body settings path).
Let walking := os_walk (scan_body settings stop extract_metadata path).

(** The descent into the same names, given that the passes agree on
    every sub-directory. *)
Lemma descend_agree (top : string) (subdirs : list (string * option Stat * tree))
    (dirs : list string) :
  Forall (λ entry, ∀ top n w,
            passes_agree stop n w (counting top entry.2 n) (walking top entry.2 w))
         subdirs →
  ∀ n w,
    passes_agree stop n w
      (descend (count_body settings path) top subdirs dirs n)
      (descend (scan_body settings stop extract_metadata path) top subdirs dirs w).
Proof.
  intros Hsub. induction dirs as [|d dirs IH]; intros n w.
  - unfold passes_agree. simpl. rewrite Nat.sub_diag.
    split_and!; [done|lia|apply advanced_refl|].
    intros _ Hs. split; [done|by apply completed_entries_refl].
  - simpl. destruct (find_child subdirs d) as [child|] eqn:Hc; [|apply IH].
    apply find_child_elem in Hc as (entry & Hin & <-).
    pose proof (proj1 (Forall_forall _ _) Hsub entry Hin (path_join top d) n w)
      as (Hb1 & Hn1 & Ha1 & He1).
    fold (counting (path_join top d) entry.2 n) in *.
    fold (walking (path_join top d) entry.2 w) in *.
    destruct (counting (path_join top d) entry.2 n) as [n1 b1].
    destruct (walking (path_join top d) entry.2 w) as [w1 s1].
    simpl in *. subst b1.
    pose proof (IH n1 w1) as (Hb2 & Hn2 & Ha2 & He2).
    destruct s1.
    + unfold passes_agree. simpl. split_and!; [done|lia| |].
      * eapply advanced_weaken; [|exact Ha1]. lia.
      * intros Hstop Hs. by destruct (He1 Hstop Hs).
    + unfold passes_agree. split_and!; [done|lia| |].
      * eapply advanced_weaken; [|eapply advanced_trans; [exact Ha1|exact Ha2]]. lia.
      * intros Hstop Hs. destruct (He1 Hstop Hs) as [_ Hc1].
        destruct (He2 Hstop (proj1 Hc1)) as [Hf Hc2]. split; [done|].
        replace (_ - n) with ((n1 - n) + ((descend (count_body settings path)
                                             top subdirs dirs n1).1 - n1)) by lia.
        by eapply completed_entries_trans.
Qed.

(** The two passes agree on every tree. *)
Lemma passes_agree_tree (t : tree) :
  ∀ top n w, passes_agree stop n w (counting top t n) (walking top t w).
Proof.
  induction t as [files subdirs IH] using tree_induction. intros top n w.
  unfold counting, walking. rewrite !os_walk_unfold, count_body_eq.
  pose proof (scan_body_advanced settings stop extract_metadata path top
                (dir_info <$> subdirs) files w) as Hadv.
  set (k := entries_here settings (dir_info <$> subdirs) files) in *.
  set (kept := prune settings path top _).
  pose proof (λ n w, descend_agree top subdirs kept IH n w) as Hdesc.
  destruct (scan_body settings stop extract_metadata path top
              (dir_info <$> subdirs) files w) as [[w1 dirs1] s1] eqn:Hbody.
  simpl in Hadv.
  destruct (Hdesc (n + k) w1) as (Hb & Hn & Ha & He).
  assert (stop = None → status (progress w) = Scanning →
          s1 = false ∧ dirs1 = kept ∧ completed_entries k w w1) as Hex.
  { intros -> Hs.
    destruct (scan_body_completed settings extract_metadata path top
                (dir_info <$> subdirs) files w Hs) as (w' & Heq & Hc).
    rewrite Heq in Hbody. by injection Hbody as <- <- <-. }
  destruct s1.
  - unfold passes_agree. simpl. split_and!; [done|lia| |].
    + eapply advanced_weaken; [|exact Hadv]. lia.
    + intros Hstop Hs. by destruct (Hex Hstop Hs).
  - assert (dirs1 = kept) as ->.
    { rewrite scan_body_eq in Hbody. destruct (poll stop w).2; [done|].
      by injection Hbody as _ <-. }
    destruct (Hdesc (n + k) w1) as (Hb' & Hn' & Ha' & He'). clear Hb Hn Ha He.
    unfold passes_agree. split_and!; [done|lia| |].
    + eapply advanced_weaken; [|eapply advanced_trans; [exact Hadv|exact Ha']]. lia.
    + intros Hstop Hs. destruct (Hex Hstop Hs) as (_ & _ & Hc1).
      destruct (He' Hstop (proj1 Hc1)) as [Hf Hc2]. split; [done|].
      replace (_ - n)
        with (k + ((descend (count_body settings path) top subdirs kept (n + k)).1
                   - (n + k))) by lia.
      by eapply completed_entries_trans.
Qed.
End Passes.

(** ** The scan as a whole *)

(** The reconciliation stage leaves the counters, the status, the times and
    the identity of the scan alone. *)
Lemma duplicate_stage_counters (fs : FirestoreService) (user_id : string)
    (scan_results : list Item) (report : result DuplicateReport) (now : Z)
    (p : ScanProgress) :
  let p' := duplicate_stage fs user_id scan_results report now p in
  total_items p' = total_items p ∧ processed_items p' = processed_items p
  ∧ status p' = status p ∧ end_time p' = end_time p.
Proof.
  unfold duplicate_stage. destruct report as [r|e]; simpl; [|done].
  by destruct (0 <? duplicatesFound r).
Qed.

Lemma finish_scan_counters (w : World) (library_path : string) (check_duplicates : bool)
    (user_id : option string) (existing_files existing_directories : option (list Item))
    (walk : Walk) :
  let final := finish_scan w library_path check_duplicates user_id existing_files
                 existing_directories walk in
  status final = Completed
  ∧ end_time final = Some (finish_time w)
  ∧ total_items final = total_items (progress walk)
  ∧ processed_items final = processed_items (progress walk).
Proof.
  unfold finish_scan. simpl.
  destruct (wants_duplicate_check check_duplicates user_id) as [uid|]; simpl; [|done].
  match goal with
  | |- context [duplicate_stage ?a ?b ?c ?d ?e ?f] =>
      destruct (duplicate_stage_counters a b c d e f) as (-> & -> & _)
  end.
  done.
Qed.

(** The two passes of a scan, on the trees that they find. *)
Lemma scan_passes_agree (w : World) (library_path : string) (extract_metadata : bool)
    (p0 : ScanProgress) :
  fs_count w = fs_scan w →
  let total := _count_items_sync (settings w) library_path (fs_count w) in
  let walk := scan_passes w library_path extract_metadata p0 in
  advanced total (mkWalk (set_total_items total p0) [] []) walk
  ∧ (stop w = None → status p0 = Scanning →
     completed_entries total (mkWalk (set_total_items total p0) [] []) walk).
Proof.
  intros Hfs. simpl. unfold scan_passes, _scan_directory_sync, _count_items_sync.
  rewrite Hfs.
  destruct (passes_agree_tree (settings w) (stop w) extract_metadata library_path
              (fs_scan w) library_path 0
              (mkWalk (set_total_items
                         (os_walk (count_body (settings w) library_path)
                            library_path (fs_scan w) 0).1 p0) [] []))
    as (_ & _ & Ha & He).
  rewrite Nat.sub_0_r in *. split; [exact Ha|].
  intros Hstop Hs. by destruct (He Hstop Hs).
Qed.

(** C4. Count/process agreement.  When both passes find the same tree and
    nobody cancels, the scan started by [start_scan] ends completed with
    [processed_items] equal to [total_items], which is what the counting
    pass counted; the processing pass notified one snapshot per counted
    entry. *)
Theorem count_process_agreement (w : World) (library_path : string)
    (extract_metadata check_duplicates : bool) (user_id : option string)
    (existing_files existing_directories : option (list Item))
    (scan_id : string) (now : Z) :
  fs_count w = fs_scan w → stop w = None →
  let p0 := new_progress scan_id library_path now in
  let final := _run_scan_async w library_path extract_metadata check_duplicates
                 user_id existing_files existing_directories p0 in
  status final = Completed
  ∧ total_items final = _count_items_sync (settings w) library_path (fs_scan w)
  ∧ processed_items final = total_items final
  ∧ length (notified (scan_passes w library_path extract_metadata p0))
    = total_items final.
Proof.
  intros Hfs Hstop. simpl. unfold _run_scan_async.
  destruct (finish_scan_counters w library_path check_duplicates user_id
              existing_files existing_directories
              (scan_passes w library_path extract_metadata
                 (new_progress scan_id library_path now)))
    as (Hst & _ & Htot & Hproc).
  destruct (scan_passes_agree w library_path extract_metadata
              (new_progress scan_id library_path now) Hfs) as [Ha He].
  destruct (He Hstop eq_refl) as (_ & Hp & Hn).
  destruct Ha as (_ & _ & Ht & _). simpl in *.
  rewrite Htot, Hproc, Ht, Hp, Hn, <- Hfs. done.
Qed.

Lemma count_process_agreement_witness :
  let final := _run_scan_async (sample_world None) "/media" false false None None None
                 (new_progress "scan-1" "/media" 0) in
  total_items final = 7 ∧ processed_items final = total_items final.
Proof.
  pose proof (count_process_agreement (sample_world None) "/media" false false None
                None None "scan-1" 0 eq_refl eq_refl) as (_ & Ht & Hp & _).
  split; [rewrite Ht; by vm_compute|exact Hp].
Defined.

(** A reflexive and transitive relation that every iteration of the loop
    respects is respected by the whole walk. *)
Lemma os_walk_invariant {W : Type} (R : W → W → Prop)
    (body : string → list DirInfo → list (string * option Stat) → W
            → W * list string * bool) :
  (∀ w, R w w) → (∀ a b c, R a b → R b c → R a c) →
  (∀ root dirs files w, R w (body root dirs files w).1.1) →
  ∀ t top w, R w (os_walk body top t w).1.
Proof.
  intros Hrefl Htrans Hbody.
  induction t as [files subdirs IH] using tree_induction. intros top w.
  rewrite os_walk_unfold. pose proof (Hbody top (dir_info <$> subdirs) files w) as H1.
  destruct (body top (dir_info <$> subdirs) files w) as [[w1 dirs] s1]. simpl in H1.
  destruct s1; [done|]. apply (Htrans _ w1); [done|]. clear H1. revert w1.
  induction dirs as [|d dirs IHd]; intros w1; simpl; [done|].
  destruct (find_child subdirs d) as [child|] eqn:Hc; [|apply IHd].
  apply find_child_elem in Hc as (entry & Hin & <-).
  pose proof (proj1 (Forall_forall _ _) IH entry Hin (path_join top d) w1) as H2.
  destruct (os_walk body (path_join top d) entry.2 w1) as [w2 s2]. simpl in H2.
  destruct s2; [done|]. by apply (Htrans _ w2).
Qed.

Section Untouched.
Context {A : Type} (f : ScanProgress → A).
Hypothesis Hf : untouched_by_walk f.

Lemma poll_untouched (stop : StopRequest) (w : Walk) :
  f (progress (poll stop w).1) = f (progress w).
Proof.
  destruct Hf as (_ & _ & Hs & He).
  unfold poll, cancel. destruct stop as [[n now]|]; simpl; [|done].
  repeat case_decide; simpl; by rewrite ?He, ?Hs.
Qed.

Lemma count_processed_untouched (info : option Item) (w : Walk) :
  f (progress (count_processed (append_result info w))) = f (progress w).
Proof.
  destruct Hf as (Hp & _). unfold count_processed. simpl.
  by rewrite Hp, (proj1 (append_result_progress info w)).
Qed.

Lemma process_dirs_untouched (settings : Settings) (stop : StopRequest)
    (root : string) (dirs : list DirInfo) (w : Walk) :
  f (progress (process_dirs settings stop root dirs w)) = f (progress w).
Proof.
  revert w. induction dirs as [|d dirs IH]; intros w; [done|].
  rewrite process_dirs_cons. destruct (poll stop w).2.
  - apply poll_untouched.
  - by rewrite IH, count_processed_untouched, poll_untouched.
Qed.

Lemma process_files_untouched (settings : Settings) (stop : StopRequest)
    (extract_metadata : bool) (root : string)
    (files : list (string * option Stat)) (w : Walk) :
  f (progress (process_files settings stop extract_metadata root files w))
  = f (progress w).
Proof.
  revert w. induction files as [|[name st] files IH]; intros w; [done|].
  rewrite process_files_cons. destruct (poll stop w).2.
  - apply poll_untouched.
  - destruct (negb (_is_media_file settings name)).
    + by rewrite IH, poll_untouched.
    + by rewrite IH, count_processed_untouched, poll_untouched.
Qed.

Lemma scan_body_untouched (settings : Settings) (stop : StopRequest)
    (extract_metadata : bool) (path root : string) (dirs : list DirInfo)
    (files : list (string * option Stat)) (w : Walk) :
  f (progress (scan_body settings stop extract_metadata path root dirs files w).1.1)
  = f (progress w).
Proof.
  rewrite scan_body_eq. destruct (poll stop w).2 eqn:Hc; cbn [fst snd].
  - apply poll_untouched.
  - rewrite process_files_untouched, process_dirs_untouched. cbn [progress].
    destruct Hf as (_ & Hcur & _). by rewrite Hcur, poll_untouched.
Qed.

(** The processing pass leaves the observation as it found it. *)
Lemma scan_directory_untouched (settings : Settings) (stop : StopRequest)
    (directory_path : string) (fs : tree) (extract_metadata : bool)
    (p : ScanProgress) :
  f (progress (_scan_directory_sync settings stop directory_path fs
                 extract_metadata p))
  = f p.
Proof.
  unfold _scan_directory_sync.
  apply (os_walk_invariant (λ w w', f (progress w') = f (progress w))
           (scan_body settings stop extract_metadata directory_path)).
  - done.
  - intros a b c Hab Hbc. by rewrite Hbc.
  - intros. apply scan_body_untouched.
Qed.
End Untouched.

Lemma duplicate_report_untouched : untouched_by_walk duplicate_report.
Proof. by repeat split. Qed.

Lemma errors_untouched : untouched_by_walk errors.
Proof. by repeat split. Qed.

Lemma scan_id_untouched : untouched_by_walk scan_id.
Proof. by repeat split. Qed.

Lemma start_time_untouched : untouched_by_walk start_time.
Proof. by repeat split. Qed.

(** C10. Implicit caller-id gate.  A scan started with check_duplicates on
    but without a user id ([None], or the empty string, which is as falsy)
    runs no reconciliation, whatever existing data was supplied: it ends
    completed, its duplicate report is absent, its scan results are all the
    items that the processing pass collected, and the whole final record is
    the one of the same scan with check_duplicates off. *)
Theorem caller_id_gate (w : World) (library_path : string) (extract_metadata : bool)
    (user_id : option string)
    (existing_files existing_directories : option (list Item))
    (scan_id : string) (now : Z) :
  user_id = None ∨ user_id = Some "" →
  let p0 := new_progress scan_id library_path now in
  let final := _run_scan_async w library_path extract_metadata true user_id
                 existing_files existing_directories p0 in
  status final = Completed
  ∧ duplicate_report final = None
  ∧ scan_results final = results (scan_passes w library_path extract_metadata p0)
  ∧ final = _run_scan_async w library_path extract_metadata false user_id
              existing_files existing_directories p0.
Proof.
  intros Hu. simpl. unfold _run_scan_async, finish_scan.
  assert (wants_duplicate_check true user_id = None) as ->
    by (destruct Hu as [-> | ->]; done).
  assert (wants_duplicate_check false user_id = None) as ->
    by (destruct Hu as [-> | ->]; done).
  split_and!; try done. simpl. unfold scan_passes.
  by rewrite (scan_directory_untouched duplicate_report duplicate_report_untouched).
Qed.

Lemma caller_id_gate_witness :
  let doc := stored_file "/media" "/media/a.mp4" 100 2 "unknown" in
  let final := _run_scan_async (sample_world None) "/media" false true None
                 (Some [doc]) (Some []) (new_progress "scan-1" "/media" 0) in
  duplicate_report final = None ∧ length (scan_results final) = 6.
Proof.
  pose proof (caller_id_gate (sample_world None) "/media" false None
                (Some [stored_file "/media" "/media/a.mp4" 100 2 "unknown"]) (Some [])
                "scan-1" 0 (or_introl eq_refl)) as (_ & Hr & Hs & _).
  split; [exact Hr|]. rewrite Hs. by vm_compute.
Defined.

(** ** Cancellation *)

(** [stop_scan] leaves a record in a terminal status alone. *)
Lemma cancel_terminal (now : Z) (p : ScanProgress) :
  terminal (status p) = true → cancel now p = (p, false).
Proof. unfold cancel. by destruct (status p). Qed.

Lemma cancel_scanning (now : Z) (p : ScanProgress) :
  status p = Scanning →
  cancel now p = (set_end_time (Some now) (set_status Cancelled p), true).
Proof. unfold cancel. by intros ->. Qed.

(** Whatever happened during the walk, the task ends by writing
    ["completed"] and a new end time. *)
Lemma run_scan_ends_completed (w : World) (library_path : string)
    (extract_metadata check_duplicates : bool) (user_id : option string)
    (existing_files existing_directories : option (list Item)) (p0 : ScanProgress) :
  let final := _run_scan_async w library_path extract_metadata check_duplicates
                 user_id existing_files existing_directories p0 in
  status final = Completed ∧ end_time final = Some (finish_time w).
Proof.
  simpl. unfold _run_scan_async.
  by destruct (finish_scan_counters w library_path check_duplicates user_id
                 existing_files existing_directories
                 (scan_passes w library_path extract_metadata p0)) as (? & ? & _).
Qed.

(** C3 (the code departs from the claim).  The sample library is scanned
    and [stop_scan] arrives when two entries have been processed.  The
    registry call answers [True] and the record becomes cancelled with end
    time 50, a terminal status; the processing pass stops there.  (The
    snapshot [p2] is the record as the second notification showed it.)  When the
    pass returns, the task stores the partial results and then overwrites
    the status with completed and the end time with 99. *)
Theorem cancelled_scan_ends_completed :
  let w := sample_world (Some (2, 50%Z)) in
  let p0 := new_progress "scan-1" "/media" 0 in
  let walk := scan_passes w "/media" false p0 in
  let final := _run_scan_async w "/media" false false None None None p0 in
  (∃ p2, notified walk !! 1 = Some p2 ∧ status p2 = Scanning
         ∧ stop_scan {[ "scan-1" := p2 ]} "scan-1" 50
           = ({[ "scan-1" := progress walk ]}, true))
  ∧ status (progress walk) = Cancelled
  ∧ terminal (status (progress walk)) = true
  ∧ end_time (progress walk) = Some 50%Z
  ∧ processed_items (progress walk) = 2
  ∧ scan_results (progress walk) = []
  ∧ status final = Completed
  ∧ end_time final = Some 99%Z
  ∧ length (scan_results final) = 2
  ∧ total_items final = 7 ∧ processed_items final = 2.
Proof.
  split.
  - eexists. split; [by vm_compute|]. split; by vm_compute.
  - by vm_compute.
Qed.

(** ** Reconciliation inside a scan *)

(** Neither reconciler lets an exception escape: the call made by
    [_run_scan_async] returns the report of the attempt, or the fallback
    report when the attempt raised. *)
Lemma reconcile_catches (fs : FirestoreService) (scan_results : list Item)
    (user_id library_path : string)
    (existing_files existing_directories : option (list Item)) :
  reconcile fs scan_results user_id library_path existing_files existing_directories
  = Ok match reconcile_attempt fs scan_results user_id library_path
               existing_files existing_directories with
       | Ok t => report_of t
       | Raise e => fallback_report scan_results e
       end.
Proof.
  unfold reconcile, reconcile_attempt.
  by destruct (bool_decide (is_Some existing_files)
               || bool_decide (is_Some existing_directories)).
Qed.

(** Had the call to the reconciler raised, the [except] clause of
    [_run_scan_async] would have appended a [duplicate_check_error] entry
    and left the report, the results and the counters alone. *)
Lemma escaped_exception_recorded (fs : FirestoreService) (user_id : string)
    (found : list Item) (e : exn) (now : Z) (p : ScanProgress) :
  let p' := duplicate_stage fs user_id found (Raise e) now p in
  errors p' = errors p ++ [mkError "duplicate_check_error" (exn_str e) None now]
  ∧ duplicate_report p' = duplicate_report p
  ∧ scan_results p' = scan_results p
  ∧ files_found p' = files_found p ∧ directories_found p' = directories_found p.
Proof. done. Qed.

(** C5 (the code departs from the claim).  Firestore is not initialised
    and the caller supplies, as existing files and directories, the six
    items of the sample library exactly as a previous scan of /media stored
    them.  The reconciler counts six duplicates, no new item and no
    difference; the set of duplicate paths, filled from the differences and
    from Firestore, stays empty, and all six duplicates remain in the final
    scan results. *)
Theorem exact_duplicates_survive_filter :
  let w := sample_world None in
  let p0 := new_progress "scan-1" "/media" 0 in
  let known := stored_under "/media" <$> results (scan_passes w "/media" false p0) in
  let final := _run_scan_async w "/media" false true (Some "user")
                 (Some known) (Some known) p0 in
  duplicate_report final = Some (mkReport 6 0 [] None)
  ∧ scan_results final = results (scan_passes w "/media" false p0)
  ∧ length (scan_results final) = 6
  ∧ files_found final = 3 ∧ directories_found final = 3.
Proof. by vm_compute. Qed.

(** C7 (as amended).  When the reconciliation attempt of a scan raises, the
    reconciler catches the exception and returns the fallback report; the
    scan ends completed, the fallback report (no duplicate, every scan result
    counted as new, no differences, the message under "error") is stored as
    the duplicate report, nothing is appended to the errors list, and the
    scan results and the counters are those that the walk left. *)
Theorem reconciliation_failure_is_contained (w : World) (library_path : string)
    (extract_metadata : bool) (user_id : string)
    (existing_files existing_directories : option (list Item))
    (p0 : ScanProgress) (e : exn) :
  let walk := scan_passes w library_path extract_metadata p0 in
  let final := _run_scan_async w library_path extract_metadata true (Some user_id)
                 existing_files existing_directories p0 in
  str_truthy user_id = true →
  reconcile_attempt (firestore w) (results walk) user_id library_path
    existing_files existing_directories = Raise e →
  status final = Completed
  ∧ duplicate_report final
    = Some (mkReport 0 (length (results walk)) [] (Some (exn_str e)))
  ∧ errors final = errors p0
  ∧ scan_results final = results walk
  ∧ files_found final = count_type "file" (results walk)
  ∧ directories_found final = count_type "directory" (results walk)
  ∧ total_items final = total_items (progress walk)
  ∧ processed_items final = processed_items (progress walk).
Proof.
  simpl. intros Hu Hraise. unfold _run_scan_async, finish_scan. simpl.
  rewrite Hu, reconcile_catches, Hraise. simpl. split_and!; try done.
  unfold scan_passes.
  by rewrite (scan_directory_untouched errors errors_untouched).
Qed.

Lemma reconciliation_failure_is_contained_witness :
  let w := sample_world None in
  let p0 := new_progress "scan-1" "/media" 0 in
  let bad := mkItem None (Some "/media/a.mp4") (Some "/media") None None
               (Some (VScalar SNone)) 0 in
  let final := _run_scan_async w "/media" false true (Some "user")
                 (Some [bad]) None p0 in
  duplicate_report final
  = Some (mkReport 0 6 [] (Some "'NoneType' object has no attribute 'get'"))
  ∧ errors final = [].
Proof.
  pose proof (reconciliation_failure_is_contained (sample_world None) "/media" false
                "user"
                (Some [mkItem None (Some "/media/a.mp4") (Some "/media") None None
                         (Some (VScalar SNone)) 0])
                None (new_progress "scan-1" "/media" 0)
                (no_attribute "NoneType") eq_refl ltac:(by vm_compute))
    as (_ & Hr & He & _).
  split; [rewrite Hr; by vm_compute|exact He].
Defined.

(** C7 as claimed fails: the supplied inventory holds /media/a.mp4 with a
    null metadata; the comparison raises inside the reconciler, the scan
    completes, and the errors list stays empty. *)
Lemma reconciliation_failure_counterexample :
  let w := sample_world None in
  let p0 := new_progress "scan-1" "/media" 0 in
  let bad := mkItem None (Some "/media/a.mp4") (Some "/media") None None
               (Some (VScalar SNone)) 0 in
  let walk := scan_passes w "/media" false p0 in
  let final := _run_scan_async w "/media" false true (Some "user")
                 (Some [bad]) None p0 in
  reconcile_attempt (firestore w) (results walk) "user" "/media" (Some [bad]) None
  = Raise (no_attribute "NoneType")
  ∧ status final = Completed
  ∧ errors final = errors (progress walk)
  ∧ ¬ ∃ entry, entry ∈ errors final.
Proof.
  cbv zeta. split_and!; [by vm_compute..|].
  intros [entry H]. vm_compute in H. by apply elem_of_nil in H.
Qed.

(** ** Percentage *)

Lemma round_half_even_nonneg (n d : Z) :
  (0 ≤ n)%Z → (0 < d)%Z → (0 ≤ round_half_even n d)%Z.
Proof.
  intros Hn Hd. unfold round_half_even.
  pose proof (Z.div_pos n d Hn Hd).
  repeat case_match; lia.
Qed.

(** Rounding never goes past an integer that the quotient does not pass. *)
Lemma round_half_even_le (n d m : Z) :
  (0 < d)%Z → (n ≤ m * d)%Z → (round_half_even n d ≤ m)%Z.
Proof.
  intros Hd Hn. unfold round_half_even.
  pose proof (Z.div_mod n d ltac:(lia)) as Hdm.
  pose proof (Z.mod_pos_bound n d Hd) as Hr.
  repeat case_match;
    repeat match goal with
           | H : (_ <? _)%Z = true |- _ => apply Z.ltb_lt in H
           | H : (_ <? _)%Z = false |- _ => apply Z.ltb_ge in H
           end; nia.
Qed.

(** The rounded value is an integer nearest to the quotient. *)
Lemma round_half_even_nearest (n d : Z) :
  (0 < d)%Z → (Z.abs (2 * (round_half_even n d * d - n)) ≤ d)%Z.
Proof.
  intros Hd. unfold round_half_even.
  pose proof (Z.div_mod n d ltac:(lia)) as Hdm.
  pose proof (Z.mod_pos_bound n d Hd) as Hr.
  repeat case_match;
    repeat match goal with
           | H : (_ <? _)%Z = true |- _ => apply Z.ltb_lt in H
           | H : (_ <? _)%Z = false |- _ => apply Z.ltb_ge in H
           end; nia.
Qed.

Lemma percentage_zero_total (p : ScanProgress) :
  total_items p = 0 → percentage p = S754_zero false.
Proof. unfold percentage. by intros ->. Qed.

(** The percentage is rounded to two decimals as Python rounds a [float]:
    1 of 7 gives 14.29, 1 of 3 gives 33.33, 160 of 160 gives 100.0, and 23
    of 160, whose quotient times 100 is the [float] just below 14.375,
    gives 14.37. *)
Lemma percentage_rounds_the_float :
  let shows processed total :=
    percentage (set_processed_items processed
                  (set_total_items total (new_progress "scan-1" "/media" 0))) in
  shows 1 7 = float_of_ratio false 1429 100
  ∧ shows 1 3 = float_of_ratio false 3333 100
  ∧ shows 160 160 = float_of_ratio false 100 1
  ∧ shows 23 160 = float_of_ratio false 1437 100
  ∧ shows 23 160 ≠ float_of_ratio false 1438 100.
Proof. cbv zeta. split_and!; by vm_compute. Qed.

(** In every state that a scan shows while both passes find the same
    tree, the counter is within the total. *)
Lemma observable_within_total (w : World) (library_path : string)
    (extract_metadata check_duplicates : bool) (user_id : option string)
    (existing_files existing_directories : option (list Item))
    (scan_id : string) (now : Z) (p : ScanProgress) :
  fs_count w = fs_scan w →
  p ∈ observable_states w library_path extract_metadata check_duplicates user_id
        existing_files existing_directories (new_progress scan_id library_path now) →
  processed_items p ≤ total_items p.
Proof.
  intros Hfs. unfold observable_states.
  destruct (scan_passes_agree w library_path extract_metadata
              (new_progress scan_id library_path now) Hfs)
    as [(_ & Hle & Htot & new & Hnew & Hall) _].
  destruct (finish_scan_counters w library_path check_duplicates user_id
              existing_files existing_directories
              (scan_passes w library_path extract_metadata
                 (new_progress scan_id library_path now)))
    as (_ & _ & Hft & Hfp).
  simpl in Hle, Htot, Hnew, Hall.
  rewrite !elem_of_app, !elem_of_cons, elem_of_nil.
  intros [[-> | [-> | []]] | [Hin | [-> | [-> | []]]]].
  - simpl. lia.
  - simpl. lia.
  - rewrite Hnew in Hin.
    destruct (proj1 (Forall_forall _ _) Hall p Hin) as [-> ?]. lia.
  - lia.
  - lia.
Qed.

(** C8.  The claim bounds the percentage of every state that a scan shows
    by 100, as the docstring of [ScanProgress] does ("completion percentage
    (0-100)").  [percentage] divides the counter by the total without
    comparing them, and the total is fixed by the counting pass before the
    processing pass walks the tree again.  Here a second file appears in
    the library between the two passes: the scan completes with 2 of 1
    entries processed, and the last state it shows has the percentage
    200.0.  A record with 3 of 2 entries has the percentage 150.0. *)
Theorem percentage_exceeds_100 :
  let states := observable_states growing_world "/media" false false None None None
                  (new_progress "scan-1" "/media" 0) in
  let final := _run_scan_async growing_world "/media" false false None None None
                 (new_progress "scan-1" "/media" 0) in
  last states = Some final
  ∧ status final = Completed
  ∧ errors final = []
  ∧ total_items final = 1
  ∧ processed_items final = 2
  ∧ percentage final = float_of_ratio false 200 1
  ∧ SFltb (float_of_ratio false 100 1) (percentage final) = true
  ∧ percentage (set_processed_items 3
                  (set_total_items 2 (new_progress "scan-1" "/media" 0)))
    = float_of_ratio false 150 1.
Proof. cbv zeta. split_and!; by vm_compute. Qed.

(** * The registry of scans *)

Lemma stop_scan_unknown (running_scans : gmap string ScanProgress) (scan_id : string)
    (now : Z) :
  running_scans !! scan_id = None →
  stop_scan running_scans scan_id now = (running_scans, false).
Proof. intros H. unfold stop_scan. by rewrite H. Qed.

Lemma stop_scan_known (running_scans : gmap string ScanProgress) (scan_id : string)
    (now : Z) (p : ScanProgress) :
  running_scans !! scan_id = Some p →
  stop_scan running_scans scan_id now =
    if decide (status p = Scanning)
    then (<[scan_id := set_end_time (Some now) (set_status Cancelled p)]> running_scans,
          true)
    else (running_scans, false).
Proof.
  intros H. unfold stop_scan, cancel. rewrite H.
  destruct (decide (status p = Scanning)); [done|].
  by rewrite insert_id.
Qed.

(** X1 [stop_scan]: the call answers [True] exactly for a registered scan
    whose status is "scanning"; it then stores the status "cancelled" and the
    end time, and leaves every other scan alone.  A call that answers [False]
    changes nothing, a second call always answers [False], and the call never
    changes what [get_scan_results] hands out. *)
Theorem stop_scan_once (running_scans : gmap string ScanProgress)
    (scan_id : string) (t1 t2 : Z) :
  let first := stop_scan running_scans scan_id t1 in
  (first.2 = true ↔ ∃ p, running_scans !! scan_id = Some p ∧ status p = Scanning)
  ∧ (first.2 = false → first.1 = running_scans)
  ∧ (∀ p, running_scans !! scan_id = Some p → status p = Scanning →
       first.1 !! scan_id = Some (set_end_time (Some t1) (set_status Cancelled p)))
  ∧ (∀ other, other ≠ scan_id → first.1 !! other = running_scans !! other)
  ∧ stop_scan first.1 scan_id t2 = (first.1, false)
  ∧ (∀ any, get_scan_results first.1 any = get_scan_results running_scans any).
Proof.
  cbv zeta.
  destruct (running_scans !! scan_id) as [p|] eqn:Hp.
  - rewrite (stop_scan_known _ _ _ _ Hp).
    destruct (decide (status p = Scanning)) as [Hs|Hs]; cbn [fst snd].
    + split_and!.
      * split; [eauto|done].
      * done.
      * intros p' [= <-] _. by rewrite lookup_insert_eq.
      * intros other Ho. by rewrite lookup_insert_ne.
      * erewrite stop_scan_known by apply lookup_insert_eq.
        by rewrite decide_False.
      * intros any. unfold get_scan_results.
        destruct (decide (any = scan_id)) as [->|Hne].
        -- rewrite lookup_insert_eq, Hp. cbn.
           rewrite Hs. by repeat case_decide.
        -- by rewrite lookup_insert_ne.
    + split_and!; try done.
      * split; [done|]. intros (p' & [= <-] & ?). done.
      * by intros p' [= <-] ?.
      * rewrite (stop_scan_known _ _ _ _ Hp). by rewrite decide_False.
  - rewrite (stop_scan_unknown _ _ _ Hp). cbn [fst snd].
    split_and!; try done.
    + split; [done|]. by intros (p' & ? & ?).
    + by rewrite (stop_scan_unknown _ _ _ Hp).
Qed.

Lemma stop_scan_once_witness :
  let scans : gmap string ScanProgress := {[ "scan-1" := new_progress "scan-1" "/media" 0 ]} in
  (stop_scan scans "scan-1" 5).2 = true
  ∧ (stop_scan scans "scan-1" 5).1 !! "scan-1"
    = Some (set_end_time (Some 5%Z) (set_status Cancelled (new_progress "scan-1" "/media" 0)))
  ∧ (stop_scan scans "other" 5).1 = scans.
Proof.
  pose (scans := ({[ "scan-1" := new_progress "scan-1" "/media" 0 ]}
                  : gmap string ScanProgress)).
  split_and!.
  - apply (proj1 (stop_scan_once scans "scan-1" 5 6)).
    eexists. split; [apply lookup_singleton_eq|reflexivity].
  - apply (proj1 (proj2 (proj2 (stop_scan_once scans "scan-1" 5 6)))).
    + apply lookup_singleton_eq.
    + reflexivity.
  - apply (proj1 (proj2 (stop_scan_once scans "other" 5 6))). reflexivity.
Defined.

Lemma cleanup_fold_lookup {C : Type} (ids : list string)
    (scans : gmap string ScanProgress) (callbacks : gmap string C) (id : string) :
  let after :=
    foldl (λ tables scan_id, (delete scan_id tables.1, delete scan_id tables.2))
          (scans, callbacks) ids in
  after.1 !! id = (if decide (id ∈ ids) then None else scans !! id)
  ∧ after.2 !! id = (if decide (id ∈ ids) then None else callbacks !! id).
Proof.
  cbv zeta. revert scans callbacks.
  induction ids as [|x ids IH]; intros scans callbacks.
  - by simpl.
  - cbn [foldl fst snd]. destruct (IH (delete x scans) (delete x callbacks)) as [-> ->].
    destruct (decide (id = x)) as [->|Hne].
    + destruct (decide (x ∈ x :: ids)); [|set_solver].
      rewrite !lookup_delete_eq. split; by case_decide.
    + rewrite !lookup_delete_ne by done.
      split; repeat case_decide; try done; set_solver.
Qed.

Lemma elem_of_to_remove (now age : Z) (scans : gmap string ScanProgress) (id : string) :
  id ∈ (filter (λ entry : string * ScanProgress, removable now age entry.2 = true)
               (map_to_list scans)).*1
  ↔ ∃ p, scans !! id = Some p ∧ removable now age p = true.
Proof.
  rewrite list_elem_of_fmap. split.
  - intros ([id' p] & -> & Hin). apply list_elem_of_filter in Hin as [Hr Hin].
    apply elem_of_map_to_list in Hin. eauto.
  - intros (p & Hp & Hr). exists (id, p). split; [done|].
    apply list_elem_of_filter. split; [done|]. by apply elem_of_map_to_list.
Qed.

Lemma cleanup_lookup {C : Type} (scans : gmap string ScanProgress)
    (callbacks : gmap string C) (now hours : Z) (id : string) :
  let after := cleanup_completed_scans scans callbacks now hours in
  let gone :=
    match scans !! id with
    | Some p => removable now (hours * 3600) p
    | None => false
    end in
  after.1 !! id = (if gone then None else scans !! id)
  ∧ after.2 !! id = (if gone then None else callbacks !! id).
Proof.
  cbv zeta. unfold cleanup_completed_scans.
  match goal with
  | |- context [foldl _ _ ?ids] =>
      destruct (cleanup_fold_lookup ids scans callbacks id) as [-> ->];
      pose proof (elem_of_to_remove now (hours * 3600) scans id) as Hiff
  end.
  case_decide as Hin.
  - apply Hiff in Hin as (p & -> & ->). done.
  - destruct (scans !! id) as [p|] eqn:Hp; [|done].
    destruct (removable now (hours * 3600) p) eqn:Hr; [|done].
    exfalso. apply Hin, Hiff. eauto.
Qed.

(** X2 [cleanup_completed_scans]: a scan is removed exactly when its status
    is one of "completed", "cancelled", "error" and its end time is set, not
    zero, and more than [max_age_hours] hours old; its callback goes with it.
    Every other scan and every other callback stays as it was, a scan that is
    still running is never removed whatever the age limit, and running the
    cleanup again at the same time removes nothing more. *)
Theorem cleanup_removes_old_finished_scans {C : Type}
    (running_scans : gmap string ScanProgress) (scan_callbacks : gmap string C)
    (current_time max_age_hours : Z) :
  let after :=
    cleanup_completed_scans running_scans scan_callbacks current_time max_age_hours in
  (∀ scan_id,
     after.1 !! scan_id = None
     ↔ (running_scans !! scan_id = None
        ∨ ∃ p t, running_scans !! scan_id = Some p
                 ∧ status p ≠ Scanning ∧ end_time p = Some t ∧ t ≠ 0%Z
                 ∧ (max_age_hours * 3600 < current_time - t)%Z))
  ∧ (∀ scan_id p, after.1 !! scan_id = Some p → running_scans !! scan_id = Some p)
  ∧ (∀ scan_id,
       after.2 !! scan_id =
         if bool_decide (is_Some (running_scans !! scan_id)
                         ∧ after.1 !! scan_id = None)
         then None else scan_callbacks !! scan_id)
  ∧ (∀ scan_id p, running_scans !! scan_id = Some p → status p = Scanning →
       after.1 !! scan_id = Some p)
  ∧ cleanup_completed_scans after.1 after.2 current_time max_age_hours = after.
Proof.
  cbv zeta.
  set (after := cleanup_completed_scans running_scans scan_callbacks current_time
                  max_age_hours).
  assert (Hrem : ∀ p, removable current_time (max_age_hours * 3600) p = true
                 ↔ ∃ t, status p ≠ Scanning ∧ end_time p = Some t ∧ t ≠ 0%Z
                        ∧ (max_age_hours * 3600 < current_time - t)%Z).
  { intros p. unfold removable. rewrite andb_true_iff, bool_decide_eq_true. split.
    - intros [Hs Ht]. destruct (end_time p) as [t|]; [|done].
      apply andb_true_iff in Ht as [Hz Hlt]. exists t. split_and!; [|done|lia|lia].
      intros Heq. rewrite Heq in Hs. set_solver.
    - intros (t & Hs & -> & Hz & Hlt). split.
      + destruct (status p); [done|set_solver..].
      + apply andb_true_iff. split; lia. }
  assert (H1 : ∀ scan_id,
             after.1 !! scan_id = None
             ↔ (running_scans !! scan_id = None
                ∨ ∃ p, running_scans !! scan_id = Some p
                       ∧ removable current_time (max_age_hours * 3600) p = true)).
  { intros scan_id.
    destruct (cleanup_lookup running_scans scan_callbacks current_time max_age_hours
                scan_id) as [E1 _].
    fold after in E1. rewrite E1. clear E1.
    destruct (running_scans !! scan_id) as [p|]; [|naive_solver].
    destruct (removable _ _ p) eqn:Hr; [naive_solver|].
    split; [done|]. intros [?|(p' & [= <-] & ?)]; congruence. }
  assert (H2 : ∀ scan_id p, after.1 !! scan_id = Some p →
                 running_scans !! scan_id = Some p
                 ∧ removable current_time (max_age_hours * 3600) p = false).
  { intros scan_id p.
    destruct (cleanup_lookup running_scans scan_callbacks current_time max_age_hours
                scan_id) as [E1 _].
    fold after in E1. rewrite E1. clear E1.
    destruct (running_scans !! scan_id) as [p'|]; [|done].
    destruct (removable _ _ p') eqn:Hr; [done|]. by intros [= <-]. }
  split_and!.
  - intros scan_id. rewrite H1. split.
    + intros [?|(p & Hp & Hr)]; [by left|right].
      apply Hrem in Hr as (t & ?). exists p, t. tauto.
    + intros [?|(p & t & Hp & Hr)]; [by left|right].
      exists p. split; [done|]. apply Hrem. eauto.
  - intros scan_id p Hp. by apply H2.
  - intros scan_id.
    destruct (cleanup_lookup running_scans scan_callbacks current_time max_age_hours
                scan_id) as [E1 E2].
    fold after in E1, E2. rewrite E2, E1.
    destruct (running_scans !! scan_id) as [p|] eqn:Hp.
    + destruct (removable _ _ p).
      * rewrite bool_decide_eq_true_2; [done|]. split; [eauto|done].
      * rewrite bool_decide_eq_false_2; [done|]. by intros [_ ?].
    + rewrite bool_decide_eq_false_2; [done|]. intros [[? ?] _]. done.
  - intros scan_id p Hp Hs.
    destruct (cleanup_lookup running_scans scan_callbacks current_time max_age_hours
                scan_id) as [E1 _].
    fold after in E1. rewrite E1, Hp.
    replace (removable current_time (max_age_hours * 3600) p) with false; [done|].
    unfold removable. rewrite Hs. rewrite bool_decide_eq_false_2; [done|]. set_solver.
  - destruct (cleanup_completed_scans after.1 after.2 current_time max_age_hours)
      as [s2 c2] eqn:E.
    assert (Hl : ∀ scan_id, s2 !! scan_id = after.1 !! scan_id
                            ∧ c2 !! scan_id = after.2 !! scan_id).
    { intros scan_id.
      destruct (cleanup_lookup after.1 after.2 current_time max_age_hours scan_id)
        as [E1 E2].
      rewrite E in E1, E2. cbn [fst snd] in E1, E2. rewrite E1, E2.
      destruct (after.1 !! scan_id) as [p|] eqn:Hp; [|done].
      apply H2 in Hp as [_ ->]. done. }
    destruct after as [s1 c1]. cbn [fst snd] in Hl.
    f_equal; apply map_eq; intros i; apply Hl.
Qed.

Lemma cleanup_removes_old_finished_scans_witness :
  let running := new_progress "scan-1" "/media" 0 in
  let scans : gmap string ScanProgress := {[ "scan-1" := running ]} in
  (cleanup_completed_scans scans (∅ : gmap string unit) 1000000 0).1 !! "scan-1"
  = Some running.
Proof.
  cbv zeta.
  apply (proj1 (proj2 (proj2 (proj2
           (cleanup_removes_old_finished_scans
              ({[ "scan-1" := new_progress "scan-1" "/media" 0 ]}
               : gmap string ScanProgress)
              (∅ : gmap string unit) 1000000 0))))).
  - apply lookup_singleton_eq.
  - reflexivity.
Defined.

Lemma active_scans_perm (m1 m2 : gmap string ScanProgress) (extra : list ScanProgress) :
  (map_to_list m1).*2 ≡ₚ extra ++ (map_to_list m2).*2 →
  length (active_scans m1)
  = length (filter (λ s, status s = Scanning) extra) + length (active_scans m2).
Proof.
  intros Hp. unfold active_scans. rewrite Hp, filter_app, length_app. done.
Qed.

Lemma active_scans_insert (scans : gmap string ScanProgress) (id : string)
    (p : ScanProgress) :
  length (active_scans (<[id := p]> scans))
  + length (filter (λ s, status s = Scanning) (option_list (scans !! id)))
  = length (filter (λ s, status s = Scanning) [p]) + length (active_scans scans).
Proof.
  rewrite <- (insert_delete_eq scans id p).
  rewrite (active_scans_perm (<[id := p]> (delete id scans)) (delete id scans) [p]).
  2:{ rewrite map_to_list_insert by apply lookup_delete_eq. done. }
  destruct (scans !! id) as [q|] eqn:Hq.
  - rewrite (active_scans_perm scans (delete id scans) [q]).
    2:{ rewrite <- (map_to_list_delete scans id q Hq). done. }
    simpl. lia.
  - rewrite delete_id by done. simpl. lia.
Qed.

(** X3 [start_scan]: with the fresh identifier that [uuid4] draws, the call
    raises exactly when the number of scans whose status is "scanning" has
    reached [max_concurrent_scans]; otherwise it registers a new progress
    object under the identifier, leaves every other scan alone, and the
    number of scanning scans grows by one without passing the ceiling. *)
Theorem start_scan_respects_ceiling (settings : Settings)
    (running_scans : gmap string ScanProgress) (scan_id library_path : string)
    (now : Z) :
  running_scans !! scan_id = None →
  match start_scan settings running_scans scan_id library_path now with
  | Raise e =>
      max_concurrent_scans settings ≤ length (active_scans running_scans)
      ∧ e = ScanOperationError "Maximum concurrent scans reached"
  | Ok scans' =>
      length (active_scans running_scans) < max_concurrent_scans settings
      ∧ scans' !! scan_id = Some (new_progress scan_id library_path now)
      ∧ status (new_progress scan_id library_path now) = Scanning
      ∧ (∀ other, other ≠ scan_id → scans' !! other = running_scans !! other)
      ∧ length (active_scans scans') = S (length (active_scans running_scans))
      ∧ length (active_scans scans') ≤ max_concurrent_scans settings
  end.
Proof.
  intros Hfresh. unfold start_scan. fold (active_scans running_scans).
  destruct (max_concurrent_scans settings <=? length (active_scans running_scans))
    eqn:Hfull.
  - apply Nat.leb_le in Hfull. done.
  - apply Nat.leb_gt in Hfull.
    pose proof (active_scans_insert running_scans scan_id
                  (new_progress scan_id library_path now)) as Hins.
    rewrite Hfresh in Hins. simpl in Hins.
    split_and!; [done|apply lookup_insert_eq|done| |lia|lia].
    intros other Ho. by rewrite lookup_insert_ne.
Qed.

Lemma start_scan_respects_ceiling_witness :
  match start_scan default_settings ∅ "scan-1" "/media" 0 with
  | Raise e =>
      max_concurrent_scans default_settings ≤ length (active_scans ∅)
      ∧ e = ScanOperationError "Maximum concurrent scans reached"
  | Ok scans' =>
      length (active_scans ∅) < max_concurrent_scans default_settings
      ∧ scans' !! "scan-1" = Some (new_progress "scan-1" "/media" 0)
      ∧ status (new_progress "scan-1" "/media" 0) = Scanning
      ∧ (∀ other, other ≠ "scan-1" → scans' !! other = (∅ : gmap string ScanProgress) !! other)
      ∧ length (active_scans scans') = S (length (active_scans ∅))
      ∧ length (active_scans scans') ≤ max_concurrent_scans default_settings
  end.
Proof.
  apply (start_scan_respects_ceiling default_settings ∅ "scan-1" "/media" 0).
  apply lookup_empty.
Defined.

(** X4 [stop_scan] and the ceiling of [start_scan]: a successful
    [stop_scan] lowers the number of scans counted against
    [max_concurrent_scans] by exactly one, at once; an unsuccessful one leaves
    it as it was.  On a full registry the next [start_scan] is refused before
    the stop and accepted after it. *)
Theorem stop_scan_frees_slot (settings : Settings)
    (running_scans : gmap string ScanProgress) (scan_id next_id library_path : string)
    (now : Z) :
  let after := stop_scan running_scans scan_id now in
  length (active_scans after.1) + Nat.b2n after.2 = length (active_scans running_scans)
  ∧ (length (active_scans running_scans) = max_concurrent_scans settings →
     after.2 = true →
     (∃ e, start_scan settings running_scans next_id library_path now = Raise e)
     ∧ ∃ scans', start_scan settings after.1 next_id library_path now = Ok scans').
Proof.
  cbv zeta.
  assert (Hcount : length (active_scans (stop_scan running_scans scan_id now).1)
                   + Nat.b2n (stop_scan running_scans scan_id now).2
                   = length (active_scans running_scans)).
  { destruct (running_scans !! scan_id) as [p|] eqn:Hp.
    - rewrite (stop_scan_known _ _ _ _ Hp).
      destruct (decide (status p = Scanning)) as [Hs|Hs]; cbn [fst snd Nat.b2n]; [|lia].
      pose proof (active_scans_insert running_scans scan_id
                    (set_end_time (Some now) (set_status Cancelled p))) as Hins.
      rewrite Hp in Hins. change (option_list (Some p)) with [p] in Hins.
      rewrite (filter_cons_True _ p) in Hins by done.
      rewrite (filter_cons_False _ (set_end_time _ _)) in Hins by done.
      rewrite !filter_nil in Hins. simpl in Hins. lia.
    - rewrite (stop_scan_unknown _ _ _ Hp). cbn [fst snd Nat.b2n]. lia. }
  split; [exact Hcount|].
  intros Hfull Hstopped. rewrite Hstopped in Hcount. simpl in Hcount.
  unfold start_scan. fold (active_scans running_scans).
  fold (active_scans (stop_scan running_scans scan_id now).1).
  split.
  - rewrite (proj2 (Nat.leb_le _ _)) by lia. eauto.
  - rewrite (proj2 (Nat.leb_gt _ _)) by lia. eauto.
Qed.

Lemma stop_scan_frees_slot_witness :
  let scans : gmap string ScanProgress :=
    {[ "scan-1" := new_progress "scan-1" "/a" 0; "scan-2" := new_progress "scan-2" "/b" 0 ]} in
  (∃ e, start_scan default_settings scans "scan-3" "/c" 9 = Raise e)
  ∧ ∃ scans', start_scan default_settings (stop_scan scans "scan-1" 9).1 "scan-3" "/c" 9
              = Ok scans'.
Proof.
  apply (proj2 (stop_scan_frees_slot default_settings
                  {[ "scan-1" := new_progress "scan-1" "/a" 0;
                     "scan-2" := new_progress "scan-2" "/b" 0 ]}
                  "scan-1" "scan-3" "/c" 9)).
  - vm_compute. reflexivity.
  - vm_compute. reflexivity.
Defined.

(** * The inventory lookup *)

Lemma str_truthy_iff (s : string) : str_truthy s = true ↔ s ≠ "".
Proof.
  unfold str_truthy. rewrite negb_true_iff. split.
  - intros H ->. by rewrite String.eqb_refl in H.
  - intros H. by apply String.eqb_neq.
Qed.

Lemma index_by_path_snoc (docs : list Item) (d : Item) :
  index_by_path (docs ++ [d]) =
    if str_truthy (default "" (path d))
    then <[default "" (path d) := d]> (index_by_path docs)
    else index_by_path docs.
Proof. unfold index_by_path. by rewrite foldl_app. Qed.

Lemma index_by_path_lookup (docs : list Item) (k : string) :
  index_by_path docs !! k =
    if str_truthy k then last (filter (λ d, default "" (path d) = k) docs) else None.
Proof.
  induction docs as [|d docs IH] using rev_ind.
  - unfold index_by_path. simpl. rewrite lookup_empty. by destruct (str_truthy k).
  - rewrite index_by_path_snoc, filter_app, last_app.
    destruct (decide (default "" (path d) = k)) as [Hk|Hk].
    + rewrite (filter_cons_True _ d) by done. rewrite filter_nil. cbn [last].
      rewrite Hk. destruct (str_truthy k) eqn:Ht.
      * by rewrite lookup_insert_eq.
      * exact IH.
    + rewrite (filter_cons_False _ d) by done. rewrite filter_nil. cbn [last].
      destruct (str_truthy (default "" (path d))); [|done].
      by rewrite lookup_insert_ne.
Qed.

Lemma existing_paths_lookup (initialized : bool) (collection : option (list Item))
    (user_id k : string) :
  existing_paths initialized collection user_id !! k =
    if initialized && str_truthy k
    then last (filter (λ d, default "" (path d) = k)
                 (where_user user_id (default [] collection)))
    else None.
Proof.
  unfold existing_paths. destruct initialized; simpl; [|apply lookup_empty].
  destruct collection as [docs|]; simpl.
  - apply index_by_path_lookup.
  - rewrite lookup_empty. unfold where_user.
    destruct (str_truthy user_id), (str_truthy k); done.
Qed.

Lemma last_elem_of {A : Type} (l : list A) (x : A) : last l = Some x → x ∈ l.
Proof.
  rewrite last_lookup. intros H. apply list_elem_of_lookup. eauto.
Qed.

Lemma existing_paths_sound (initialized : bool) (collection : option (list Item))
    (user_id k : string) (d : Item) :
  existing_paths initialized collection user_id !! k = Some d →
  initialized = true ∧ k ≠ "" ∧ path d = Some k
  ∧ (∃ docs, collection = Some docs ∧ d ∈ docs)
  ∧ (user_id ≠ "" → userId d = Some user_id).
Proof.
  rewrite existing_paths_lookup.
  destruct initialized; [|done]. destruct (str_truthy k) eqn:Hk; [|done]. simpl.
  apply str_truthy_iff in Hk.
  intros Hl. apply last_elem_of, list_elem_of_filter in Hl as [Hp Hin].
  split_and!; [done|done| | |].
  - destruct (path d) as [p|]; simpl in Hp; congruence.
  - destruct collection as [docs|]; simpl in Hin.
    2:{ unfold where_user in Hin. destruct (str_truthy user_id); set_solver. }
    exists docs. split; [done|]. unfold where_user in Hin.
    destruct (str_truthy user_id); [|done]. by apply list_elem_of_filter in Hin as [_ ?].
  - intros Hu. apply str_truthy_iff in Hu. unfold where_user in Hin. rewrite Hu in Hin.
    by apply list_elem_of_filter in Hin as [? _].
Qed.

(** X5 [get_existing_file_paths] and [get_existing_directory_paths]: the
    table is empty while Firestore is not initialised or when the query
    fails; otherwise, under each non-empty path it holds the last document
    with that path among those of the user (among all documents when the
    user id is empty), so two documents with the same path under different
    library roots collapse into one entry.  Every entry is a document of the
    collection, stored under its own path, and belongs to the user. *)
Theorem existing_paths_keep_last_document (fs : FirestoreService)
    (user_id k : string) :
  let visible collection := where_user user_id (default [] collection) in
  let expected collection :=
    if _initialized fs && str_truthy k
    then last (filter (λ d, default "" (path d) = k) (visible collection))
    else None in
  get_existing_file_paths fs user_id !! k = expected (mediaFiles fs)
  ∧ get_existing_directory_paths fs user_id !! k = expected (mediaDirectories fs)
  ∧ (∀ d, get_existing_file_paths fs user_id !! k = Some d →
       _initialized fs = true ∧ k ≠ "" ∧ path d = Some k
       ∧ (∃ docs, mediaFiles fs = Some docs ∧ d ∈ docs)
       ∧ (user_id ≠ "" → userId d = Some user_id))
  ∧ (∀ d, get_existing_directory_paths fs user_id !! k = Some d →
       _initialized fs = true ∧ k ≠ "" ∧ path d = Some k
       ∧ (∃ docs, mediaDirectories fs = Some docs ∧ d ∈ docs)
       ∧ (user_id ≠ "" → userId d = Some user_id)).
Proof.
  cbv zeta. unfold get_existing_file_paths, get_existing_directory_paths.
  split_and!.
  - apply existing_paths_lookup.
  - apply existing_paths_lookup.
  - intros d. apply existing_paths_sound.
  - intros d. apply existing_paths_sound.
Qed.

Lemma existing_paths_keep_last_document_witness :
  let a := owned_by "user" (stored_file "/lib-a" "/m/a.mp4" 100 5 "movie") in
  let b := owned_by "user" (stored_file "/lib-b" "/m/a.mp4" 70 5 "movie") in
  let fs := mkFirestore true (Some [a; b]) (Some []) in
  get_existing_file_paths fs "user" = {[ "/m/a.mp4" := b ]}
  ∧ path b = Some "/m/a.mp4" ∧ userId b = Some "user".
Proof.
  cbv zeta.
  set (a := owned_by "user" (stored_file "/lib-a" "/m/a.mp4" 100 5 "movie")).
  set (b := owned_by "user" (stored_file "/lib-b" "/m/a.mp4" 70 5 "movie")).
  assert (Hb : get_existing_file_paths (mkFirestore true (Some [a; b]) (Some [])) "user"
               !! "/m/a.mp4" = Some b) by (vm_compute; reflexivity).
  split; [vm_compute; reflexivity|].
  destruct (proj1 (proj2 (proj2 (existing_paths_keep_last_document
                                   (mkFirestore true (Some [a; b]) (Some []))
                                   "user" "/m/a.mp4"))) b Hb)
    as (_ & _ & Hp & _ & Hu).
  split; [exact Hp|]. apply Hu. discriminate.
Defined.

(** * The reconciler, item by item *)

Lemma reconcile_item_totals (lib : string) (fk dk : gmap string pyobj)
    (t t' : Tally) (item : Item) :
  reconcile_item lib fk dk t item = Ok t' →
  duplicates_found t' + new_items t'
  = duplicates_found t + new_items t
    + (if decide (item_type item = Some "file" ∨ item_type item = Some "directory")
       then 1 else 0)
  ∧ length (tally_differences t') + duplicates_found t
    ≤ length (tally_differences t) + duplicates_found t'.
Proof.
  unfold reconcile_item, lookup_existing.
  assert (Hty : ∀ s, default "" (item_type item) = s → s ≠ "" → item_type item = Some s).
  { intros s. destruct (item_type item); simpl; congruence. }
  assert (Hty' : ∀ s, item_type item = Some s → default "" (item_type item) = s).
  { by intros s ->. }
  assert (Hfound : ∀ existing,
    match matched (Found existing) with
    | Some existing_item =>
        differences_found ← _compare_item_data item existing_item;
        Ok (mkTally (new_items t) (S (duplicates_found t))
              match differences_found with
              | [] => tally_differences t
              | _ :: _ =>
                  tally_differences t
                  ++ [mkDiffEntry (default "" (path item))
                        (default "" (item_type item)) differences_found]
              end)
    | None => Ok (mkTally (S (new_items t)) (duplicates_found t) (tally_differences t))
    end = Ok t' →
    duplicates_found t' + new_items t' = duplicates_found t + new_items t + 1
    ∧ length (tally_differences t') + duplicates_found t
      ≤ length (tally_differences t) + duplicates_found t').
  { intros existing. destruct (matched (Found existing)) as [o|].
    - destruct (_compare_item_data item o) as [ds|e]; simpl; [|done].
      intros [= <-]. simpl. destruct ds; [|rewrite length_app]; simpl; lia.
    - intros [= <-]. simpl. lia. }
  destruct (decide (default "" (item_type item) = "file")) as [Hf|Hf].
  { intros H. apply Hfound in H. rewrite decide_True; [done|].
    left. by apply Hty. }
  destruct (decide (default "" (item_type item) = "directory")) as [Hd|Hd].
  { intros H. apply Hfound in H. rewrite decide_True; [done|].
    right. by apply Hty. }
  intros [= <-]. rewrite decide_False; [lia|].
  intros [H|H]; apply Hty' in H; congruence.
Qed.

Lemma reconcile_loop_totals (lib : string) (fk dk : gmap string pyobj)
    (items : list Item) (t t' : Tally) :
  for_each (reconcile_item lib fk dk) items t = Ok t' →
  duplicates_found t' + new_items t'
  = duplicates_found t + new_items t
    + length (filter (λ i, item_type i = Some "file" ∨ item_type i = Some "directory")
                items)
  ∧ length (tally_differences t') + duplicates_found t
    ≤ length (tally_differences t) + duplicates_found t'.
Proof.
  revert t. induction items as [|item items IH]; intros t; simpl.
  - intros [= <-]. lia.
  - destruct (reconcile_item lib fk dk t item) as [t1|e] eqn:H1; simpl; [|done].
    intros H2. apply reconcile_item_totals in H1 as [Ha1 Hb1].
    apply IH in H2 as [Ha2 Hb2]. rewrite filter_cons.
    destruct (decide (item_type item = Some "file" ∨ item_type item = Some "directory"));
      simpl; lia.
Qed.

(** X6 [_check_duplicates_with_existing]: when the report carries no error,
    every item whose type is 'file' or 'directory' was counted exactly once,
    as a duplicate or as new, items of any other type were counted nowhere,
    and there are at most as many differences entries as duplicates.  When it
    carries an error, the counts gathered before the failure are dropped:
    no duplicate, every item new (whatever its type), no differences. *)
Theorem every_item_classified_once (scan_results : list Item)
    (user_id library_path : string)
    (existing_files existing_directories : option (list Item)) :
  let report := _check_duplicates_with_existing scan_results user_id library_path
                  existing_files existing_directories in
  let typed :=
    filter (λ i, item_type i = Some "file" ∨ item_type i = Some "directory")
           scan_results in
  match error report with
  | None =>
      duplicatesFound report + newItems report = length typed
      ∧ length (differences report) ≤ duplicatesFound report
  | Some _ =>
      duplicatesFound report = 0 ∧ newItems report = length scan_results
      ∧ differences report = []
  end.
Proof.
  cbv zeta. unfold _check_duplicates_with_existing, reconcile_loop.
  destruct (for_each _ scan_results _) as [t|e] eqn:Hloop; simpl; [|done].
  apply reconcile_loop_totals in Hloop as [Ha Hb]. simpl in Ha, Hb. lia.
Qed.

Lemma composite_key_same_root (lib p1 p2 : string) :
  composite_key lib p1 = composite_key lib p2 → p1 = p2.
Proof.
  unfold composite_key. induction lib as [|c lib IH]; simpl.
  - intros [= H]. exact H.
  - intros [= H]. by apply IH.
Qed.

(** X7 Duplicates inside one library root: when every stored record
    belongs to the root being scanned, a discovered item with a non-empty
    path is a duplicate exactly when a stored record of its kind has the
    very same path string; nothing is normalised, so paths that differ in
    letter case or by a trailing separator are different items. *)
Theorem same_root_duplicate_iff_equal_path (library_path : string)
    (existing_files existing_directories : list Item) (item : Item) :
  (∀ e, e ∈ existing_files ++ existing_directories →
        default "" (libraryPath e) = library_path) →
  default "" (path item) ≠ "" →
  is_duplicate library_path (index_items existing_files)
    (index_items existing_directories) item = true
  ↔ ∃ e, ((item_type item = Some "file" ∧ e ∈ existing_files)
          ∨ (item_type item = Some "directory" ∧ e ∈ existing_directories))
         ∧ path e = path item.
Proof.
  intros Hroot Hpath. split.
  - intros (e & He & Hk)%is_duplicate_key_matches. exists e. split; [done|].
    unfold stored_key in Hk. rewrite (Hroot e) in Hk by set_solver.
    apply composite_key_same_root in Hk.
    destruct (path e), (path item); simpl in *; congruence.
  - intros (e & He & Hp). apply key_matches_is_duplicate; [done|].
    exists e. split; [done|]. unfold stored_key.
    rewrite (Hroot e) by set_solver. by rewrite Hp.
Qed.

Lemma same_root_duplicate_iff_equal_path_witness :
  is_duplicate "/lib" (index_items [stored_file "/lib" "/m/a.mp4" 100 5 "movie"])
    (index_items []) (found_file "/m/a.mp4" 7 8 "unknown") = true
  ∧ ¬ is_duplicate "/lib" (index_items [stored_file "/lib" "/m/a.mp4" 100 5 "movie"])
        (index_items []) (found_file "/M/a.mp4" 100 5 "movie") = true.
Proof.
  assert (Hroot : ∀ e, e ∈ [stored_file "/lib" "/m/a.mp4" 100 5 "movie"] ++ [] →
                       default "" (libraryPath e) = "/lib").
  { intros e He. apply list_elem_of_singleton in He. by subst e. }
  split.
  - apply (proj2 (same_root_duplicate_iff_equal_path "/lib"
                    [stored_file "/lib" "/m/a.mp4" 100 5 "movie"] []
                    (found_file "/m/a.mp4" 7 8 "unknown") Hroot
                    ltac:(discriminate))).
    eexists. split; [left; split; [reflexivity|apply list_elem_of_singleton; reflexivity]|].
    reflexivity.
  - intros H.
    apply (proj1 (same_root_duplicate_iff_equal_path "/lib"
                    [stored_file "/lib" "/m/a.mp4" 100 5 "movie"] []
                    (found_file "/M/a.mp4" 100 5 "movie") Hroot
                    ltac:(discriminate))) in H.
    destruct H as (e & [[_ He]|[Hd _]] & Hp); [|discriminate].
    apply list_elem_of_singleton in He. subst e. discriminate.
Defined.

(** * The filter of [_run_scan_async] *)

Lemma elem_of_difference_paths (ds : list DiffEntry) (s0 : gset string) (x : string) :
  x ∈ foldl (λ (paths : gset string) diff_item, paths ∪ {[diff_path diff_item]}) s0 ds
  ↔ x ∈ s0 ∨ ∃ d, d ∈ ds ∧ diff_path d = x.
Proof.
  revert s0. induction ds as [|d ds IH]; intros s0; simpl.
  - set_solver.
  - rewrite IH. set_solver.
Qed.

Lemma elem_of_known_paths (files dirs : gmap string Item) (results : list Item)
    (s0 : gset string) (x : string) :
  x ∈ foldl (λ (paths : gset string) result,
               let result_path := default "" (path result) in
               if bool_decide (item_type result = Some "file")
                  && bool_decide (is_Some (files !! result_path))
               then paths ∪ {[result_path]}
               else if bool_decide (item_type result = Some "directory")
                       && bool_decide (is_Some (dirs !! result_path))
               then paths ∪ {[result_path]}
               else paths)
            s0 results
  ↔ x ∈ s0
    ∨ ∃ r, r ∈ results ∧ default "" (path r) = x
           ∧ ((item_type r = Some "file" ∧ is_Some (files !! x))
              ∨ (item_type r = Some "directory" ∧ is_Some (dirs !! x))).
Proof.
  revert s0. induction results as [|r results IH]; intros s0; cbn [foldl].
  - set_solver.
  - rewrite IH. clear IH. cbv zeta.
    destruct (bool_decide (item_type r = Some "file")
              && bool_decide (is_Some (files !! default "" (path r)))) eqn:Hf.
    { apply andb_true_iff in Hf as [?%bool_decide_eq_true ?%bool_decide_eq_true].
      split.
      - intros [Hx|(r' & ? & ?)].
        + apply elem_of_union in Hx as [?|Hx]; [by left|].
          apply elem_of_singleton in Hx as ->.
          right. exists r. split; [set_solver|]. eauto.
        + right. exists r'. split; [set_solver|]. eauto.
      - intros [?|(r' & Hin & Hr)]; [set_solver|].
        apply elem_of_cons in Hin as [->|?].
        + left. destruct Hr as [<- _]. set_solver.
        + right. eauto. }
    destruct (bool_decide (item_type r = Some "directory")
              && bool_decide (is_Some (dirs !! default "" (path r)))) eqn:Hd.
    { apply andb_true_iff in Hd as [?%bool_decide_eq_true ?%bool_decide_eq_true].
      split.
      - intros [Hx|(r' & ? & ?)].
        + apply elem_of_union in Hx as [?|Hx]; [by left|].
          apply elem_of_singleton in Hx as ->.
          right. exists r. split; [set_solver|]. eauto.
        + right. exists r'. split; [set_solver|]. eauto.
      - intros [?|(r' & Hin & Hr)]; [set_solver|].
        apply elem_of_cons in Hin as [->|?].
        + left. destruct Hr as [<- _]. set_solver.
        + right. eauto. }
    split.
    + intros [?|(r' & ? & ?)]; [by left|]. right. exists r'. split; [set_solver|done].
    + intros [?|(r' & Hin & Hr)]; [by left|].
      apply elem_of_cons in Hin as [->|?]; [|by right; eauto].
      exfalso. destruct Hr as (<- & [[Ht Hk]|[Ht Hk]]).
      * apply andb_false_iff in Hf as [Hf|Hf]; apply bool_decide_eq_false in Hf; done.
      * apply andb_false_iff in Hd as [Hd|Hd]; apply bool_decide_eq_false in Hd; done.
Qed.

Lemma elem_of_duplicate_paths (fs : FirestoreService) (user_id : string)
    (report : DuplicateReport) (results : list Item) (x : string) :
  x ∈ duplicate_paths_of fs user_id report results
  ↔ (∃ d, d ∈ differences report ∧ diff_path d = x)
    ∨ ∃ r, r ∈ results ∧ default "" (path r) = x
           ∧ ((item_type r = Some "file"
               ∧ is_Some (get_existing_file_paths fs user_id !! x))
              ∨ (item_type r = Some "directory"
                 ∧ is_Some (get_existing_directory_paths fs user_id !! x))).
Proof.
  unfold duplicate_paths_of. cbv zeta.
  rewrite elem_of_known_paths, elem_of_difference_paths. set_solver.
Qed.

(** X8 The filter that follows a reconciliation in [_run_scan_async]: when
    the report counts no duplicate, the scan results and the counters are
    left as they were.  When it counts at least one, the retained results
    are the results, in order, whose path is neither named by a differences
    entry nor known to Firestore for a result of the same path and kind; an
    item is dropped by its path alone, whatever its own type; and the two
    counters are recomputed from what is retained. *)
Theorem duplicate_filter_keeps_unflagged_paths (fs : FirestoreService)
    (user_id : string) (results : list Item) (report : DuplicateReport) (now : Z)
    (p : ScanProgress) :
  let p' := duplicate_stage fs user_id results (Ok report) now p in
  let flagged x :=
    (∃ d, d ∈ differences report ∧ diff_path d = x)
    ∨ ∃ r, r ∈ results ∧ default "" (path r) = x
           ∧ ((item_type r = Some "file"
               ∧ is_Some (get_existing_file_paths fs user_id !! x))
              ∨ (item_type r = Some "directory"
                 ∧ is_Some (get_existing_directory_paths fs user_id !! x))) in
  duplicate_report p' = Some report
  ∧ errors p' = errors p
  ∧ (duplicatesFound report = 0 →
     scan_results p' = scan_results p ∧ files_found p' = files_found p
     ∧ directories_found p' = directories_found p)
  ∧ (0 < duplicatesFound report →
     sublist (scan_results p') results
     ∧ (∀ item, item ∈ scan_results p'
                ↔ item ∈ results ∧ ¬ flagged (default "" (path item)))
     ∧ files_found p' = count_type "file" (scan_results p')
     ∧ directories_found p' = count_type "directory" (scan_results p')).
Proof.
  cbv zeta. unfold duplicate_stage.
  destruct (0 <? duplicatesFound report) eqn:Hpos.
  - apply Nat.ltb_lt in Hpos. split_and!; [done|done|lia|].
    intros _. cbn. split_and!; [apply sublist_filter| |done|done].
    intros item. rewrite list_elem_of_filter, elem_of_duplicate_paths. tauto.
  - apply Nat.ltb_ge in Hpos. split_and!; [done|done|done|lia].
Qed.

Lemma duplicate_filter_keeps_unflagged_paths_witness :
  let a := found_file "/m/a.mp4" 100 5 "movie" in
  let b := found_file "/m/b.mp4" 100 5 "movie" in
  let report := mkReport 1 1 [mkDiffEntry "/m/a.mp4" "file" [mkFieldDiff "size" (SInt 100) (SInt 70)]] None in
  let p' := duplicate_stage (mkFirestore false None None) "user" [a; b] (Ok report) 9
              (new_progress "scan-1" "/m" 0) in
  sublist (scan_results p') [a; b] ∧ files_found p' = count_type "file" (scan_results p')
  ∧ scan_results p' = [b].
Proof.
  cbv zeta.
  destruct (proj2 (proj2 (proj2
             (duplicate_filter_keeps_unflagged_paths (mkFirestore false None None) "user"
                [found_file "/m/a.mp4" 100 5 "movie"; found_file "/m/b.mp4" 100 5 "movie"]
                (mkReport 1 1 [mkDiffEntry "/m/a.mp4" "file"
                                 [mkFieldDiff "size" (SInt 100) (SInt 70)]] None)
                9 (new_progress "scan-1" "/m" 0))))
             ltac:(simpl; lia)) as (Hsub & _ & Hfiles & _).
  split; [exact Hsub|]. split; [exact Hfiles|]. vm_compute. reflexivity.
Defined.

(** * The snapshots sent by the processing pass *)

Lemma counted_in_order_refl (w : Walk) : counted_in_order w w.
Proof.
  exists [], []. rewrite !app_nil_r. simpl. split_and!; [done|done|lia|lia|].
  intros i q H. by rewrite lookup_nil in H.
Qed.

Lemma counted_in_order_trans (a b c : Walk) :
  counted_in_order a b → counted_in_order b c → counted_in_order a c.
Proof.
  intros (n1 & a1 & Hn1 & Ha1 & Hl1 & Hp1 & Hs1) (n2 & a2 & Hn2 & Ha2 & Hl2 & Hp2 & Hs2).
  exists (n1 ++ n2), (a1 ++ a2). rewrite !length_app.
  split_and!.
  - by rewrite Hn2, Hn1, app_assoc.
  - by rewrite Ha2, Ha1, app_assoc.
  - lia.
  - lia.
  - intros i q [Hq|[Hge Hq]]%lookup_app_Some.
    + by apply Hs1.
    + apply Hs2 in Hq. rewrite Hq, Hp1. lia.
Qed.

Lemma poll_counted (stop : StopRequest) (w : Walk) :
  counted_in_order w (poll stop w).1.
Proof.
  exists [], []. rewrite !app_nil_r. destruct w as [p r n].
  unfold poll, cancel. cbn [fst snd progress results notified].
  split_and!; [done|done|simpl; lia| |].
  - destruct stop as [[k now]|]; [|simpl; lia].
    repeat case_decide; simpl; lia.
  - intros i q H. by rewrite lookup_nil in H.
Qed.

Lemma count_processed_counted (info : option Item) (w : Walk) :
  counted_in_order w (count_processed (append_result info w)).
Proof.
  destruct w as [p r n].
  exists [set_processed_items (S (processed_items p)) p],
         (match info with
          | Some i => if dict_truthy i then [i] else []
          | None => []
          end).
  unfold count_processed, append_result.
  destruct info as [i|]; [destruct (dict_truthy i)|]; cbn;
    (split_and!; [done|by rewrite ?app_nil_r|lia|lia|]);
    intros [|j] q [= <-]; cbn; lia.
Qed.

Lemma set_current_path_counted (root : string) (w : Walk) :
  counted_in_order w (mkWalk (set_current_path root (progress w)) (results w) (notified w)).
Proof.
  exists [], []. rewrite !app_nil_r. cbn. split_and!; [done|done|lia|lia|].
  intros i q H. by rewrite lookup_nil in H.
Qed.

Lemma process_dirs_counted (settings : Settings) (stop : StopRequest) (root : string)
    (dirs : list DirInfo) (w : Walk) :
  counted_in_order w (process_dirs settings stop root dirs w).
Proof.
  revert w. induction dirs as [|d dirs IH]; intros w.
  - apply counted_in_order_refl.
  - rewrite process_dirs_cons. destruct (poll stop w).2 eqn:Hc.
    + apply poll_counted.
    + eapply counted_in_order_trans; [apply poll_counted|].
      eapply counted_in_order_trans; [|apply IH].
      apply count_processed_counted.
Qed.

Lemma process_files_counted (settings : Settings) (stop : StopRequest)
    (extract_metadata : bool) (root : string) (files : list (string * option Stat))
    (w : Walk) :
  counted_in_order w (process_files settings stop extract_metadata root files w).
Proof.
  revert w. induction files as [|[f st] files IH]; intros w.
  - apply counted_in_order_refl.
  - rewrite process_files_cons. destruct (poll stop w).2 eqn:Hc.
    + apply poll_counted.
    + eapply counted_in_order_trans; [apply poll_counted|].
      destruct (negb (_is_media_file settings f)); [apply IH|].
      eapply counted_in_order_trans; [|apply IH].
      apply count_processed_counted.
Qed.

Lemma scan_body_counted (settings : Settings) (stop : StopRequest)
    (extract_metadata : bool) (path root : string) (dirs : list DirInfo)
    (files : list (string * option Stat)) (w : Walk) :
  counted_in_order w
    (scan_body settings stop extract_metadata path root dirs files w).1.1.
Proof.
  rewrite scan_body_eq. destruct (poll stop w).2; cbn [fst snd].
  - apply poll_counted.
  - eapply counted_in_order_trans; [apply poll_counted|].
    eapply counted_in_order_trans; [apply set_current_path_counted|].
    eapply counted_in_order_trans; [apply process_dirs_counted|].
    apply process_files_counted.
Qed.

Lemma scan_directory_counted (settings : Settings) (stop : StopRequest)
    (directory_path : string) (fs : tree) (extract_metadata : bool)
    (p : ScanProgress) :
  counted_in_order (mkWalk p [] [])
    (_scan_directory_sync settings stop directory_path fs extract_metadata p).
Proof.
  unfold _scan_directory_sync.
  apply (os_walk_invariant counted_in_order
           (scan_body settings stop extract_metadata directory_path)
           counted_in_order_refl counted_in_order_trans
           (scan_body_counted settings stop extract_metadata directory_path)).
Qed.

(** X9 [_scan_directory_sync]: the snapshots handed to the progress
    callback count the entries one by one.  The i-th snapshot (from 0) shows
    the counter i + 1 above the counter the pass started with, so no entry is
    counted twice or skipped, with or without a [stop_scan] on the way; the
    pass leaves the counter at the value of the last snapshot, and it
    returns at most one result per snapshot.  Nothing is said of the status
    that a snapshot shows: [stop_scan] writes only the status and the end
    time, so the counters are the same wherever it lands. *)
Theorem snapshots_count_one_by_one (settings : Settings) (stop : StopRequest)
    (directory_path : string) (fs : tree) (extract_metadata : bool)
    (p : ScanProgress) :
  let walk :=
    _scan_directory_sync settings stop directory_path fs extract_metadata p in
  processed_items (progress walk) = processed_items p + length (notified walk)
  ∧ length (results walk) ≤ length (notified walk)
  ∧ ∀ i q, notified walk !! i = Some q →
      processed_items q = processed_items p + S i.
Proof.
  cbv zeta.
  destruct (scan_directory_counted settings stop directory_path fs extract_metadata p)
    as (new & added & Hn & Ha & Hl & Hp & Hs).
  cbn [notified results progress app] in Hn, Ha, Hp, Hs.
  rewrite Hn, Ha, Hp. split_and!; [done|done|]. apply Hs.
Qed.

Lemma snapshots_count_one_by_one_witness :
  let walk := _scan_directory_sync default_settings (Some (2, 50%Z)) "/media"
                sample_tree false (new_progress "scan-1" "/media" 0) in
  ∃ q, notified walk !! 1 = Some q ∧ processed_items q = 2.
Proof.
  cbv zeta.
  destruct (notified (_scan_directory_sync default_settings (Some (2, 50%Z)) "/media"
                        sample_tree false (new_progress "scan-1" "/media" 0)) !! 1)
    as [q|] eqn:Hq; [|vm_compute in Hq; discriminate].
  exists q. split; [reflexivity|].
  exact (proj2 (proj2 (snapshots_count_one_by_one default_settings (Some (2, 50%Z))
                         "/media" sample_tree false (new_progress "scan-1" "/media" 0)))
               1 q Hq).
Defined.

(** * The records built by the processing pass *)

Lemma get_file_metadata_keys (file_path : string) (st : option Stat)
    (d : gmap string scalar) :
  get_file_metadata file_path st = Ok d →
  d !! "path" = Some (SStr file_path)
  ∧ (∃ n, d !! "size" = Some (SInt n))
  ∧ is_Some (d !! "modified")
  ∧ d !! "modified_time" = None.
Proof.
  unfold get_file_metadata. destruct st as [st|]; [|done]. intros [= <-].
  split_and!.
  - by rewrite lookup_insert_eq.
  - exists (st_size st). rewrite !lookup_insert_ne by done. by rewrite lookup_insert_eq.
  - rewrite !lookup_insert_ne by done. rewrite lookup_insert_eq. eauto.
  - rewrite !lookup_insert_ne by done. apply lookup_empty.
Qed.

Lemma process_file_engine_item (file_path : string) (st : option Stat)
    (extract_metadata : bool) (i : Item) :
  _process_file file_path st extract_metadata = Some i → engine_item i.
Proof.
  unfold _process_file.
  destruct (get_file_metadata file_path st) as [d|e] eqn:Hd; [|done].
  intros [= <-]. apply get_file_metadata_keys in Hd as (? & ? & ? & ?).
  split_and!; cbn; [by left|done|eauto|].
  exists file_path, d. done.
Qed.

Lemma process_directory_engine_item (settings : Settings) (dir_path : string)
    (st : option Stat) (listing : list string) (i : Item) :
  _process_directory settings dir_path st listing = Some i → engine_item i.
Proof.
  unfold _process_directory.
  destruct (get_file_metadata dir_path st) as [d|e] eqn:Hd; [|done].
  intros [= <-]. apply get_file_metadata_keys in Hd as (? & ? & ? & ?).
  split_and!; cbn; [by right|done|eauto|].
  exists dir_path, d. done.
Qed.

Lemma adds_engine_items_refl (w : Walk) : adds_engine_items w w.
Proof. exists []. by rewrite app_nil_r. Qed.

Lemma adds_engine_items_trans (a b c : Walk) :
  adds_engine_items a b → adds_engine_items b c → adds_engine_items a c.
Proof.
  intros (l1 & H1 & F1) (l2 & H2 & F2). exists (l1 ++ l2).
  split; [by rewrite H2, H1, app_assoc|]. by apply Forall_app.
Qed.

Lemma poll_adds_nothing (stop : StopRequest) (w : Walk) :
  adds_engine_items w (poll stop w).1.
Proof. exists []. by rewrite app_nil_r. Qed.

Lemma count_processed_adds (info : option Item) (w : Walk) :
  (∀ i, info = Some i → engine_item i) →
  adds_engine_items w (count_processed (append_result info w)).
Proof.
  intros Hi. unfold count_processed, append_result.
  destruct info as [i|]; [destruct (dict_truthy i)|]; cbn.
  - exists [i]. split; [done|]. apply Forall_singleton. by apply Hi.
  - exists []. by rewrite app_nil_r.
  - exists []. by rewrite app_nil_r.
Qed.

Lemma process_dirs_adds (settings : Settings) (stop : StopRequest) (root : string)
    (dirs : list DirInfo) (w : Walk) :
  adds_engine_items w (process_dirs settings stop root dirs w).
Proof.
  revert w. induction dirs as [|d dirs IH]; intros w.
  - apply adds_engine_items_refl.
  - rewrite process_dirs_cons. destruct (poll stop w).2.
    + apply poll_adds_nothing.
    + eapply adds_engine_items_trans; [apply poll_adds_nothing|].
      eapply adds_engine_items_trans; [|apply IH].
      apply count_processed_adds. intros i. apply process_directory_engine_item.
Qed.

Lemma process_files_adds (settings : Settings) (stop : StopRequest)
    (extract_metadata : bool) (root : string) (files : list (string * option Stat))
    (w : Walk) :
  adds_engine_items w (process_files settings stop extract_metadata root files w).
Proof.
  revert w. induction files as [|[f st] files IH]; intros w.
  - apply adds_engine_items_refl.
  - rewrite process_files_cons. destruct (poll stop w).2.
    + apply poll_adds_nothing.
    + eapply adds_engine_items_trans; [apply poll_adds_nothing|].
      destruct (negb (_is_media_file settings f)); [apply IH|].
      eapply adds_engine_items_trans; [|apply IH].
      apply count_processed_adds. intros i. apply process_file_engine_item.
Qed.

Lemma scan_body_adds (settings : Settings) (stop : StopRequest)
    (extract_metadata : bool) (path root : string) (dirs : list DirInfo)
    (files : list (string * option Stat)) (w : Walk) :
  adds_engine_items w
    (scan_body settings stop extract_metadata path root dirs files w).1.1.
Proof.
  rewrite scan_body_eq. destruct (poll stop w).2; cbn [fst snd].
  - apply poll_adds_nothing.
  - eapply adds_engine_items_trans; [apply (poll_adds_nothing stop)|].
    eapply adds_engine_items_trans; [|apply process_files_adds].
    eapply adds_engine_items_trans; [|apply process_dirs_adds].
    exists []. by rewrite app_nil_r.
Qed.

Lemma scan_results_engine_items (settings : Settings) (stop : StopRequest)
    (directory_path : string) (fs : tree) (extract_metadata : bool)
    (p : ScanProgress) (i : Item) :
  i ∈ results (_scan_directory_sync settings stop directory_path fs extract_metadata p) →
  engine_item i.
Proof.
  unfold _scan_directory_sync.
  destruct (os_walk_invariant adds_engine_items
              (scan_body settings stop extract_metadata directory_path)
              adds_engine_items_refl adds_engine_items_trans
              (scan_body_adds settings stop extract_metadata directory_path)
              fs directory_path (mkWalk p [] []))
    as (added & Ha & Hf).
  rewrite Ha. cbn [results app]. intros Hi.
  by apply (proj1 (Forall_forall _ _) Hf).
Qed.

Lemma engine_item_well_formed (i : Item) :
  engine_item i → well_formed i ∧ modified_time_of i = SNone.
Proof.
  intros (_ & _ & _ & p & d & _ & Hm & _ & _ & _ & Ht).
  unfold well_formed, modified_time_of, metadata_dict. rewrite Hm. simpl.
  rewrite Ht. split; [eauto|done].
Qed.

(** X10 The records of a scan: every result of [_scan_directory_sync] is of
    type 'file' or 'directory', carries its path, a media type and the
    metadata of [get_file_metadata], which stores the modification time under
    ['modified'] and nothing under ['modified_time'].  [_compare_item_data]
    reads ['modified_time'], so when a result of one scan is compared with a
    result of another scan stored under any library root, the comparison does
    not raise and never reports a difference of modification time: only
    'size' and 'media_type' can differ. *)
Theorem scan_records_never_differ_in_modified_time
    (settings settings' : Settings) (stop stop' : StopRequest)
    (directory_path directory_path' : string) (fs fs' : tree)
    (extract_metadata extract_metadata' : bool) (p p' : ScanProgress)
    (library : string) (item e : Item) :
  item ∈ results (_scan_directory_sync settings stop directory_path fs
                    extract_metadata p) →
  e ∈ results (_scan_directory_sync settings' stop' directory_path' fs'
                 extract_metadata' p') →
  engine_item item
  ∧ _compare_item_data item (ODict (stored_under library e))
    = Ok (field_diffs item (stored_under library e))
  ∧ ∀ d, d ∈ field_diffs item (stored_under library e) →
         field d = "size" ∨ field d = "media_type".
Proof.
  intros Hi%scan_results_engine_items He%scan_results_engine_items.
  destruct (engine_item_well_formed item Hi) as [Hwi Hti].
  destruct (engine_item_well_formed e He) as [Hwe Hte].
  assert (Hwe' : well_formed (stored_under library e)) by exact Hwe.
  assert (Hte' : modified_time_of (stored_under library e) = SNone) by exact Hte.
  split_and!; [done|by apply compare_item_data_spec|].
  intros d Hd. unfold field_diffs in Hd. rewrite Hti, Hte' in Hd.
  rewrite (decide_True (P := SNone = SNone)) in Hd by done.
  rewrite app_nil_l in Hd. apply elem_of_app in Hd as [Hd|Hd].
  - left. case_decide; [by apply elem_of_nil in Hd|].
    apply list_elem_of_singleton in Hd. by subst d.
  - right. case_decide; [by apply elem_of_nil in Hd|].
    apply list_elem_of_singleton in Hd. by subst d.
Qed.

Lemma scan_records_never_differ_in_modified_time_witness :
  let found := results (_scan_directory_sync default_settings None "/media" sample_tree
                          false (new_progress "scan-1" "/media" 0)) in
  ∃ item, found !! 0 = Some item
          ∧ _compare_item_data item (ODict (stored_under "/media" item))
            = Ok (field_diffs item (stored_under "/media" item)).
Proof.
  cbv zeta.
  destruct (results (_scan_directory_sync default_settings None "/media" sample_tree
                       false (new_progress "scan-1" "/media" 0)) !! 0)
    as [item|] eqn:Hitem; [|vm_compute in Hitem; discriminate].
  exists item. split; [reflexivity|].
  assert (Hin : item ∈ results (_scan_directory_sync default_settings None "/media"
                                  sample_tree false (new_progress "scan-1" "/media" 0))).
  { apply list_elem_of_lookup. eauto. }
  exact (proj1 (proj2 (scan_records_never_differ_in_modified_time
                         default_settings default_settings None None "/media" "/media"
                         sample_tree sample_tree false false
                         (new_progress "scan-1" "/media" 0)
                         (new_progress "scan-1" "/media" 0) "/media" item item Hin Hin))).
Defined.

(** * Hidden directories *)

Lemma without_hidden_unfold (files : list (string * option Stat))
    (subdirs : list (string * option Stat * tree)) :
  without_hidden (Node files subdirs)
  = Node files ((λ e, (e.1, without_hidden e.2))
                  <$> filter (λ e, keep_dir e.1.1 = true) subdirs).
Proof.
  simpl. f_equal. induction subdirs as [|[[name st] child] subdirs IH]; [done|].
  rewrite filter_cons. cbn [fst snd]. destruct (keep_dir name) eqn:Hk.
  - rewrite decide_True by done. rewrite fmap_cons. cbn [fst snd]. by rewrite IH.
  - rewrite decide_False by done. exact IH.
Qed.

Lemma find_child_cons (name : string) (st : option Stat) (child : tree)
    (subdirs : list (string * option Stat * tree)) (d : string) :
  find_child ((name, st, child) :: subdirs) d
  = if decide (name = d) then Some child else find_child subdirs d.
Proof.
  unfold find_child. cbn [list_find].
  destruct (decide (name = d)) as [->|Hne].
  - by rewrite decide_True.
  - rewrite decide_False by done.
    by destruct (list_find _ subdirs) as [[i e]|].
Qed.

Lemma find_child_visible (subdirs : list (string * option Stat * tree)) (d : string) :
  keep_dir d = true →
  find_child ((λ e, (e.1, without_hidden e.2))
                <$> filter (λ e, keep_dir e.1.1 = true) subdirs) d
  = without_hidden <$> find_child subdirs d.
Proof.
  intros Hd. induction subdirs as [|[[name st] child] subdirs IH]; [done|].
  rewrite filter_cons, find_child_cons. cbn [fst snd].
  destruct (decide (name = d)) as [->|Hne].
  - rewrite decide_True by done. rewrite fmap_cons. cbn [fst snd].
    rewrite find_child_cons. by rewrite decide_True.
  - case_decide.
    + rewrite fmap_cons. cbn [fst snd]. rewrite find_child_cons.
      by rewrite decide_False.
    + exact IH.
Qed.

Lemma dir_info_visible (subdirs : list (string * option Stat * tree)) :
  dir_info <$> ((λ e, (e.1, without_hidden e.2))
                  <$> filter (λ e, keep_dir e.1.1 = true) subdirs)
  = filter (λ d, keep_dir (dir_name d)) (dir_info <$> subdirs).
Proof.
  induction subdirs as [|[[name st] [files sub]] subdirs IH]; [done|].
  rewrite fmap_cons, !filter_cons. cbn [fst snd dir_info dir_name].
  destruct (keep_dir name) eqn:Hk.
  - rewrite decide_True by done. rewrite decide_True by done.
    rewrite !fmap_cons, IH. f_equal.
  - rewrite !decide_False by (simpl; by intros ?).
    exact IH.
Qed.

Section Hidden.
Context {W : Type}.
Variable body : string → list DirInfo → list (string * option Stat) → W
                → W * list string * bool.

(** The body looks at the kept directories only, and leaves kept names in
    [dirs]. *)
Hypothesis body_skips_hidden : ∀ root dirs files w,
  (body root (filter (λ d, keep_dir (dir_name d)) dirs) files w).1.1
  = (body root dirs files w).1.1
  ∧ (body root (filter (λ d, keep_dir (dir_name d)) dirs) files w).2
    = (body root dirs files w).2
  ∧ ((body root dirs files w).2 = false →
     (body root (filter (λ d, keep_dir (dir_name d)) dirs) files w).1.2
     = (body root dirs files w).1.2
     ∧ Forall (λ d, keep_dir d = true) (body root dirs files w).1.2).

Lemma descend_without_hidden (top : string)
    (subdirs : list (string * option Stat * tree)) (dirs : list string) :
  Forall (λ entry, ∀ top w, os_walk body top (without_hidden entry.2) w
                            = os_walk body top entry.2 w) subdirs →
  Forall (λ d, keep_dir d = true) dirs →
  ∀ w, descend body top
         ((λ e, (e.1, without_hidden e.2))
            <$> filter (λ e, keep_dir e.1.1 = true) subdirs) dirs w
       = descend body top subdirs dirs w.
Proof.
  intros IH Hk. induction Hk as [|d dirs Hd Hk IHd]; intros w; [done|].
  cbn [descend]. rewrite (find_child_visible subdirs d Hd).
  destruct (find_child subdirs d) as [child|] eqn:Hc; cbn [fmap option_fmap option_map].
  - apply find_child_elem in Hc as (entry & Hin & <-).
    rewrite (proj1 (Forall_forall _ _) IH entry Hin).
    destruct (os_walk body (path_join top d) entry.2 w) as [w' [|]]; [done|apply IHd].
  - apply IHd.
Qed.

Lemma os_walk_without_hidden (t : tree) :
  ∀ top w, os_walk body top (without_hidden t) w = os_walk body top t w.
Proof.
  induction t as [files subdirs IH] using tree_induction. intros top w.
  rewrite without_hidden_unfold, !os_walk_unfold, dir_info_visible.
  destruct (body_skips_hidden top (dir_info <$> subdirs) files w) as (Hw & Hs & Hd).
  destruct (body top (dir_info <$> subdirs) files w) as [[w1 dirs1] stop1].
  destruct (body top (filter _ (dir_info <$> subdirs)) files w) as [[w2 dirs2] stop2].
  cbn [fst snd] in Hw, Hs, Hd. subst w2 stop2.
  destruct stop1; [done|]. destruct (Hd eq_refl) as [-> Hk].
  by apply descend_without_hidden.
Qed.
End Hidden.

Lemma filter_keep_idemp (dirs : list DirInfo) :
  filter (λ d, keep_dir (dir_name d)) (filter (λ d, keep_dir (dir_name d)) dirs)
  = filter (λ d, keep_dir (dir_name d)) dirs.
Proof. by apply list_filter_filter_l. Qed.

Lemma prune_kept (settings : Settings) (path root : string) (dirs : list DirInfo) :
  Forall (λ d, keep_dir d = true)
    (prune settings path root (dir_name <$> filter (λ d, keep_dir (dir_name d)) dirs)).
Proof.
  unfold prune. destruct (max_scan_depth settings <=? depth_of path root); [done|].
  apply Forall_fmap, Forall_forall. intros d [Hd _]%list_elem_of_filter.
  by apply Is_true_true in Hd.
Qed.

Lemma count_body_skips_hidden (settings : Settings) (path root : string)
    (dirs : list DirInfo) (files : list (string * option Stat)) (n : nat) :
  (count_body settings path root (filter (λ d, keep_dir (dir_name d)) dirs) files n).1.1
  = (count_body settings path root dirs files n).1.1
  ∧ (count_body settings path root (filter (λ d, keep_dir (dir_name d)) dirs) files n).2
    = (count_body settings path root dirs files n).2
  ∧ ((count_body settings path root dirs files n).2 = false →
     (count_body settings path root (filter (λ d, keep_dir (dir_name d)) dirs) files n).1.2
     = (count_body settings path root dirs files n).1.2
     ∧ Forall (λ d, keep_dir d = true) (count_body settings path root dirs files n).1.2).
Proof.
  rewrite !count_body_eq. cbn [fst snd]. unfold entries_here.
  rewrite !filter_keep_idemp. split_and!; [done|done|]. intros _.
  split; [done|apply prune_kept].
Qed.

Lemma scan_body_skips_hidden (settings : Settings) (stop : StopRequest)
    (extract_metadata : bool) (path root : string)
    (dirs : list DirInfo) (files : list (string * option Stat)) (w : Walk) :
  (scan_body settings stop extract_metadata path root
     (filter (λ d, keep_dir (dir_name d)) dirs) files w).1.1
  = (scan_body settings stop extract_metadata path root dirs files w).1.1
  ∧ (scan_body settings stop extract_metadata path root
       (filter (λ d, keep_dir (dir_name d)) dirs) files w).2
    = (scan_body settings stop extract_metadata path root dirs files w).2
  ∧ ((scan_body settings stop extract_metadata path root dirs files w).2 = false →
     (scan_body settings stop extract_metadata path root
        (filter (λ d, keep_dir (dir_name d)) dirs) files w).1.2
     = (scan_body settings stop extract_metadata path root dirs files w).1.2
     ∧ Forall (λ d, keep_dir d = true)
         (scan_body settings stop extract_metadata path root dirs files w).1.2).
Proof.
  rewrite !scan_body_eq. destruct (poll stop w).2; cbn [fst snd].
  - split_and!; [done|done|]. intros [=].
  - rewrite !filter_keep_idemp. split_and!; [done|done|]. intros _.
    split; [done|apply prune_kept].
Qed.

(** X11 Hidden directories: a directory whose name starts with a dot or is
    ['@eaDir'] is invisible to both passes at every level of the tree.
    Removing all of them, with everything below them, changes neither the
    total of [_count_items_sync] nor anything that [_scan_directory_sync]
    returns (progress, results, snapshots), with or without a [stop_scan]. *)
Theorem hidden_directories_are_invisible (settings : Settings) (stop : StopRequest)
    (directory_path : string) (fs : tree) (extract_metadata : bool)
    (p : ScanProgress) :
  _count_items_sync settings directory_path (without_hidden fs)
  = _count_items_sync settings directory_path fs
  ∧ _scan_directory_sync settings stop directory_path (without_hidden fs)
      extract_metadata p
    = _scan_directory_sync settings stop directory_path fs extract_metadata p.
Proof.
  unfold _count_items_sync, _scan_directory_sync. split.
  - rewrite os_walk_without_hidden; [done|]. apply count_body_skips_hidden.
  - rewrite os_walk_without_hidden; [done|]. apply scan_body_skips_hidden.
Qed.

(** * The depth limit *)

Lemma append_assoc (a b c : string) : (a +:+ b) +:+ c = a +:+ (b +:+ c).
Proof.
  induction a as [|x a IH]; [done|].
  change (String x ((a +:+ b) +:+ c) = String x (a +:+ (b +:+ c))). by rewrite IH.
Qed.

Lemma append_nil_r (s : string) : s +:+ "" = s.
Proof.
  induction s as [|x s IH]; [done|].
  change (String x (s +:+ "") = String x s). by rewrite IH.
Qed.

Lemma drop_str_append (a b : string) : drop_str (String.length a) (a +:+ b) = b.
Proof. induction a as [|x a IH]; [by destruct b|exact IH]. Qed.

Lemma count_char_append (c : ascii) (a b : string) :
  count_char c (a +:+ b) = count_char c a + count_char c b.
Proof.
  induction a as [|x a IH]; [done|].
  change (count_char c (String x a +:+ b))
    with ((if bool_decide (c = x) then 1 else 0) + count_char c (a +:+ b)).
  rewrite IH. simpl. lia.
Qed.

Lemma count_char_absent (c : ascii) (s : string) :
  contains c s = false → count_char c s = 0.
Proof.
  induction s as [|x s IH]; simpl; [done|].
  intros [Hx Hs]%orb_false_iff. rewrite Hx. simpl. by apply IH.
Qed.

Lemma rev_app_append (a b acc : string) :
  String.rev_app (a +:+ b) acc = String.rev_app b (String.rev_app a acc).
Proof. revert acc. induction a as [|x a IH]; intros acc; [done|apply IH]. Qed.

Lemma rev_app_head (d acc : string) :
  d ≠ "" → contains os_sep d = false →
  startswith "/" (String.rev_app d acc) = false.
Proof.
  revert acc. induction d as [|x d IH]; intros acc Hne Hc; [done|].
  simpl in Hc. apply orb_false_iff in Hc as [Hx Hd]. simpl.
  destruct d as [|y d].
  - simpl. unfold os_sep in Hx. by rewrite Hx.
  - by apply IH.
Qed.

Lemma path_join_valid (top d : string) :
  top ≠ "" → endswith "/" top = false → valid_name d →
  path_join top d = top +:+ "/" +:+ d
  ∧ path_join top d ≠ "" ∧ endswith "/" (path_join top d) = false.
Proof.
  intros Ht He [Hd Hc]. unfold path_join.
  assert (startswith "/" d = false) as ->.
  { destruct d as [|x d]; [done|]. simpl in *.
    apply orb_false_iff in Hc as [Hx _]. unfold os_sep in Hx. by rewrite Hx. }
  rewrite He, orb_false_r. rewrite bool_decide_eq_false_2 by done.
  split_and!; [done|by destruct top|].
  unfold endswith, String.rev. rewrite !rev_app_append.
  by apply rev_app_head.
Qed.

Lemma at_depth_top (path : string) :
  path ≠ "" → endswith "/" path = false → at_depth path 0 path.
Proof.
  intros Hp He. exists "". by rewrite append_nil_r.
Qed.

Lemma at_depth_join (path top d : string) (n : nat) :
  at_depth path n top → valid_name d → at_depth path (S n) (path_join top d).
Proof.
  intros (suffix & -> & Hn & Ht & He) Hd.
  destruct (path_join_valid _ d Ht He Hd) as (Hj & Hne & Hen).
  exists (suffix +:+ "/" +:+ d). split_and!; [|..|done|done].
  - by rewrite Hj, append_assoc.
  - rewrite !count_char_append, Hn, (count_char_absent _ d) by apply Hd. simpl. lia.
Qed.

Lemma at_depth_join_slash (path d : string) :
  endswith "/" path = true → valid_name d → at_depth path 0 (path_join path d).
Proof.
  intros He [Hd Hc]. exists d.
  assert (path_join path d = path +:+ d) as ->.
  { unfold path_join.
    assert (startswith "/" d = false) as ->.
    { destruct d as [|x d]; [done|]. simpl in *.
      apply orb_false_iff in Hc as [Hx _]. unfold os_sep in Hx. by rewrite Hx. }
    by rewrite He, orb_true_r. }
  split_and!; [done|by apply count_char_absent| |].
  - destruct path; [by destruct d|done].
  - unfold endswith, String.rev. rewrite rev_app_append. by apply rev_app_head.
Qed.

Lemma at_depth_depth_of (path top : string) (n : nat) :
  at_depth path n top → depth_of path top = n.
Proof.
  intros (suffix & -> & Hn & _). unfold depth_of. by rewrite drop_str_append.
Qed.

Lemma dir_names_unfold (files : list (string * option Stat))
    (subdirs : list (string * option Stat * tree)) :
  dir_names (Node files subdirs) = subdirs ≫= λ e, e.1.1 :: dir_names e.2.
Proof.
  simpl. induction subdirs as [|[[name st] child] subdirs IH]; [done|].
  cbn [mbind list_bind fst snd app]. by rewrite IH.
Qed.

Lemma find_child_name (subdirs : list (string * option Stat * tree)) (d : string)
    (child : tree) :
  find_child subdirs d = Some child → ∃ st, (d, st, child) ∈ subdirs.
Proof.
  induction subdirs as [|[[name st] c] subdirs IH]; [done|].
  rewrite find_child_cons. case_decide as Hd.
  - intros [= <-]. subst name. exists st. set_solver.
  - intros (st' & ?)%IH. exists st'. set_solver.
Qed.

Lemma find_child_fmap (f : tree → tree) (subdirs : list (string * option Stat * tree))
    (d : string) :
  find_child ((λ e, (e.1, f e.2)) <$> subdirs) d = f <$> find_child subdirs d.
Proof.
  induction subdirs as [|[[name st] c] subdirs IH]; [done|].
  rewrite fmap_cons. cbn [fst snd]. rewrite !find_child_cons.
  case_decide; [done|exact IH].
Qed.

Lemma dir_info_fmap (f : tree → tree) (subdirs : list (string * option Stat * tree)) :
  (∀ t, tree_files (f t) = tree_files t) →
  dir_info <$> ((λ e, (e.1, f e.2)) <$> subdirs) = dir_info <$> subdirs.
Proof.
  intros Hf. rewrite <- list_fmap_compose. apply list_fmap_ext.
  intros i [[name st] c] _. unfold dir_info. cbn. by rewrite Hf.
Qed.

Lemma tree_files_cut (n : nat) (t : tree) : tree_files (cut n t) = tree_files t.
Proof. by destruct n, t. Qed.

Section Depth.
Context {W : Type}.
Variable settings : Settings.
Variable path : string.
Variable body : string → list DirInfo → list (string * option Stat) → W
                → W * list string * bool.

(** At the depth limit the body empties [dirs], unless it breaks. *)
Hypothesis body_prunes : ∀ root dirs files w,
  (body root dirs files w).2 = false →
  max_scan_depth settings ≤ depth_of path root →
  (body root dirs files w).1.2 = [].

Lemma descend_cut (f : tree → tree) (top : string)
    (subdirs : list (string * option Stat * tree)) (dirs : list string) :
  (∀ d st child w, (d, st, child) ∈ subdirs →
     os_walk body (path_join top d) (f child) w
     = os_walk body (path_join top d) child w) →
  ∀ w, descend body top ((λ e, (e.1, f e.2)) <$> subdirs) dirs w
       = descend body top subdirs dirs w.
Proof.
  intros Hf. induction dirs as [|d dirs IH]; intros w; [done|].
  cbn [descend]. rewrite find_child_fmap.
  destruct (find_child subdirs d) as [child|] eqn:Hc; cbn [fmap option_fmap option_map].
  - apply find_child_name in Hc as [st Hin]. rewrite (Hf d st child w Hin).
    destruct (os_walk body (path_join top d) child w) as [w' [|]]; [done|apply IH].
  - apply IH.
Qed.

Lemma os_walk_cut (k : nat) :
  ∀ t top w, k ≤ max_scan_depth settings →
    at_depth path (max_scan_depth settings - k) top →
    Forall valid_name (dir_names t) →
    os_walk body top (cut k t) w = os_walk body top t w.
Proof.
  induction k as [|k IH]; intros [files subdirs] top w Hk Htop Hnames.
  - cbn [cut]. rewrite !os_walk_unfold.
    rewrite (dir_info_fmap (λ c, Node (tree_files c) [])) by done.
    pose proof (body_prunes top (dir_info <$> subdirs) files w) as Hp.
    destruct (body top (dir_info <$> subdirs) files w) as [[w1 dirs1] stop1].
    destruct stop1; [done|]. cbn [fst snd] in Hp. rewrite Hp; [done|done|].
    rewrite (at_depth_depth_of _ _ _ Htop). lia.
  - cbn [cut]. rewrite !os_walk_unfold.
    rewrite (dir_info_fmap (cut k)) by apply tree_files_cut.
    destruct (body top (dir_info <$> subdirs) files w) as [[w1 dirs1] stop1].
    destruct stop1; [done|].
    apply descend_cut. intros d st child w' Hin.
    rewrite dir_names_unfold in Hnames.
    assert (Hsub : Forall valid_name (d :: dir_names child)).
    { apply Forall_forall. intros x Hx.
      apply (proj1 (Forall_forall _ _) Hnames). apply list_elem_of_bind.
      exists (d, st, child). split; [exact Hx|exact Hin]. }
    apply Forall_cons in Hsub as [Hd Hchild].
    apply IH; [lia| |done].
    replace (max_scan_depth settings - k) with (S (max_scan_depth settings - S k))
      by lia.
    by apply at_depth_join.
Qed.

Lemma os_walk_cut_top (t : tree) (w : W) :
  path ≠ "" → endswith "/" path = false → Forall valid_name (dir_names t) →
  os_walk body path (cut (max_scan_depth settings) t) w = os_walk body path t w.
Proof.
  intros Hp He Hn. apply os_walk_cut; [done| |done].
  rewrite Nat.sub_diag. by apply at_depth_top.
Qed.

Lemma os_walk_cut_slash (t : tree) (w : W) :
  endswith "/" path = true → Forall valid_name (dir_names t) →
  os_walk body path (cut (S (max_scan_depth settings)) t) w = os_walk body path t w.
Proof.
  intros He Hnames. destruct t as [files subdirs].
  cbn [cut]. rewrite !os_walk_unfold.
  rewrite (dir_info_fmap (cut (max_scan_depth settings))) by apply tree_files_cut.
  destruct (body path (dir_info <$> subdirs) files w) as [[w1 dirs1] stop1].
  destruct stop1; [done|].
  apply descend_cut. intros d st child w' Hin.
  rewrite dir_names_unfold in Hnames.
  assert (Hsub : Forall valid_name (d :: dir_names child)).
  { apply Forall_forall. intros x Hx.
    apply (proj1 (Forall_forall _ _) Hnames). apply list_elem_of_bind.
    exists (d, st, child). split; [exact Hx|exact Hin]. }
  apply Forall_cons in Hsub as [Hd Hchild].
  apply os_walk_cut; [done| |done].
  rewrite Nat.sub_diag. by apply at_depth_join_slash.
Qed.
End Depth.

Lemma count_body_prunes (settings : Settings) (path root : string)
    (dirs : list DirInfo) (files : list (string * option Stat)) (n : nat) :
  (count_body settings path root dirs files n).2 = false →
  max_scan_depth settings ≤ depth_of path root →
  (count_body settings path root dirs files n).1.2 = [].
Proof.
  intros _ Hd. rewrite count_body_eq. cbn [fst snd]. unfold prune.
  by rewrite (proj2 (Nat.leb_le _ _) Hd).
Qed.

Lemma scan_body_prunes (settings : Settings) (stop : StopRequest)
    (extract_metadata : bool) (path root : string)
    (dirs : list DirInfo) (files : list (string * option Stat)) (w : Walk) :
  (scan_body settings stop extract_metadata path root dirs files w).2 = false →
  max_scan_depth settings ≤ depth_of path root →
  (scan_body settings stop extract_metadata path root dirs files w).1.2 = [].
Proof.
  rewrite scan_body_eq. destruct (poll stop w).2; cbn [fst snd]; [done|].
  intros _ Hd. unfold prune. by rewrite (proj2 (Nat.leb_le _ _) Hd).
Qed.

(** X12 The depth limit: for a library path that is not empty and does not
    end with a separator, a walk enters the directories at most
    [max_scan_depth] levels below the library path, and nothing below them.
    Both passes give the same outcome on the tree and on the tree cut so
    that the directories [max_scan_depth + 1] levels down have lost their
    sub-directories: those directories are themselves counted and
    processed, their contents are not. *)
Theorem walk_stops_at_max_scan_depth (settings : Settings) (stop : StopRequest)
    (directory_path : string) (fs : tree) (extract_metadata : bool)
    (p : ScanProgress) :
  directory_path ≠ "" → endswith "/" directory_path = false →
  Forall valid_name (dir_names fs) →
  _count_items_sync settings directory_path (cut (max_scan_depth settings) fs)
  = _count_items_sync settings directory_path fs
  ∧ _scan_directory_sync settings stop directory_path
      (cut (max_scan_depth settings) fs) extract_metadata p
    = _scan_directory_sync settings stop directory_path fs extract_metadata p.
Proof.
  intros Hp He Hn. unfold _count_items_sync, _scan_directory_sync. split.
  - rewrite (os_walk_cut_top settings directory_path); [done| |done..].
    apply count_body_prunes.
  - rewrite (os_walk_cut_top settings directory_path); [done| |done..].
    apply scan_body_prunes.
Qed.

Lemma walk_stops_at_max_scan_depth_witness :
  let shallow := mkSettings 0 (supported_video_extensions default_settings)
                   (supported_audio_extensions default_settings)
                   (supported_subtitle_extensions default_settings) 2 in
  _count_items_sync shallow "/media" (cut 0 sample_tree)
  = _count_items_sync shallow "/media" sample_tree
  ∧ _count_items_sync shallow "/media" sample_tree = 4
  ∧ _count_items_sync default_settings "/media" sample_tree = 7.
Proof.
  cbv zeta. split; [|split; vm_compute; reflexivity].
  apply (proj1 (walk_stops_at_max_scan_depth
                  (mkSettings 0 (supported_video_extensions default_settings)
                     (supported_audio_extensions default_settings)
                     (supported_subtitle_extensions default_settings) 2)
                  None "/media" sample_tree false (new_progress "scan-1" "/media" 0)
                  ltac:(discriminate) ltac:(reflexivity)
                  ltac:(repeat constructor; discriminate))).
Defined.

(** X17 The depth limit and a trailing separator: when the library path
    ends with a separator, the directories directly below it are joined
    without a new separator and count as depth 0, so the walk enters one more
    level: both passes give the same outcome on the tree and on the tree cut
    one level lower than for the same path without the trailing separator.
    With [max_scan_depth] 1 and a video file three levels down, the count is
    2 for ["/m"] and 3 for ["/m/"]. *)
Theorem trailing_separator_adds_a_level (settings : Settings) (stop : StopRequest)
    (directory_path : string) (fs : tree) (extract_metadata : bool)
    (p : ScanProgress) :
  (endswith "/" directory_path = true →
   Forall valid_name (dir_names fs) →
   _count_items_sync settings directory_path (cut (S (max_scan_depth settings)) fs)
   = _count_items_sync settings directory_path fs
   ∧ _scan_directory_sync settings stop directory_path
       (cut (S (max_scan_depth settings)) fs) extract_metadata p
     = _scan_directory_sync settings stop directory_path fs extract_metadata p)
  ∧ (let one_level := mkSettings 1 [".mp4"] [] [] 2 in
     let deep :=
       Node [] [("a", sample_stat,
                 Node [] [("b", sample_stat, Node [("x.mp4", sample_stat)] [])])] in
     _count_items_sync one_level "/m" deep = 2
     ∧ _count_items_sync one_level "/m/" deep = 3).
Proof.
  split; [|by vm_compute].
  intros He Hn. unfold _count_items_sync, _scan_directory_sync. split.
  - rewrite (os_walk_cut_slash settings directory_path); [done| |done..].
    apply count_body_prunes.
  - rewrite (os_walk_cut_slash settings directory_path); [done| |done..].
    apply scan_body_prunes.
Qed.

Lemma trailing_separator_adds_a_level_witness :
  let one_level := mkSettings 1 [".mp4"] [] [] 2 in
  let deep :=
    Node [] [("a", sample_stat,
              Node [] [("b", sample_stat, Node [("x.mp4", sample_stat)] [])])] in
  _count_items_sync one_level "/m/" (cut 2 deep) = _count_items_sync one_level "/m/" deep.
Proof.
  cbv zeta.
  apply (proj1 (proj1 (trailing_separator_adds_a_level
                         (mkSettings 1 [".mp4"] [] [] 2) None "/m/"
                         (Node [] [("a", sample_stat,
                                    Node [] [("b", sample_stat,
                                              Node [("x.mp4", sample_stat)] [])])])
                         false (new_progress "scan-1" "/m/" 0))
                      ltac:(reflexivity) ltac:(repeat constructor; discriminate))).
Defined.

(** * The classifier and the markers *)

Lemma contains_append (c : ascii) (a b : string) :
  contains c (a +:+ b) = contains c a || contains c b.
Proof.
  induction a as [|x a IH]; [done|].
  change (contains c (String x a +:+ b))
    with (bool_decide (c = x) || contains c (a +:+ b)).
  rewrite IH. simpl. by rewrite orb_assoc.
Qed.

Lemma contains_here (c : ascii) (s : string) : contains c (String c s) = true.
Proof. simpl. by rewrite bool_decide_eq_true_2. Qed.

Lemma contains_later (c x : ascii) (s : string) :
  contains c s = true → contains c (String x s) = true.
Proof. intros H. simpl. rewrite H. apply orb_true_r. Qed.

Lemma contains_drop_str (c : ascii) (k : nat) (s : string) :
  contains c (drop_str k s) = true → contains c s = true.
Proof.
  revert s. induction k as [|k IH]; intros s; [by rewrite drop_str_0|].
  destruct s as [|x s]; [done|]. rewrite drop_str_S. intros H%IH.
  simpl. rewrite H. apply orb_true_r.
Qed.

Lemma contains_upper (c C : ascii) (s : string) :
  upper_char c = String C "" → contains c s = true → contains C (upper s) = true.
Proof.
  intros Hc. induction s as [|x s IH]; [done|].
  change (upper (String x s)) with (upper_char x +:+ upper s).
  rewrite contains_append. simpl.
  intros [Hx|Hs]%orb_true_iff.
  - apply bool_decide_eq_true in Hx as <-. rewrite Hc. simpl.
    by rewrite bool_decide_eq_true_2.
  - rewrite IH by done. apply orb_true_r.
Qed.

Lemma episode_marker_letters (s : string) (i : nat) :
  episode_marker_at s i →
  contains "S" (upper s) = true ∧ contains "E" (upper s) = true.
Proof.
  intros (c & ds1 & e & ds2 & rest & Hd & Hc & He & _).
  assert (contains c s = true) as Hcs.
  { apply (contains_drop_str c i). rewrite Hd. apply contains_here. }
  assert (contains e s = true) as Hes.
  { apply (contains_drop_str e i). rewrite Hd. apply contains_later.
    rewrite contains_append, contains_here. apply orb_true_r. }
  split.
  - destruct Hc as [-> | ->]; by apply (contains_upper _ "S") in Hcs.
  - destruct He as [-> | ->]; by apply (contains_upper _ "E") in Hes.
Qed.

Lemma year_marker_parentheses (s : string) (i : nat) :
  year_marker_at s i → contains "(" s = true ∧ contains ")" s = true.
Proof.
  intros (a & b & c & d & rest & Hd & _).
  split; apply (contains_drop_str _ i); rewrite Hd.
  - apply contains_here.
  - do 5 apply contains_later. apply contains_here.
Qed.

(** X13 [_determine_file_media_type]: the two substring tests that guard
    the patterns never change the answer.  A file is an 'episode' exactly
    when its base name has an episode marker, whether or not it also has a
    year marker; otherwise it is a 'movie' exactly when the base name has a
    year marker; otherwise it is 'unknown'. *)
Theorem media_type_follows_markers (file_path : string) :
  let name := basename file_path in
  ((∃ i, episode_marker_at name i) →
   _determine_file_media_type file_path = "episode")
  ∧ ((∀ i, ¬ episode_marker_at name i) → (∃ i, year_marker_at name i) →
     _determine_file_media_type file_path = "movie")
  ∧ ((∀ i, ¬ marker_at name i) → _determine_file_media_type file_path = "unknown").
Proof.
  cbv zeta. unfold _determine_file_media_type.
  pose proof (re_search_episode (basename file_path)) as He.
  pose proof (re_search_year (basename file_path)) as Hy.
  destruct (re_search match_episode (basename file_path) 0) as [[i g]|].
  - destruct He as [He _]. destruct (episode_marker_letters _ _ He) as [-> ->].
    rewrite bool_decide_eq_true_2 by eauto. simpl.
    split_and!; [done| |].
    + intros Hno. by destruct (Hno i).
    + intros Hno. destruct (Hno i). by right.
  - rewrite (bool_decide_eq_false_2 (is_Some None)) by (by intros [? ?]).
    rewrite andb_false_r.
    destruct (re_search match_year (basename file_path) 0) as [[i g]|].
    + destruct Hy as [Hy _]. destruct (year_marker_parentheses _ _ Hy) as [-> ->].
      rewrite bool_decide_eq_true_2 by eauto. simpl.
      split_and!; [|done|].
      * intros [j Hj]. by destruct (He j).
      * intros Hno. destruct (Hno i). by left.
    + rewrite (bool_decide_eq_false_2 (is_Some None)) by (by intros [? ?]).
      rewrite andb_false_r.
      split_and!; [| |done].
      * intros [j Hj]. by destruct (He j).
      * intros _ [j Hj]. by destruct (Hy j).
Qed.

Lemma media_type_follows_markers_witness :
  _determine_file_media_type "/media/Show S01E02 (2019).mkv" = "episode"
  ∧ title (_parse_filename "Show S01E02 (2019).mkv") = "Show S01E02".
Proof.
  split; [|vm_compute; reflexivity].
  apply (proj1 (media_type_follows_markers "/media/Show S01E02 (2019).mkv")).
  exists 5. has_marker.
Defined.

Lemma drop_str_1 (i : nat) (s : string) : drop_str 1 (drop_str i s) = drop_str (S i) s.
Proof.
  revert i. induction s as [|c s IH]; intros i.
  - by rewrite !drop_str_empty.
  - destruct i as [|i]; [done|]. rewrite !drop_str_S. apply IH.
Qed.

Lemma match_year_digits (s g : string) :
  match_year s = Some g →
  g = take_str 4 (drop_str 1 s) ∧ int_of_digits g < 10000.
Proof.
  intros Hg. destruct (proj1 (match_year_spec s)) as (a & b & c & d & rest & -> & Hd);
    [eauto|].
  destruct Hd as (Ha & Hb & Hc & Hd). unfold match_year in Hg.
  rewrite Ha, Hb, Hc, Hd in Hg. injection Hg as <-. split; [done|].
  unfold is_digit, in_range in *.
  apply andb_true_iff in Ha as [_ Ha%Nat.leb_le], Hb as [_ Hb%Nat.leb_le],
    Hc as [_ Hc%Nat.leb_le], Hd as [_ Hd%Nat.leb_le].
  unfold int_of_digits, code in *.
  cbn -[Nat.mul Nat.add Nat.sub nat_of_ascii]. lia.
Qed.

Lemma match_episode_groups (c e : ascii) (ds1 ds2 rest : string) :
  (c = "S"%char ∨ c = "s"%char) → (e = "E"%char ∨ e = "e"%char) →
  ds1 ≠ "" → all_digits ds1 = true → ds2 ≠ "" → all_digits ds2 = true →
  match rest with String x _ => is_digit x = false | EmptyString => True end →
  match_episode (String c (ds1 +:+ String e (ds2 +:+ rest))) = Some (ds1, ds2).
Proof.
  intros Hc He Hn1 Hd1 Hn2 Hd2 Hrest. unfold match_episode.
  assert (bool_decide (c = "S"%char) || bool_decide (c = "s"%char) = true) as ->.
  { destruct Hc as [-> | ->]; done. }
  rewrite (span_digits_run ds1 (String e (ds2 +:+ rest)) Hd1)
    by (by apply letter_not_digit).
  destruct ds1 as [|d ds1]; [done|].
  assert (bool_decide (e = "E"%char) || bool_decide (e = "e"%char) = true) as ->.
  { destruct He as [-> | ->]; done. }
  rewrite (span_digits_run ds2 rest Hd2 Hrest).
  by destruct ds2.
Qed.

(** X14 [_parse_filename]: the year is set exactly when the
    extension-stripped name has a year marker, and is then the number
    written by the four digits of the first one, below 10000; season and
    episode are set together, exactly when the name has an episode marker,
    and are then the numbers written by the two runs of digits of the first
    one, each run taken to its end. *)
Theorem parsed_numbers_follow_markers (filename : string) :
  let name := (splitext filename).1 in
  let parsed := _parse_filename filename in
  (is_Some (year parsed) ↔ ∃ i, year_marker_at name i)
  ∧ (is_Some (season parsed) ↔ ∃ i, episode_marker_at name i)
  ∧ (is_Some (episode parsed) ↔ is_Some (season parsed))
  ∧ (∀ y, year parsed = Some y → y < 10000)
  ∧ (∀ i, first_at (year_marker_at name) i →
       year parsed = Some (int_of_digits (take_str 4 (drop_str (S i) name))))
  ∧ (∀ i c e ds1 ds2 rest,
       first_at (episode_marker_at name) i →
       drop_str i name = String c (ds1 +:+ String e (ds2 +:+ rest)) →
       (c = "S"%char ∨ c = "s"%char) → (e = "E"%char ∨ e = "e"%char) →
       ds1 ≠ "" → all_digits ds1 = true → ds2 ≠ "" → all_digits ds2 = true →
       match rest with String x _ => is_digit x = false | EmptyString => True end →
       season parsed = Some (int_of_digits ds1)
       ∧ episode parsed = Some (int_of_digits ds2)).
Proof.
  cbv zeta. unfold _parse_filename. cbn [year season episode].
  set (name := (splitext filename).1).
  pose proof (re_search_year name) as Hy.
  pose proof (re_search_episode name) as He.
  assert (Hya : is_Some (re_search match_year name 0) ↔ ∃ i, year_marker_at name i).
  { destruct (re_search match_year name 0) as [[i g]|].
    - split; [intros _; exists i; apply Hy|eauto].
    - split; [by intros [? ?]|intros [i Hi]; by destruct (Hy i)]. }
  assert (Hea : is_Some (re_search match_episode name 0)
                ↔ ∃ i, episode_marker_at name i).
  { destruct (re_search match_episode name 0) as [[i g]|].
    - split; [intros _; exists i; apply He|eauto].
    - split; [by intros [? ?]|intros [i Hi]; by destruct (He i)]. }
  split_and!.
  - by rewrite fmap_is_Some.
  - by rewrite fmap_is_Some.
  - by rewrite !fmap_is_Some.
  - intros y ([i g] & Es & ->)%fmap_Some.
    apply re_search_some in Es as (k & _ & Hk & _).
    by apply match_year_digits in Hk as [_ ?].
  - intros i Hi.
    destruct (re_search match_year name 0) as [[i' g]|] eqn:Es.
    + destruct (first_at_unique _ _ _ Hi Hy).
      apply re_search_some in Es as (k & Hik & Hk & _). cbn in Hik. subst k.
      apply match_year_digits in Hk as [-> _].
      cbn [fmap option_fmap option_map snd]. by rewrite drop_str_1.
    + destruct Hi as [Hi _]. by destruct (Hy i).
  - intros i c e ds1 ds2 rest Hi Hd Hc He' Hn1 Hd1 Hn2 Hd2 Hrest.
    destruct (re_search match_episode name 0) as [[i' [g1 g2]]|] eqn:Es.
    + destruct (first_at_unique _ _ _ Hi He).
      apply re_search_some in Es as (k & Hik & Hk & _). cbn in Hik. subst k.
      rewrite Hd in Hk.
      rewrite (match_episode_groups c e ds1 ds2 rest) in Hk by done.
      by injection Hk as <- <-.
    + destruct Hi as [Hi _]. by destruct (He i).
Qed.

Lemma parsed_numbers_follow_markers_witness :
  let parsed := _parse_filename "Show S01E02 (2019).mkv" in
  year parsed = Some 2019 ∧ season parsed = Some 1 ∧ episode parsed = Some 2.
Proof.
  cbv zeta.
  destruct (parsed_numbers_follow_markers "Show S01E02 (2019).mkv")
    as (_ & _ & _ & _ & Hyear & Hepisode).
  split.
  - apply (Hyear 12). split; [has_marker|].
    intros j Hj Hm. do 12 (destruct j as [|j]; [no_marker Hm|]). lia.
  - apply (Hepisode 5 "S"%char "E"%char "01" "02" " (2019)");
      [|reflexivity|by left|by left|done|done|done|done|done].
    split; [has_marker|].
    intros j Hj Hm. do 5 (destruct j as [|j]; [no_marker Hm|]). lia.
Defined.

(** * The tables of the offline reconciler *)

Lemma index_items_lookup_last (l : list Item) (k : string) :
  index_items l !! k = ODict <$> last (filter (λ e, stored_key e = k) l).
Proof.
  induction l as [|e l IH] using rev_ind.
  - unfold index_items. simpl. by rewrite lookup_empty.
  - rewrite index_items_snoc, filter_app, last_app.
    destruct (decide (stored_key e = k)) as [Hk|Hk].
    + rewrite (filter_cons_True _ e) by done. rewrite filter_nil. cbn [last].
      rewrite Hk. by rewrite lookup_insert_eq.
    + rewrite (filter_cons_False _ e) by done. rewrite filter_nil. cbn [last].
      by rewrite lookup_insert_ne.
Qed.

(** X15 The lookup tables of [_check_duplicates_with_existing]: when
    several supplied records have the same composite key, the table keeps
    the last one.  A discovered item is matched with, and compared with, the
    last supplied record of its kind that has its key; earlier records with
    that key play no part. *)
Theorem offline_tables_keep_last_record (library_path : string)
    (existing_files existing_directories : list Item) (item e : Item) :
  let key := composite_key library_path (default "" (path item)) in
  (∀ l k, index_items l !! k = ODict <$> last (filter (λ x, stored_key x = k) l))
  ∧ (matched (lookup_existing library_path (index_items existing_files)
                (index_items existing_directories) item) = Some (ODict e) →
     (item_type item = Some "file"
      ∧ last (filter (λ x, stored_key x = key) existing_files) = Some e)
     ∨ (item_type item = Some "directory"
        ∧ last (filter (λ x, stored_key x = key) existing_directories) = Some e)).
Proof.
  cbv zeta. split; [apply index_items_lookup_last|].
  intros (_ & [[Ht Hl]|[Ht Hl]])%matched_inv; [left|right]; (split; [done|]);
    rewrite index_items_lookup_last in Hl;
    apply fmap_Some in Hl as (x & Hx & [= ->]); exact Hx.
Qed.

Lemma offline_tables_keep_last_record_witness :
  let old := stored_file "/lib" "/m/a.mp4" 70 5 "movie" in
  let new := stored_file "/lib" "/m/a.mp4" 100 5 "movie" in
  let item := found_file "/m/a.mp4" 100 5 "movie" in
  last (filter (λ x, stored_key x = composite_key "/lib" "/m/a.mp4") [old; new]) = Some new
  ∧ _check_duplicates_with_existing [item] "user" "/lib" (Some [old; new]) None
    = mkReport 1 0 [] None
  ∧ _check_duplicates_with_existing [item] "user" "/lib" (Some [new; old]) None
    = mkReport 1 0 [mkDiffEntry "/m/a.mp4" "file"
                      [mkFieldDiff "size" (SInt 100) (SInt 70)]] None.
Proof.
  cbv zeta. split; [|split; vm_compute; reflexivity].
  destruct (proj2 (offline_tables_keep_last_record "/lib"
                     [stored_file "/lib" "/m/a.mp4" 70 5 "movie";
                      stored_file "/lib" "/m/a.mp4" 100 5 "movie"] []
                     (found_file "/m/a.mp4" 100 5 "movie")
                     (stored_file "/lib" "/m/a.mp4" 100 5 "movie"))
             ltac:(vm_compute; reflexivity)) as [[_ H]|[H _]].
  - exact H.
  - discriminate H.
Defined.

(** * The counters of a finished scan *)

Lemma count_type_partition (l : list Item) :
  Forall engine_item l →
  count_type "file" l + count_type "directory" l = length l.
Proof.
  unfold count_type. induction 1 as [|i l Hi Hl IH]; [done|].
  rewrite !filter_cons. destruct Hi as ([Ht|Ht] & _); rewrite Ht.
  - rewrite decide_True by done. rewrite decide_False by done. simpl. lia.
  - rewrite decide_False by done. rewrite decide_True by done. simpl. lia.
Qed.

Lemma finish_scan_results (w : World) (library_path : string) (check_duplicates : bool)
    (user_id : option string)
    (existing_files existing_directories : option (list Item)) (walk : Walk) :
  let final := finish_scan w library_path check_duplicates user_id existing_files
                 existing_directories walk in
  sublist (scan_results final) (results walk)
  ∧ files_found final = count_type "file" (scan_results final)
  ∧ directories_found final = count_type "directory" (scan_results final).
Proof.
  cbv zeta. unfold finish_scan.
  destruct (wants_duplicate_check check_duplicates user_id) as [uid|]; [|done].
  rewrite reconcile_catches. unfold duplicate_stage.
  match goal with |- context [0 <? duplicatesFound ?r] =>
    destruct (0 <? duplicatesFound r) end; cbn; [|done].
  split; [apply sublist_filter|done].
Qed.

(** X16 The counters of a finished scan: whatever the options, the scan
    results that [_run_scan_async] leaves in the progress object are results
    of the processing pass, in their order; [files_found] and
    [directories_found] count the files and the directories among them, and
    together they count all of them; and there are never more results than
    entries processed by this scan. *)
Theorem finished_scan_counters_match_results (w : World) (library_path : string)
    (extract_metadata check_duplicates : bool) (user_id : option string)
    (existing_files existing_directories : option (list Item)) (p0 : ScanProgress) :
  let walk := scan_passes w library_path extract_metadata p0 in
  let final := _run_scan_async w library_path extract_metadata check_duplicates
                 user_id existing_files existing_directories p0 in
  sublist (scan_results final) (results walk)
  ∧ files_found final = count_type "file" (scan_results final)
  ∧ directories_found final = count_type "directory" (scan_results final)
  ∧ files_found final + directories_found final = length (scan_results final)
  ∧ length (scan_results final) + processed_items p0 ≤ processed_items final.
Proof.
  cbv zeta. unfold _run_scan_async.
  set (walk := scan_passes w library_path extract_metadata p0).
  destruct (finish_scan_results w library_path check_duplicates user_id existing_files
              existing_directories walk) as (Hsub & Hf & Hd).
  destruct (finish_scan_counters w library_path check_duplicates user_id existing_files
              existing_directories walk) as (_ & _ & _ & Hp).
  split_and!; [done|done|done| |].
  - rewrite Hf, Hd. apply count_type_partition, Forall_forall. intros i Hi.
    apply (scan_results_engine_items (settings w) (stop w) library_path (fs_scan w)
             extract_metadata
             (set_total_items (_count_items_sync (settings w) library_path (fs_count w))
                p0)).
    eapply elem_of_sublist; [exact Hi|exact Hsub].
  - rewrite Hp. apply sublist_length in Hsub.
    destruct (scan_directory_counted (settings w) (stop w) library_path (fs_scan w)
                extract_metadata
                (set_total_items (_count_items_sync (settings w) library_path
                                    (fs_count w)) p0))
      as (new & added & Hn & Ha & Hl & Hc & _).
    fold (scan_passes w library_path extract_metadata p0) in Hn, Ha, Hc.
    fold walk in Hn, Ha, Hc. cbn [notified results progress app] in Hn, Ha, Hc.
    rewrite Ha in Hsub. cbn in Hc. lia.
Qed.

(** * The online reconciler *)

Lemma reconcile_loop_empty_tables (lib : string) (items : list Item) (t : Tally) :
  for_each (reconcile_item lib ∅ ∅) items t
  = Ok (mkTally
          (new_items t
           + length (filter (λ i, item_type i = Some "file"
                                  ∨ item_type i = Some "directory") items))
          (duplicates_found t) (tally_differences t)).
Proof.
  revert t. induction items as [|item items IH]; intros t.
  - simpl. rewrite Nat.add_0_r. by destruct t.
  - cbn [for_each].
    assert (reconcile_item lib ∅ ∅ t item
            = Ok (mkTally
                    (new_items t
                     + (if decide (item_type item = Some "file"
                                   ∨ item_type item = Some "directory")
                        then 1 else 0))
                    (duplicates_found t) (tally_differences t))) as ->.
    { unfold reconcile_item, lookup_existing.
      destruct (item_type item) as [ty|]; cbn [default from_option id].
      - destruct (decide (ty = "file")) as [->|Hf].
        + rewrite lookup_empty. cbn [matched]. rewrite decide_True by (by left).
          by rewrite Nat.add_1_r.
        + destruct (decide (ty = "directory")) as [->|Hd].
          * rewrite lookup_empty. cbn [matched]. rewrite decide_True by (by right).
            by rewrite Nat.add_1_r.
          * rewrite decide_False by (intros [[= ?]|[= ?]]; done).
            rewrite Nat.add_0_r. by destruct t.
      - rewrite decide_False by done. rewrite decide_False by done.
        rewrite decide_False by (by intros [?|?]).
        rewrite Nat.add_0_r. by destruct t. }
    cbn [mbind result_bind]. rewrite IH. cbn [new_items duplicates_found tally_differences].
    rewrite filter_cons.
    destruct (decide (item_type item = Some "file" ∨ item_type item = Some "directory"));
      cbn [length]; [by rewrite Nat.add_1_r, Nat.add_succ_comm|by rewrite Nat.add_0_r].
Qed.

Lemma check_duplicates_empty_inventory (fs : FirestoreService) (scan_results : list Item)
    (user_id library_path : string) :
  get_existing_file_paths fs user_id = ∅ →
  get_existing_directory_paths fs user_id = ∅ →
  _check_duplicates fs scan_results user_id library_path
  = mkReport 0
      (length (filter (λ i, item_type i = Some "file" ∨ item_type i = Some "directory")
                 scan_results))
      [] None.
Proof.
  intros Hf Hd. unfold _check_duplicates. rewrite Hf, Hd, index_keys_empty.
  cbn [mbind result_bind]. unfold reconcile_loop.
  by rewrite reconcile_loop_empty_tables.
Qed.

(** X18 [_check_duplicates] (online mode) in general: the report never
    counts a duplicate and never lists a difference.  When Firestore returns
    no document of either kind, every item of type 'file' or 'directory' is
    new and there is no error; as soon as it returns one document, the
    key-building loop fails and the report is the fallback with the error
    message, every item new.  So a scan started without supplied records
    never has anything removed from its results. *)
Theorem online_mode_never_filters :
  (∀ (fs : FirestoreService) (scan_results : list Item) (user_id library_path : string),
     let report := _check_duplicates fs scan_results user_id library_path in
     let empty := get_existing_file_paths fs user_id = ∅
                  ∧ get_existing_directory_paths fs user_id = ∅ in
     duplicatesFound report = 0 ∧ differences report = []
     ∧ (empty →
        error report = None
        ∧ newItems report
          = length (filter (λ i, item_type i = Some "file"
                                 ∨ item_type i = Some "directory") scan_results))
     ∧ (¬ empty → report = fallback_report scan_results (no_attribute "str")))
  ∧ (∀ (w : World) (library_path : string) (extract_metadata check_duplicates : bool)
       (user_id : option string) (p0 : ScanProgress),
       scan_results (_run_scan_async w library_path extract_metadata check_duplicates
                       user_id None None p0)
       = results (scan_passes w library_path extract_metadata p0)).
Proof.
  assert (Hreport : ∀ fs scan_results user_id library_path,
            (get_existing_file_paths fs user_id = ∅
             ∧ get_existing_directory_paths fs user_id = ∅
             ∧ _check_duplicates fs scan_results user_id library_path
               = mkReport 0
                   (length (filter (λ i, item_type i = Some "file"
                                         ∨ item_type i = Some "directory")
                              scan_results)) [] None)
            ∨ (¬ (get_existing_file_paths fs user_id = ∅
                  ∧ get_existing_directory_paths fs user_id = ∅)
               ∧ _check_duplicates fs scan_results user_id library_path
                 = fallback_report scan_results (no_attribute "str"))).
  { intros fs scan_results user_id library_path.
    destruct (decide (get_existing_file_paths fs user_id = ∅)) as [Hf|Hf];
      [destruct (decide (get_existing_directory_paths fs user_id = ∅)) as [Hd|Hd]|].
    - left. split_and!; [done|done|]. by apply check_duplicates_empty_inventory.
    - right. split; [tauto|]. apply check_duplicates_fallback. by right.
    - right. split; [tauto|]. apply check_duplicates_fallback. by left. }
  split.
  - intros fs scan_results user_id library_path. cbv zeta.
    destruct (Hreport fs scan_results user_id library_path)
      as [(Hf & Hd & ->)|(Hne & ->)]; cbn.
    + split_and!; [done|done|done|]. intros Hn. destruct Hn. done.
    + split_and!; [done|done| |done]. intros He. by destruct Hne.
  - intros w library_path extract_metadata check_duplicates user_id p0.
    unfold _run_scan_async, finish_scan.
    destruct (wants_duplicate_check check_duplicates user_id) as [uid|]; [|done].
    unfold reconcile. cbn [bool_decide orb].
    rewrite (bool_decide_eq_false_2 (is_Some None)) by (by intros [? ?]).
    cbn [orb]. unfold duplicate_stage.
    destruct (Hreport (firestore w)
                (results (scan_passes w library_path extract_metadata p0)) uid
                library_path) as [(_ & _ & ->)|(_ & ->)]; done.
Qed.

Lemma online_mode_never_filters_witness :
  let fs := mkFirestore false None None in
  let report := _check_duplicates fs [found_file "/m/a.mp4" 100 5 "movie"] "user" "/lib" in
  error report = None ∧ newItems report = 1.
Proof.
  cbv zeta.
  destruct (proj1 (proj2 (proj2 (proj1 online_mode_never_filters
                                   (mkFirestore false None None)
                                   [found_file "/m/a.mp4" 100 5 "movie"] "user" "/lib")))
             ltac:(split; reflexivity)) as [He Hn].
  split; [exact He|]. rewrite Hn. reflexivity.
Defined.

(** * The verification endpoint *)

Lemma verify_file_spec (stat_of : string → option Stat) (p : string) :
  let r := verify_file stat_of p in
  verified_path r = p ∧ file_exists r = accessible r
  ∧ accessible r = bool_decide (is_Some (stat_of p))
  ∧ (is_Some (verified_metadata r) ↔ accessible r = true)
  ∧ (is_Some (verification_error r) ↔ accessible r = false).
Proof.
  cbv zeta. unfold verify_file, validate_path_security, get_file_metadata.
  destruct (stat_of p) as [st|]; cbn.
  - split_and!; [done|done|done|split; eauto|split; [by intros [? ?]|done]].
  - split_and!; [done|done|done|split; [by intros [? ?]|done]|split; eauto].
Qed.

Lemma verify_loop_fmap (stat_of : string → option Stat) (paths : list string)
    (acc : list Verification) :
  foldl (λ verification_results file_path,
           verification_results ++ [verify_file stat_of file_path]) acc paths
  = acc ++ (verify_file stat_of <$> paths).
Proof.
  revert acc. induction paths as [|p paths IH]; intros acc; simpl.
  - by rewrite app_nil_r.
  - rewrite IH. by rewrite <- app_assoc.
Qed.

Lemma verify_counts (stat_of : string → option Stat) (paths : list string) :
  length (filter (λ r, accessible r = true) (verify_file stat_of <$> paths))
  = length (filter (λ p, is_Some (stat_of p)) paths)
  ∧ length (filter (λ r, file_exists r = false) (verify_file stat_of <$> paths))
    + length (filter (λ p, is_Some (stat_of p)) paths)
    = length paths.
Proof.
  induction paths as [|p paths [IH1 IH2]]; [done|].
  rewrite fmap_cons, !filter_cons.
  destruct (verify_file_spec stat_of p) as (_ & -> & -> & _).
  destruct (decide (is_Some (stat_of p))) as [Hs|Hs].
  - rewrite bool_decide_eq_true_2 by done.
    rewrite decide_True by done. rewrite decide_False by done.
    cbn [length]. split; lia.
  - rewrite bool_decide_eq_false_2 by done.
    rewrite decide_False by done. rewrite decide_True by done.
    cbn [length]. split; lia.
Qed.

(** X19 [verify_files]: the response has one result per requested path, in
    the order of the request; a path is reported accessible exactly when it
    exists, and then carries its metadata and no error, otherwise an error
    and no metadata.  In the summary, [total] is the number of requested
    paths, every path is counted either as accessible or as missing, and
    never as both. *)
Theorem verify_files_summary (stat_of : string → option Stat)
    (filePaths : list string) :
  let results := (verify_files stat_of filePaths).1 in
  let summary := (verify_files stat_of filePaths).2 in
  length results = length filePaths
  ∧ total summary = length filePaths
  ∧ accessible_count summary + missing summary = total summary
  ∧ accessible_count summary = length (filter (λ p, is_Some (stat_of p)) filePaths)
  ∧ ∀ i p, filePaths !! i = Some p →
      ∃ r, results !! i = Some r ∧ verified_path r = p
           ∧ file_exists r = accessible r
           ∧ (accessible r = true ↔ is_Some (stat_of p))
           ∧ (is_Some (verified_metadata r) ↔ accessible r = true)
           ∧ (is_Some (verification_error r) ↔ accessible r = false).
Proof.
  cbv zeta. unfold verify_files. cbn [fst snd total accessible_count missing].
  rewrite verify_loop_fmap, app_nil_l.
  destruct (verify_counts stat_of filePaths) as [Ha Hm].
  split_and!; [by rewrite length_fmap|done|lia|done|].
  intros i p Hp. exists (verify_file stat_of p).
  destruct (verify_file_spec stat_of p) as (H1 & H2 & H3 & H4 & H5).
  split_and!; [by rewrite list_lookup_fmap, Hp|done|done| |done|done].
  rewrite H3. apply bool_decide_eq_true.
Qed.

Lemma verify_files_summary_witness :
  let stat_of p := if decide (p = "/m/a.mp4") then sample_stat else None in
  ∃ r, (verify_files stat_of ["/m/a.mp4"; "/m/gone.mp4"]).1 !! 1 = Some r
       ∧ verified_path r = "/m/gone.mp4" ∧ accessible r = false
       ∧ (verify_files stat_of ["/m/a.mp4"; "/m/gone.mp4"]).2 = mkSummary 2 1 1.
Proof.
  cbv zeta.
  destruct (proj2 (proj2 (proj2 (proj2
             (verify_files_summary
                (λ p, if decide (p = "/m/a.mp4") then sample_stat else None)
                ["/m/a.mp4"; "/m/gone.mp4"])))) 1 "/m/gone.mp4" eq_refl)
    as (r & Hr & Hp & _ & Ha & _).
  exists r. split_and!; [exact Hr|exact Hp| |vm_compute; reflexivity].
  destruct (accessible r); [|reflexivity].
  destruct (proj1 Ha eq_refl) as [? Hs]. vm_compute in Hs. discriminate Hs.
Defined.

(** * Cancellation *)

Lemma stops_once_refl (n : nat) (now : Z) (w : Walk) : stops_once n now w w.
Proof. split_and!; [done|done|]. intros Hs. left. split; [done|lia]. Qed.

Lemma stops_once_trans (n : nat) (now : Z) (a b c : Walk) :
  stops_once n now a b → stops_once n now b c → stops_once n now a c.
Proof.
  intros (Hm1 & Hf1 & Hs1) (Hm2 & Hf2 & Hs2). split_and!.
  - lia.
  - intros Ha. pose proof (Hf1 Ha) as Hb. subst b. by apply Hf2.
  - intros Ha. destruct (Hs1 Ha) as [[Hb Hr1]|(Hb & Hle & Hn & Ht)].
    + destruct (Hs2 Hb) as [[Hc Hr2]|(Hc & Hle & Hn & Ht)].
      * left. split; [done|lia].
      * right. split_and!; [done|lia|done|done].
    + rewrite (Hf2 Hb). right. done.
Qed.

Lemma poll_stops_once (n : nat) (now : Z) (w : Walk) :
  stops_once n now w (poll (Some (n, now)) w).1.
Proof.
  destruct w as [p r l]. unfold poll, cancel. cbn [fst snd progress].
  destruct (decide (processed_items p = n)) as [Hn|Hn];
    [destruct (decide (status p = Scanning)) as [Hs|Hs]|]; cbn [fst snd].
  - split_and!; [simpl; lia|intros Hc; simpl in Hc; congruence|].
    intros _. right. simpl. split_and!; [done|lia|done|done].
  - apply stops_once_refl.
  - apply stops_once_refl.
Qed.

Lemma poll_scanning (n : nat) (now : Z) (w : Walk) :
  status (progress w) = Scanning →
  (poll (Some (n, now)) w = (w, false) ∧ processed_items (progress w) ≠ n)
  ∨ ((poll (Some (n, now)) w).2 = true
     ∧ status (progress (poll (Some (n, now)) w).1) = Cancelled).
Proof.
  intros Hs. destruct w as [p r l]. unfold poll, cancel. cbn [fst snd progress] in *.
  destruct (decide (processed_items p = n)) as [Hn|Hn].
  - right. rewrite decide_True by done. cbn. done.
  - left. by rewrite Hs.
Qed.

Lemma poll_cancelled (n : nat) (now : Z) (w : Walk) :
  status (progress w) = Cancelled → poll (Some (n, now)) w = (w, true).
Proof.
  intros Hs. destruct w as [p r l]. unfold poll, cancel. cbn [fst snd progress] in *.
  destruct (decide (processed_items p = n)).
  - rewrite decide_False by congruence. cbn. by rewrite Hs.
  - by rewrite Hs.
Qed.

Lemma count_processed_counter (info : option Item) (w : Walk) :
  processed_items (progress (count_processed (append_result info w)))
  = S (processed_items (progress w))
  ∧ status (progress (count_processed (append_result info w))) = status (progress w).
Proof.
  destruct (append_result_progress info w) as [Hp _].
  unfold count_processed. cbn [progress]. by rewrite Hp.
Qed.

Lemma count_after_poll (n : nat) (now : Z) (info : option Item) (w : Walk) :
  (poll (Some (n, now)) w).2 = false →
  stops_once n now w
    (count_processed (append_result info (poll (Some (n, now)) w).1)).
Proof.
  intros Hnc. split_and!.
  - destruct (poll_stops_once n now w) as (Hm & _).
    destruct (count_processed_counter info (poll (Some (n, now)) w).1) as [-> _]. lia.
  - intros Hc. rewrite (poll_cancelled _ _ _ Hc) in Hnc. done.
  - intros Hs. destruct (poll_scanning n now w Hs) as [[Heq Hne]|[Ht _]];
      [|congruence].
    rewrite Heq. cbn [fst]. left.
    destruct (count_processed_counter info w) as [-> ->]. split; [done|lia].
Qed.

Lemma path_after_poll (n : nat) (now : Z) (root : string) (w : Walk) :
  (poll (Some (n, now)) w).2 = false →
  stops_once n now w
    (mkWalk (set_current_path root (progress (poll (Some (n, now)) w).1))
       (results (poll (Some (n, now)) w).1) (notified (poll (Some (n, now)) w).1)).
Proof.
  intros Hnc. split_and!.
  - destruct (poll_stops_once n now w) as (Hm & _). simpl. exact Hm.
  - intros Hc. rewrite (poll_cancelled _ _ _ Hc) in Hnc. done.
  - intros Hs. destruct (poll_scanning n now w Hs) as [[Heq Hne]|[Ht _]];
      [|congruence].
    rewrite Heq. cbn [fst]. left. simpl. split; [done|lia].
Qed.

Lemma process_dirs_stops_once (settings : Settings) (n : nat) (now : Z) (root : string)
    (dirs : list DirInfo) (w : Walk) :
  stops_once n now w (process_dirs settings (Some (n, now)) root dirs w).
Proof.
  revert w. induction dirs as [|d dirs IH]; intros w.
  - apply stops_once_refl.
  - rewrite process_dirs_cons. destruct (poll (Some (n, now)) w).2 eqn:Hc.
    + apply poll_stops_once.
    + eapply stops_once_trans; [by apply count_after_poll|apply IH].
Qed.

Lemma process_files_stops_once (settings : Settings) (n : nat) (now : Z)
    (extract_metadata : bool) (root : string) (files : list (string * option Stat))
    (w : Walk) :
  stops_once n now w
    (process_files settings (Some (n, now)) extract_metadata root files w).
Proof.
  revert w. induction files as [|[f st] files IH]; intros w.
  - apply stops_once_refl.
  - rewrite process_files_cons. destruct (poll (Some (n, now)) w).2 eqn:Hc.
    + apply poll_stops_once.
    + destruct (negb (_is_media_file settings f)).
      * eapply stops_once_trans; [apply poll_stops_once|apply IH].
      * eapply stops_once_trans; [by apply count_after_poll|apply IH].
Qed.

Lemma scan_body_stops_once (settings : Settings) (n : nat) (now : Z)
    (extract_metadata : bool) (path root : string) (dirs : list DirInfo)
    (files : list (string * option Stat)) (w : Walk) :
  stops_once n now w
    (scan_body settings (Some (n, now)) extract_metadata path root dirs files w).1.1.
Proof.
  rewrite scan_body_eq. destruct (poll (Some (n, now)) w).2 eqn:Hc; cbn [fst snd].
  - apply poll_stops_once.
  - eapply stops_once_trans; [by apply (path_after_poll n now root)|].
    eapply stops_once_trans; [apply process_dirs_stops_once|].
    apply process_files_stops_once.
Qed.

Lemma os_walk_stops_once (settings : Settings) (n : nat) (now : Z)
    (extract_metadata : bool) (path : string) (t : tree) (top : string) (w : Walk) :
  stops_once n now w
    (os_walk (scan_body settings (Some (n, now)) extract_metadata path) top t w).1.
Proof.
  apply (os_walk_invariant (stops_once n now)
           (scan_body settings (Some (n, now)) extract_metadata path)
           (stops_once_refl n now) (stops_once_trans n now)
           (scan_body_stops_once settings n now extract_metadata path)).
Qed.

(** A pass that is still scanning at its end was scanning throughout. *)
Lemma still_scanning (n : nat) (now : Z) (a b c : Walk) :
  status (progress a) = Scanning →
  stops_once n now a b → stops_once n now b c →
  status (progress c) = Scanning → status (progress b) = Scanning.
Proof.
  intros Ha (_ & _ & Hs1) (_ & Hf2 & _) Hc.
  destruct (Hs1 Ha) as [[Hb _]|(Hb & _)]; [done|].
  rewrite (Hf2 Hb) in Hc. congruence.
Qed.

Section Simulation.
Variables (settings : Settings) (n : nat) (now : Z) (extract_metadata : bool)
          (path : string).

Lemma process_dirs_unstopped (root : string) (dirs : list DirInfo) (w : Walk) :
  status (progress w) = Scanning →
  status (progress (process_dirs settings (Some (n, now)) root dirs w)) = Scanning →
  process_dirs settings (Some (n, now)) root dirs w
  = process_dirs settings None root dirs w.
Proof.
  revert w. induction dirs as [|d dirs IH]; intros w Hs; [done|].
  rewrite !process_dirs_cons, (poll_none w Hs). cbn [fst snd].
  destruct (poll_scanning n now w Hs) as [[-> _]|[-> Hc]]; cbn [fst snd].
  - apply IH. by rewrite (proj2 (count_processed_counter _ w)).
  - congruence.
Qed.

Lemma process_files_unstopped (root : string) (files : list (string * option Stat))
    (w : Walk) :
  status (progress w) = Scanning →
  status (progress (process_files settings (Some (n, now)) extract_metadata root
                      files w)) = Scanning →
  process_files settings (Some (n, now)) extract_metadata root files w
  = process_files settings None extract_metadata root files w.
Proof.
  revert w. induction files as [|[f st] files IH]; intros w Hs; [done|].
  rewrite !process_files_cons, (poll_none w Hs). cbn [fst snd].
  destruct (poll_scanning n now w Hs) as [[-> _]|[-> Hc]]; cbn [fst snd].
  - destruct (negb (_is_media_file settings f)); [by apply IH|].
    apply IH. by rewrite (proj2 (count_processed_counter _ w)).
  - congruence.
Qed.

Lemma scan_body_unstopped (root : string) (dirs : list DirInfo)
    (files : list (string * option Stat)) (w : Walk) :
  status (progress w) = Scanning →
  status (progress (scan_body settings (Some (n, now)) extract_metadata path root
                      dirs files w).1.1) = Scanning →
  scan_body settings (Some (n, now)) extract_metadata path root dirs files w
  = scan_body settings None extract_metadata path root dirs files w.
Proof.
  intros Hs. rewrite !scan_body_eq, (poll_none w Hs). cbn [fst snd].
  destruct (poll_scanning n now w Hs) as [[-> _]|[-> Hc]]; cbn [fst snd];
    [|congruence].
  set (w1 := mkWalk (set_current_path root (progress w)) (results w) (notified w)).
  intros Hend.
  assert (Hs1 : status (progress w1) = Scanning) by exact Hs.
  assert (Hmid : status (progress
                           (process_dirs settings (Some (n, now)) root
                              (filter (λ d, keep_dir (dir_name d)) dirs) w1))
                 = Scanning).
  { eapply (still_scanning n now w1); [exact Hs1| | |exact Hend].
    - apply process_dirs_stops_once.
    - apply process_files_stops_once. }
  pose proof (process_dirs_unstopped root _ w1 Hs1 Hmid) as Hd.
  rewrite Hd in Hend, Hmid |- *.
  by rewrite (process_files_unstopped root files _ Hmid Hend).
Qed.

Lemma descend_stops_once (top : string) (subdirs : list (string * option Stat * tree))
    (dirs : list string) (w : Walk) :
  stops_once n now w
    (descend (scan_body settings (Some (n, now)) extract_metadata path) top subdirs
       dirs w).1.
Proof.
  revert w. induction dirs as [|d dirs IH]; intros w; [apply stops_once_refl|].
  cbn [descend]. destruct (find_child subdirs d) as [child|]; [|apply IH].
  pose proof (os_walk_stops_once settings n now extract_metadata path child
                (path_join top d) w) as Hc.
  destruct (os_walk _ (path_join top d) child w) as [w1 [|]]; cbn [fst] in *; [done|].
  eapply stops_once_trans; [exact Hc|apply IH].
Qed.

Lemma descend_unstopped (top : string) (subdirs : list (string * option Stat * tree))
    (dirs : list string) :
  Forall (λ entry, ∀ top w,
            status (progress w) = Scanning →
            status (progress (os_walk (scan_body settings (Some (n, now))
                                         extract_metadata path) top entry.2 w).1)
            = Scanning →
            os_walk (scan_body settings (Some (n, now)) extract_metadata path)
              top entry.2 w
            = os_walk (scan_body settings None extract_metadata path) top entry.2 w)
         subdirs →
  ∀ w, status (progress w) = Scanning →
       status (progress (descend (scan_body settings (Some (n, now)) extract_metadata
                                    path) top subdirs dirs w).1) = Scanning →
       descend (scan_body settings (Some (n, now)) extract_metadata path) top subdirs
         dirs w
       = descend (scan_body settings None extract_metadata path) top subdirs dirs w.
Proof.
  intros Hsub. induction dirs as [|d dirs IH]; intros w Hs; [done|].
  cbn [descend]. destruct (find_child subdirs d) as [child|] eqn:Hc; [|by apply IH].
  apply find_child_elem in Hc as (entry & Hin & <-).
  pose proof (proj1 (Forall_forall _ _) Hsub entry Hin (path_join top d) w Hs) as Hchild.
  pose proof (os_walk_stops_once settings n now extract_metadata path entry.2
                (path_join top d) w) as Hone.
  destruct (os_walk (scan_body settings (Some (n, now)) extract_metadata path)
              (path_join top d) entry.2 w) as [w1 s1].
  cbn [fst] in *. destruct s1.
  - intros Hend. cbn [fst] in Hend. by rewrite <- (Hchild Hend).
  - intros Hend.
    assert (Hs1 : status (progress w1) = Scanning).
    { eapply (still_scanning n now w); [exact Hs|exact Hone| |exact Hend].
      apply descend_stops_once. }
    rewrite <- (Hchild Hs1). by apply IH.
Qed.

Lemma os_walk_unstopped (t : tree) :
  ∀ top w,
    status (progress w) = Scanning →
    status (progress (os_walk (scan_body settings (Some (n, now)) extract_metadata
                                 path) top t w).1) = Scanning →
    os_walk (scan_body settings (Some (n, now)) extract_metadata path) top t w
    = os_walk (scan_body settings None extract_metadata path) top t w.
Proof.
  induction t as [files subdirs IH] using tree_induction. intros top w Hs.
  rewrite !os_walk_unfold.
  pose proof (scan_body_unstopped top (dir_info <$> subdirs) files w Hs) as Hbody.
  pose proof (scan_body_stops_once settings n now extract_metadata path top
                (dir_info <$> subdirs) files w) as Hone.
  destruct (scan_body settings (Some (n, now)) extract_metadata path top
              (dir_info <$> subdirs) files w) as [[w1 dirs1] s1].
  cbn [fst snd] in *. destruct s1.
  - intros Hend. cbn [fst] in Hend. by rewrite <- (Hbody Hend).
  - intros Hend.
    assert (Hs1 : status (progress w1) = Scanning).
    { eapply (still_scanning n now w); [exact Hs|exact Hone| |exact Hend].
      apply descend_stops_once. }
    rewrite <- (Hbody Hs1). by apply descend_unstopped.
Qed.
End Simulation.

(** X20 A [stop_scan] that lands between two entries stops the pass at
    once.  Let the [stop_scan] land between two entries of a scanning pass,
    when the counter reads [n], as it does when the progress callback issues
    it on being handed the counter [n].  Then either the pass ends
    cancelled, with the counter left at [n] and the end time of the stop, so
    no entry was processed after the stop; or the pass ends still scanning,
    is the very pass that runs without any stop, has processed every entry
    that [_count_items_sync] counts on the same tree, and [n] was never the
    value of the counter before an entry.  In particular such a stop at a
    count that the pass reaches before its last entry always cancels it.  A
    [stop_scan] that lands while an entry is in flight is not covered: the
    walk finishes that entry and counts it before it stops. *)
Theorem cancellation_is_prompt (settings : Settings) (n : nat) (now : Z)
    (directory_path : string) (fs : tree) (extract_metadata : bool)
    (p : ScanProgress) :
  status p = Scanning →
  let walk := _scan_directory_sync settings (between_entries n now) directory_path fs
                extract_metadata p in
  let entries := _count_items_sync settings directory_path fs in
  (status (progress walk) = Cancelled
   ∧ processed_items (progress walk) = n
   ∧ end_time (progress walk) = Some now
   ∧ processed_items p ≤ n ≤ processed_items p + entries)
  ∨ (status (progress walk) = Scanning
     ∧ walk = _scan_directory_sync settings None directory_path fs extract_metadata p
     ∧ processed_items (progress walk) = processed_items p + entries
     ∧ ¬ (processed_items p ≤ n < processed_items p + entries)).
Proof.
  intros Hs. cbv zeta. unfold between_entries, _scan_directory_sync, _count_items_sync.
  destruct (os_walk_stops_once settings n now extract_metadata directory_path fs
              directory_path (mkWalk p [] [])) as (Hm & _ & Hcase).
  destruct (passes_agree_tree settings (Some (n, now)) extract_metadata directory_path
              fs directory_path 0 (mkWalk p [] [])) as (_ & _ & Hadv & _).
  destruct (passes_agree_tree settings None extract_metadata directory_path
              fs directory_path 0 (mkWalk p [] [])) as (_ & _ & _ & Hall).
  destruct (Hall eq_refl Hs) as (_ & _ & Hdone & _).
  rewrite Nat.sub_0_r in Hadv, Hdone.
  destruct Hadv as (_ & Hle & _). cbn [progress] in Hm, Hle, Hdone, Hcase.
  destruct (Hcase Hs) as [[Hend Hrange]|(Hend & Hlo & Hn & Ht)].
  - right.
    pose proof (os_walk_unstopped settings n now extract_metadata directory_path fs
                  directory_path (mkWalk p [] []) Hs Hend) as Heq.
    rewrite Heq in Hend, Hrange |- *. rewrite Hdone in Hrange |- *.
    split_and!; [done|done|done|exact Hrange].
  - left. split_and!; [done|done|done|lia|lia].
Qed.

Lemma cancellation_is_prompt_witness :
  let walk := _scan_directory_sync default_settings (between_entries 2 50%Z) "/media"
                sample_tree false (new_progress "scan-1" "/media" 0) in
  status (progress walk) = Cancelled ∧ processed_items (progress walk) = 2
  ∧ end_time (progress walk) = Some 50%Z.
Proof.
  cbv zeta.
  destruct (cancellation_is_prompt default_settings 2 50 "/media" sample_tree false
              (new_progress "scan-1" "/media" 0) eq_refl)
    as [(Hc & Hn & Ht & _)|(_ & _ & _ & Hr)].
  - split_and!; [exact Hc|exact Hn|exact Ht].
  - exfalso. apply Hr. vm_compute. split; [apply le_S, le_S, le_n|].
    apply le_n_S, le_n_S, le_n_S. apply Nat.le_0_l.
Defined.

(** * When the results become visible *)

Lemma status_kept_refl (w : Walk) : status_kept w w.
Proof. split; [by left|]. exists []. by rewrite app_nil_r. Qed.

Lemma status_kept_trans (a b c : Walk) :
  status_kept a b → status_kept b c → status_kept a c.
Proof.
  intros (Hs1 & l1 & Hn1 & Hf1) (Hs2 & l2 & Hn2 & Hf2). split.
  - destruct Hs2 as [->|?]; [done|by right].
  - exists (l1 ++ l2). split; [by rewrite Hn2, Hn1, app_assoc|].
    apply Forall_app. split; [done|].
    eapply Forall_impl; [exact Hf2|]. intros q [->|?]; [done|by right].
Qed.

Lemma poll_status_kept (stop : StopRequest) (w : Walk) :
  status_kept w (poll stop w).1.
Proof.
  split.
  - destruct w as [p r l]. unfold poll, cancel. cbn [fst snd progress].
    destruct stop as [[n now]|]; [|by left].
    repeat case_decide; cbn; auto.
  - exists []. by rewrite app_nil_r.
Qed.

Lemma count_processed_status_kept (info : option Item) (w : Walk) :
  status_kept w (count_processed (append_result info w)).
Proof.
  destruct (append_result_progress info w) as [Hp Hn].
  unfold count_processed. split; cbn [progress notified].
  - left. by rewrite Hp.
  - eexists. split; [by rewrite Hn|]. apply Forall_singleton. left. by rewrite Hp.
Qed.

Lemma process_dirs_status_kept (settings : Settings) (stop : StopRequest)
    (root : string) (dirs : list DirInfo) (w : Walk) :
  status_kept w (process_dirs settings stop root dirs w).
Proof.
  revert w. induction dirs as [|d dirs IH]; intros w; [apply status_kept_refl|].
  rewrite process_dirs_cons. destruct (poll stop w).2; [apply poll_status_kept|].
  eapply status_kept_trans; [apply poll_status_kept|].
  eapply status_kept_trans; [apply count_processed_status_kept|apply IH].
Qed.

Lemma process_files_status_kept (settings : Settings) (stop : StopRequest)
    (extract_metadata : bool) (root : string) (files : list (string * option Stat))
    (w : Walk) :
  status_kept w (process_files settings stop extract_metadata root files w).
Proof.
  revert w. induction files as [|[f st] files IH]; intros w; [apply status_kept_refl|].
  rewrite process_files_cons. destruct (poll stop w).2; [apply poll_status_kept|].
  eapply status_kept_trans; [apply poll_status_kept|].
  destruct (negb (_is_media_file settings f)); [apply IH|].
  eapply status_kept_trans; [apply count_processed_status_kept|apply IH].
Qed.

Lemma scan_body_status_kept (settings : Settings) (stop : StopRequest)
    (extract_metadata : bool) (path root : string) (dirs : list DirInfo)
    (files : list (string * option Stat)) (w : Walk) :
  status_kept w (scan_body settings stop extract_metadata path root dirs files w).1.1.
Proof.
  rewrite scan_body_eq. destruct (poll stop w).2; cbn [fst snd];
    [apply poll_status_kept|].
  eapply status_kept_trans; [apply (poll_status_kept stop)|].
  eapply status_kept_trans; [|apply process_files_status_kept].
  eapply status_kept_trans; [|apply process_dirs_status_kept].
  split; [by left|]. exists []. by rewrite app_nil_r.
Qed.

(** X21 When results become visible: from [start_scan] until
    [_run_scan_async] has finished, whatever the options and whether or not
    the scan is stopped on the way, every state of the progress object that
    a caller can observe has the status "scanning" or "cancelled", and
    [get_scan_results] answers [None]; in the final state the status is
    "completed" and [get_scan_results] hands out the scan results of that
    state. *)
Theorem results_visible_only_when_finished (w : World) (library_path : string)
    (extract_metadata check_duplicates : bool) (user_id : option string)
    (existing_files existing_directories : option (list Item))
    (scan_id : string) (now : Z) (running_scans : gmap string ScanProgress) :
  let states :=
    observable_states w library_path extract_metadata check_duplicates user_id
      existing_files existing_directories
      (new_progress scan_id library_path now) in
  ∃ earlier final,
    states = earlier ++ [final]
    ∧ 2 ≤ length earlier
    ∧ Forall (λ p, (status p = Scanning ∨ status p = Cancelled)
                   ∧ get_scan_results (<[scan_id := p]> running_scans) scan_id = None)
             earlier
    ∧ status final = Completed
    ∧ get_scan_results (<[scan_id := final]> running_scans) scan_id
      = Some (scan_results final).
Proof.
  cbv zeta. unfold observable_states.
  set (p0 := new_progress scan_id library_path now).
  set (walk := scan_passes w library_path extract_metadata p0).
  set (final := finish_scan w library_path check_duplicates user_id existing_files
                  existing_directories walk).
  exists ([p0; set_total_items (_count_items_sync (settings w) library_path (fs_count w))
                 p0] ++ notified walk ++ [progress walk]), final.
  assert (Hkept : status_kept
                    (mkWalk (set_total_items
                               (_count_items_sync (settings w) library_path (fs_count w))
                               p0) [] []) walk).
  { unfold walk, scan_passes, _scan_directory_sync.
    apply (os_walk_invariant status_kept
             (scan_body (settings w) (stop w) extract_metadata library_path)
             status_kept_refl status_kept_trans
             (scan_body_status_kept (settings w) (stop w) extract_metadata
                library_path)). }
  destruct Hkept as (Hlast & new & Hnew & Hall). cbn [progress notified app] in *.
  assert (Hhidden : ∀ p, status p = Scanning ∨ status p = Cancelled →
            (status p = Scanning ∨ status p = Cancelled)
            ∧ get_scan_results (<[scan_id := p]> running_scans) scan_id = None).
  { intros p Hp. split; [done|]. unfold get_scan_results.
    rewrite lookup_insert_eq. destruct Hp as [Hp|Hp]; rewrite Hp; by case_decide. }
  split_and!.
  - by rewrite <- !app_assoc.
  - simpl. lia.
  - repeat apply Forall_cons_2; [by apply Hhidden; left..|].
    apply Forall_app. split.
    + rewrite Hnew. eapply Forall_impl; [exact Hall|]. intros q Hq. by apply Hhidden.
    + apply Forall_singleton. by apply Hhidden.
  - apply finish_scan_counters.
  - unfold get_scan_results. rewrite lookup_insert_eq.
    rewrite decide_True; [done|]. apply finish_scan_counters.
Qed.
